(** * Vicinity and masked-neighbourhood processing: a shallow embedding

    The development follows two source units:
    - [improver/utilities/spatial.py]: grid geometry
      ([calculate_grid_spacing], [check_if_grid_is_equal_area],
      [distance_to_number_of_grid_cells], [number_of_grid_cells_to_distance],
      [get_grid_y_x_values]), [OccurrenceWithinVicinity],
      [DifferenceBetweenAdjacentGridSquares] and
      [GradientBetweenAdjacentGridSquares];
    - [lib/improver/nbhood/use_nbhood.py]:
      [ApplyNeighbourhoodProcessingWithAMask] and
      [CollapseMaskedNeighbourhoodCoordinate].

    Numbers.  Coordinate points, data values and weights are IEEE floats in
    the source.  They are embedded as exact rationals [Q]; the three special
    values a computation of the source can produce from rational inputs
    (not-a-number, and the two infinities) are explicit constructors of
    [npfloat].  Rounding is therefore abstracted: every equation on values
    below is an equation of exact arithmetic.  Where the source reads an
    integer off a quotient of floats, rounding decides the result; module
    [Rounding] states that function over the division of numpy itself. *)

From Stdlib Require Import QArith Qabs Qminmax Qround ZArith Lia List Bool.
From stdpp Require Import base option list strings gmap.

Local Open Scope Q_scope.

(** ** Errors and results *)

(** The source raises [ValueError] with distinct messages (and, through
    [int], [OverflowError]); each message is one constructor. *)
Inductive error : Type :=
  | NotEquallySpaced (coord : string)
      (* "Coordinate {} points are not equally spaced" *)
  | UnequalXYSpacing
      (* "Grid does not have equal spacing in x and y dimensions" *)
  | NonPositiveDistance
      (* "Please specify a positive distance in metres. ..." *)
  | ZeroCellExtent
      (* "Distance of {distance}m gives zero cell extent" *)
  | NanToInteger
      (* int(nan): "cannot convert float NaN to integer" *)
  | InfinityToInteger
      (* int(inf): OverflowError *)
  | UnitsNotConvertible
      (* raised by the units library inside [convert_units] *)
  | OnlyOneRadius
      (* "Only one of radius or grid_point_radius should be set" *)
  | LandMaskName (found : string)
      (* "Expected land_mask_cube to be called land_binary_mask, not {}" *)
  | SpatialCoordsMismatch
      (* "Supplied cube do not have the same spatial coordinates ..." *)
  | BooleanIndexMismatch
      (* numpy: IndexError "boolean index did not match indexed array" *)
  | CoordinateNotFound (coord : string)
      (* iris: CoordinateNotFoundError *)
  | AttributeError
      (* "'NoneType' object has no attribute 'data'" *)
  | StopIteration
      (* [next] on an exhausted iterator *)
  | DanglingReference
      (* no Python exception: a reference to an object that is not live *)
  | ExternalFailure
      (* an exception raised inside a collaborator (merge, collapse, ...) *).

Inductive result (A : Type) : Type :=
  | Ok (a : A)
  | Raise (e : error).
Arguments Ok {A} a.
Arguments Raise {A} e.

#[global] Instance result_ret : MRet result := fun A a => Ok a.
#[global] Instance result_bind : MBind result := fun A B f m =>
  match m with
  | Ok a => f a
  | Raise e => Raise e
  end.

(** ** Floating-point values *)

Inductive npfloat : Type :=
  | f_nan
  | f_inf (negative : bool)
  | f_fin (q : Q).

(** [abs] on a float. *)
Definition np_abs (x : npfloat) : npfloat :=
  match x with
  | f_nan => f_nan
  | f_inf _ => f_inf false
  | f_fin q => f_fin (Qabs q)
  end.

Definition Qlt_bool (x y : Q) : bool := negb (Qle_bool y x).

(** [x / y] for a finite [x] and a numpy scalar [y]: division by zero
    gives an infinity (or not-a-number for 0/0) and a warning, never an
    exception.  The quotient of finite values is the exact one: it stands
    for the float of the source up to rounding, not for the integer that
    [int] reads off that float (for which see [Rounding] below). *)
Definition np_div (x : Q) (y : npfloat) : npfloat :=
  match y with
  | f_nan => f_nan
  | f_inf _ => f_fin 0
  | f_fin d =>
      if Qeq_bool d 0 then
        (if Qeq_bool x 0 then f_nan else f_inf (Qlt_bool x 0))
      else f_fin (x / d)
  end.

(** [y * n] for a numpy scalar [y] and a Python int [n]; the product of
    finite values is the exact one. *)
Definition np_mul_int (y : npfloat) (n : Z) : npfloat :=
  match y with
  | f_nan => f_nan
  | f_inf neg =>
      if (n =? 0)%Z then f_nan else f_inf (xorb neg (n <? 0)%Z)
  | f_fin q => f_fin (q * inject_Z n)
  end.

(** Truncation toward zero of a rational. *)
Definition Qtrunc (q : Q) : Z := (Qnum q ÷ Z.pos (Qden q))%Z.

(** Python's [int(x)] on a float. *)
Definition py_int (x : npfloat) : result Z :=
  match x with
  | f_nan => Raise NanToInteger
  | f_inf _ => Raise InfinityToInteger
  | f_fin q => Ok (Qtrunc q)
  end.

(** [np.diff] on a one-dimensional array. *)
Fixpoint np_diff (ps : list Q) : list Q :=
  match ps with
  | p :: (p' :: _) as rest => (p' - p) :: np_diff rest
  | _ => []
  end.

Definition Qsum (xs : list Q) : Q := fold_right Qplus 0 xs.

(** [np.mean]: not-a-number on an empty array. *)
Definition np_mean (xs : list Q) : npfloat :=
  match xs with
  | [] => f_nan
  | _ => f_fin (Qsum xs / inject_Z (Z.of_nat (length xs)))
  end.

(** [np.isclose(a, b, rtol, atol)] on scalars:
    [|a - b| <= atol + rtol * |b|] for finite values, equality for
    infinities, false as soon as one side is not-a-number. *)
Definition np_isclose (a b : npfloat) (rtol atol : Q) : bool :=
  match a, b with
  | f_fin x, f_fin y => Qle_bool (Qabs (x - y)) (atol + rtol * Qabs y)
  | f_inf s, f_inf s' => Bool.eqb s s'
  | _, _ => false
  end.

(** [np.allclose(a, b, rtol, atol)] for an array [a] and a scalar [b]. *)
Definition np_allclose (a : list Q) (b : npfloat) (rtol atol : Q) : bool :=
  forallb (fun x => np_isclose (f_fin x) b rtol atol) a.

(** ** Grid geometry *)

Inductive axis : Type := X | Y.

(** The value returned by [distance_to_number_of_grid_cells]: a Python
    [int] when [return_int], a float otherwise. *)
Inductive cells : Type :=
  | IntCells (n : Z)
  | FloatCells (f : npfloat).

Section Geometry.

(** Units and their conversion belong to the units library; a conversion
    between two units is a function on point values, or fails. *)
Variable unit_t : Type.
Variable metres : unit_t.
Variable unit_convert : unit_t -> unit_t -> option (Q -> Q).

Record Coord : Type := mkCoord {
  coord_name : string;
  coord_units : unit_t;
  coord_points : list Q
}.

(** The part of a cube the geometry functions read: its two spatial
    coordinates. *)
Record GridCube : Type := mkGridCube {
  cube_x : Coord;
  cube_y : Coord
}.

Definition cube_coord (cube : GridCube) (ax : axis) : Coord :=
  match ax with X => cube_x cube | Y => cube_y cube end.

Definition convert_units (c : Coord) (units : unit_t) : result Coord :=
  match unit_convert (coord_units c) units with
  | Some f => Ok (mkCoord (coord_name c) units (map f (coord_points c)))
  | None => Raise UnitsNotConvertible
  end.

Definition default_rtol : Q := 1 # 100000.

Definition calculate_grid_spacing
    (cube : GridCube) (units : unit_t) (ax : axis) (rtol : Q)
    : result npfloat :=
  coord ← convert_units (cube_coord cube ax) units;
  let diffs := map Qabs (np_diff (coord_points coord)) in
  let diffs_mean := np_mean diffs in
  if negb (np_allclose diffs diffs_mean rtol 0)
  then Raise (NotEquallySpaced (coord_name coord))
  else Ok diffs_mean.

Definition check_if_grid_is_equal_area
    (cube : GridCube) (require_equal_xy_spacing : bool) : result unit :=
  x_diff ← calculate_grid_spacing cube metres X default_rtol;
  y_diff ← calculate_grid_spacing cube metres Y default_rtol;
  if require_equal_xy_spacing
     && negb (np_isclose x_diff y_diff (1 # 100000) (1 # 100000000))
  then Raise UnequalXYSpacing
  else Ok tt.

Definition distance_to_number_of_grid_cells
    (cube : GridCube) (distance : Q) (ax : axis) (return_int : bool)
    : result cells :=
  if Qle_bool distance 0 then Raise NonPositiveDistance
  else
    grid_spacing_metres ← calculate_grid_spacing cube metres ax default_rtol;
    let grid_cells := np_div distance (np_abs grid_spacing_metres) in
    if return_int then
      n ← py_int grid_cells;
      if (n =? 0)%Z then Raise ZeroCellExtent else Ok (IntCells n)
    else Ok (FloatCells grid_cells).

Definition number_of_grid_cells_to_distance
    (cube : GridCube) (grid_points : Z) : result npfloat :=
  _ ← check_if_grid_is_equal_area cube true;
  spacing ← calculate_grid_spacing cube metres X default_rtol;
  Ok (np_mul_int spacing grid_points).

End Geometry.

Arguments mkCoord {unit_t}.
Arguments coord_name {unit_t}.
Arguments coord_units {unit_t}.
Arguments coord_points {unit_t}.
Arguments mkGridCube {unit_t}.
Arguments cube_x {unit_t}.
Arguments cube_y {unit_t}.
Arguments cube_coord {unit_t}.
Arguments convert_units {unit_t}.
Arguments calculate_grid_spacing {unit_t}.
Arguments check_if_grid_is_equal_area {unit_t}.
Arguments distance_to_number_of_grid_cells {unit_t}.
Arguments number_of_grid_cells_to_distance {unit_t}.

(** ** The object store *)

(** Cubes are mutable Python objects.  A store maps the identity of each
    live object to its current contents; a method is a state transformer
    that may raise. *)
Definition loc : Type := nat.

Definition M (O A : Type) : Type := gmap loc O -> result (A * gmap loc O).

#[global] Instance M_ret {O} : MRet (M O) := fun A a σ => Ok (a, σ).
#[global] Instance M_bind {O} : MBind (M O) := fun A B f m σ =>
  match m σ with
  | Ok (a, σ') => f a σ'
  | Raise e => Raise e
  end.

(** Creating an object gives it an identity no live object has. *)
Definition new {O} (o : O) : M O loc := fun σ =>
  let l := fresh (dom σ) in Ok (l, <[l := o]> σ).

Definition load {O} (l : loc) : M O O := fun σ =>
  match σ !! l with
  | Some o => Ok (o, σ)
  | None => Raise DanglingReference
  end.

(** Assignment to an attribute of the object [l], or in-place update of
    its array. *)
Definition update {O} (l : loc) (o : O) : M O unit := fun σ =>
  Ok (tt, <[l := o]> σ).

Definition lift {O A} (r : result A) : M O A := fun σ =>
  match r with
  | Ok a => Ok (a, σ)
  | Raise e => Raise e
  end.

(** [mapM] in the [result] monad: the loop [for x in xs: ys.append(f(x))]. *)
Fixpoint result_map {A B} (f : A -> result B) (xs : list A) : result (list B) :=
  match xs with
  | [] => Ok []
  | x :: xs' => y ← f x; ys ← result_map f xs'; Ok (y :: ys)
  end.

(** ** Two-dimensional arrays *)

(** A numpy array of shape [(ny, nx)] is a list of [ny] rows of [nx] cells.
    Arrays are read by index with [get] and built cell by cell with
    [tabulate], as numpy's element-wise operations are. *)
Definition grid (A : Type) : Type := list (list A).

Definition shape {A} (g : grid A) : nat * nat :=
  (length g, length (List.hd [] g)).

Definition get {A} (d : A) (g : grid A) (i j : nat) : A :=
  nth j (nth i g []) d.

Definition tabulate {A} (sh : nat * nat) (f : nat -> nat -> A) : grid A :=
  map (fun i => map (f i) (seq 0 (snd sh))) (seq 0 (fst sh)).

Definition shape_eqb (s t : nat * nat) : bool :=
  (fst s =? fst t)%nat && (snd s =? snd t)%nat.

(** [a[cond] = v] on a copy of [a]. *)
Definition assign_where (a : grid Q) (cond : grid bool) (v : Q) : grid Q :=
  tabulate (shape a) (fun i j => if get false cond i j then v else get 0 a i j).

(** [a[cond] = src[cond]] on a copy of [a]. *)
Definition assign_where_from (a : grid Q) (cond : grid bool) (src : grid Q)
    : grid Q :=
  tabulate (shape a)
    (fun i j => if get false cond i j then get 0 src i j else get 0 a i j).

(** [np.where(cond, a, b)]. *)
Definition np_where (cond : grid bool) (a b : grid Q) : grid Q :=
  tabulate (shape cond)
    (fun i j => if get false cond i j then get 0 a i j else get 0 b i j).

(** [m == b] and [m != b] for a boolean array [m] and a boolean [b]. *)
Definition grid_eqb (m : grid bool) (b : bool) : grid bool :=
  tabulate (shape m) (fun i j => Bool.eqb (get false m i j) b).

Definition grid_neqb (m : grid bool) (b : bool) : grid bool :=
  tabulate (shape m) (fun i j => negb (Bool.eqb (get false m i j) b)).

(** [~m]. *)
Definition grid_not (sh : nat * nat) (m : grid bool) : grid bool :=
  tabulate sh (fun i j => negb (get false m i j)).

(** A numpy masked array: the underlying data and the element mask
    ([true] = masked).  A plain array, and a masked array without mask
    ([nomask]), carry the empty mask [[]], which reads [false] everywhere. *)
Record marray (A : Type) : Type := mkMarray {
  ma_data : grid A;
  ma_mask : grid bool
}.
Arguments mkMarray {A}.
Arguments ma_data {A}.
Arguments ma_mask {A}.

(** [np.ma.is_masked]: some element is masked. *)
Definition is_masked {A} (a : marray A) : bool :=
  existsb (existsb id) (ma_mask a).

(** ** The windowed maximum of scipy ([maximum_filter], mode "reflect") *)

(** Border mode "reflect" ([d c b a | a b c d | d c b a]): the index [k],
    possibly outside [0 .. n-1], is folded back into the array. *)
Definition reflect (n : nat) (k : Z) : nat :=
  let m := (k mod (2 * Z.of_nat n))%Z in
  Z.to_nat (if (m <? Z.of_nat n)%Z then m else (2 * Z.of_nat n - 1 - m)%Z).

(** The offsets covered by a filter of the given size centred with
    origin 0: [- size/2 .. size - 1 - size/2]. *)
Definition window (size : Z) : list Z :=
  map (fun k => (Z.of_nat k - size / 2)%Z) (seq 0 (Z.to_nat size)).

Definition Qmax_list (x : Q) (xs : list Q) : Q := fold_left Qmax xs x.

(** The values under the square window centred on cell [(i, j)]. *)
Definition window_values (input : grid Q) (size : Z) (i j : nat) : list Q :=
  let (ny, nx) := shape input in
  flat_map (fun di =>
     map (fun dj =>
        get 0 input (reflect ny (Z.of_nat i + di)) (reflect nx (Z.of_nat j + dj)))
       (window size))
    (window size).

(** [maximum_filter(input, size=size)].  scipy filters along the axes
    whose size exceeds 1 and copies the input when there is none: for a
    size below 1 the window is empty and the output is the input. *)
Definition maximum_filter (input : grid Q) (size : Z) : grid Q :=
  tabulate (shape input)
    (fun i j =>
       match window_values input size i j with
       | [] => get 0 input i j
       | v :: vs => Qmax_list v vs
       end).

(** The cell [(i', j')] lies under the window of the given size centred
    on [(i, j)] in an array of shape [sh]. *)
Definition in_window (sh : nat * nat) (size : Z) (i j i' j' : nat) : Prop :=
  exists di dj,
    In di (window size) /\ In dj (window size)
    /\ i' = reflect (fst sh) (Z.of_nat i + di)
    /\ j' = reflect (snd sh) (Z.of_nat j + dj).

(** [v] is the maximum of [f] over the window of the given size centred on
    [(i, j)]: the value of [f] at a cell under the window that bounds its
    value at every cell under the window; and it is [f i j] when the size
    is below 1. *)
Definition window_maximum (sh : nat * nat) (size : Z) (i j : nat)
    (f : nat -> nat -> Q) (v : Q) : Prop :=
  ((1 <= size)%Z ->
   (exists i' j', in_window sh size i j i' j' /\ v = f i' j')
   /\ (forall i' j', in_window sh size i j i' j' -> f i' j' <= v))
  /\ ((size < 1)%Z -> v = f i j).

(** ** OccurrenceWithinVicinity *)

Module OccurrenceWithinVicinity.

Section Plugin.

Variable unit_t : Type.
Variable metres : unit_t.
Variable unit_convert : unit_t -> unit_t -> option (Q -> Q).

(** The element type of a cube's data, and the table
    [netCDF4.default_fillvals] read at [dtype.str[1:]]; both belong to
    external libraries. *)
Variable dtype : Type.
Variable default_fillvals : dtype -> Q.

(** The contents of an array returned by [np.empty_like]. *)
Variable uninitialised : nat -> nat -> Q.

(** A two-dimensional cube: one x-y slice of a field. *)
Record Cube2D : Type := mkCube2D {
  c_name : string;
  c_grid : GridCube unit_t;
  c_dtype : dtype;
  c_data : marray Q
}.

Record t : Type := mkPlugin {
  radius : option Q;
  grid_point_radius : option Z;
  land_mask_cube : option Cube2D
}.

Definition cube_shape (cube : Cube2D) : nat * nat :=
  shape (ma_data (c_data cube)).

Definition value_at (cube : Cube2D) (i j : nat) : Q :=
  get 0 (ma_data (c_data cube)) i j.

Definition masked_at (cube : Cube2D) (i j : nat) : bool :=
  get false (ma_mask (c_data cube)) i j.

(** [self.land_mask], set by the constructor from the land-mask cube:
    [np.where(land_mask_cube.data >= 0.5, True, False)]. *)
Definition land_mask_of (c : Cube2D) : grid bool :=
  let d := ma_data (c_data c) in
  tabulate (shape d) (fun i j => Qle_bool (1 # 2) (get 0 d i j)).

Definition land_mask (self : t) : option (grid bool) :=
  land_mask_of <$> land_mask_cube self.

Definition init (radius : option Q) (grid_point_radius : option Z)
    (land_mask_cube : option Cube2D) : result t :=
  if bool_decide (is_Some radius) && bool_decide (is_Some grid_point_radius)
  then Raise OnlyOneRadius
  else
    match land_mask_cube with
    | Some c =>
        if negb (String.eqb (c_name c) "land_binary_mask")
        then Raise (LandMaskName (c_name c))
        else Ok (mkPlugin radius grid_point_radius land_mask_cube)
    | None => Ok (mkPlugin radius grid_point_radius land_mask_cube)
    end.

(** Lines 455-460: the radius as a number of grid points.  A radius of
    zero metres is falsy, as is an absent one. *)
Definition resolve_grid_point_radius (self : t) (cube : Cube2D) : result Z :=
  match radius self with
  | Some r =>
      if negb (Qeq_bool r 0) then
        n ← distance_to_number_of_grid_cells metres unit_convert
               (c_grid cube) r X true;
        match n with
        | IntCells n => Ok n
        | FloatCells _ => Raise ExternalFailure (* return_int is true *)
        end
      else
        match grid_point_radius self with
        | Some g => Ok g
        | None => Ok 0%Z
        end
  | None =>
      match grid_point_radius self with
      | Some g => Ok g
      | None => Ok 0%Z
      end
  end.

Definition np_empty_like (a : grid Q) : grid Q :=
  tabulate (shape a) uninitialised.

(** One iteration of the loop [for match in (True, False)]. *)
Definition land_sea_step (mask : grid bool) (unmasked_cube_data : grid Q)
    (cube_fill_value : Q) (grid_points : Z)
    (max_data : grid Q) (match_ : bool) : result (grid Q) :=
  if negb (shape_eqb (shape mask) (shape unmasked_cube_data))
  then Raise BooleanIndexMismatch
  else
    let matched_data :=
      assign_where unmasked_cube_data (grid_neqb mask match_)
        (- cube_fill_value) in
    let matched_max_data := maximum_filter matched_data grid_points in
    Ok (np_where (grid_eqb mask match_) matched_max_data max_data).

Definition maximum_within_vicinity (self : t) (cube : Cube2D)
    : result Cube2D :=
  grid_point_radius ← resolve_grid_point_radius self cube;
  let grid_points := (2 * grid_point_radius + 1)%Z in
  let cube_fill_value := default_fillvals (c_dtype cube) in
  let data := c_data cube in
  let unmasked_cube_data :=
    if is_masked data
    then assign_where (ma_data data) (ma_mask data) (- cube_fill_value)
    else ma_data data in
  max_data ←
    match land_mask self with
    | Some mask =>
        max_data ← land_sea_step mask unmasked_cube_data cube_fill_value
                     grid_points (np_empty_like (ma_data data)) true;
        land_sea_step mask unmasked_cube_data cube_fill_value
          grid_points max_data false
    | None => Ok (maximum_filter unmasked_cube_data grid_points)
    end;
  if is_masked data then
    Ok (mkCube2D (c_name cube) (c_grid cube) (c_dtype cube)
          (mkMarray
             (assign_where_from (ma_data data)
                (grid_not (shape (ma_data data)) (ma_mask data)) max_data)
             (ma_mask data)))
  else
    Ok (mkCube2D (c_name cube) (c_grid cube) (c_dtype cube)
          (mkMarray max_data [])).

(** A cube of any dimension: its x-y slices, in the order in which
    [cube.slices([y, x])] yields them, and the lengths of the other
    dimensions. *)
Record Cube : Type := mkCube {
  cube_name : string;
  cube_grid : GridCube unit_t;
  cube_dtype : dtype;
  cube_lead_shape : list nat;
  cube_data : list (marray Q)
}.

(** [cube.slices([y, x])]: every slice is a new cube holding a copy of
    its part of the data. *)
Definition slices (cube : Cube) : list Cube2D :=
  map (mkCube2D (cube_name cube) (cube_grid cube) (cube_dtype cube))
      (cube_data cube).

(** Collaborators: [spatial_coords_match] and [check_cube_coordinates] of
    [improver.utilities.cube_checker], and iris's [CubeList.merge_cube].
    The last two return a new cube. *)
Variable spatial_coords_match : GridCube unit_t -> GridCube unit_t -> bool.
Variable merge_cube : list Cube2D -> result Cube.
Variable check_cube_coordinates : Cube -> Cube -> result Cube.

Definition process (self : t) (cube : loc) : M Cube loc :=
  c ← load cube;
  _ ← lift (match land_mask_cube self with
            | Some lm =>
                if negb (spatial_coords_match (cube_grid c) (c_grid lm))
                then Raise SpatialCoordsMismatch else Ok tt
            | None => Ok tt
            end);
  max_cubes ← lift (result_map (maximum_within_vicinity self) (slices c));
  result_cube ← lift (merge_cube max_cubes);
  result_cube ← lift (check_cube_coordinates c result_cube);
  new result_cube.

(** The cells [(i, j)] and [(i', j')] are both land or both sea; without a
    land mask all cells are of one category. *)
Definition same_category (self : t) (i j i' j' : nat) : Prop :=
  match land_mask self with
  | Some land => get false land i' j' = get false land i j
  | None => True
  end.

(** What the window centred on [(i, j)] reads at the cell [(i', j')]:
    the cell's value, or the sentinel [- cube_fill_value] when the cell is
    masked or, with a land mask, of the other category than [(i, j)]. *)
Definition seen_from (self : t) (cube : Cube2D) (i j i' j' : nat) : Q :=
  let sentinel := - default_fillvals (c_dtype cube) in
  let unmasked := if masked_at cube i' j' then sentinel else value_at cube i' j' in
  match land_mask self with
  | Some land =>
      if negb (Bool.eqb (get false land i' j') (get false land i j))
      then sentinel else unmasked
  | None => unmasked
  end.

(** The value of [out] at the cell [(i, j)] is the maximum of [cube] over
    the unmasked cells of the category of [(i, j)] under the window of edge
    [2 r + 1]: it bounds the value of each of them, and it is the value of
    one of them, unless it is the sentinel [- cube_fill_value], which
    stands for a masked or other-category cell under the window.  When the
    sentinel does not exceed the value of [(i, j)] itself, the value of
    [out] is in any case that of a cell of the category. *)
Definition vicinity_maximum_at (self : t) (cube out : Cube2D) (r : Z)
    (i j : nat) : Prop :=
  (forall i' j',
      in_window (cube_shape cube) (2 * r + 1) i j i' j' ->
      same_category self i j i' j' -> masked_at cube i' j' = false ->
      value_at cube i' j' <= value_at out i j)
  /\ ((exists i' j',
         in_window (cube_shape cube) (2 * r + 1) i j i' j'
         /\ same_category self i j i' j' /\ masked_at cube i' j' = false
         /\ value_at out i j = value_at cube i' j')
      \/ (value_at out i j = - default_fillvals (c_dtype cube)
          /\ exists i' j',
               in_window (cube_shape cube) (2 * r + 1) i j i' j'
               /\ (~ same_category self i j i' j'
                   \/ masked_at cube i' j' = true)))
  /\ (- default_fillvals (c_dtype cube) <= value_at cube i j ->
      exists i' j',
        in_window (cube_shape cube) (2 * r + 1) i j i' j'
        /\ same_category self i j i' j' /\ masked_at cube i' j' = false
        /\ value_at out i j == value_at cube i' j').

End Plugin.

Arguments mkCube2D {unit_t dtype}.
Arguments c_name {unit_t dtype}.
Arguments c_grid {unit_t dtype}.
Arguments c_dtype {unit_t dtype}.
Arguments c_data {unit_t dtype}.
Arguments mkPlugin {unit_t dtype}.
Arguments radius {unit_t dtype}.
Arguments grid_point_radius {unit_t dtype}.
Arguments land_mask_cube {unit_t dtype}.
Arguments cube_shape {unit_t dtype}.
Arguments value_at {unit_t dtype}.
Arguments masked_at {unit_t dtype}.
Arguments land_mask_of {unit_t dtype}.
Arguments land_mask {unit_t dtype}.
Arguments init {unit_t dtype}.
Arguments resolve_grid_point_radius {unit_t} metres unit_convert {dtype}.
Arguments maximum_within_vicinity {unit_t} metres unit_convert {dtype}.
Arguments seen_from {unit_t dtype}.
Arguments same_category {unit_t dtype}.
Arguments vicinity_maximum_at {unit_t dtype}.
Arguments mkCube {unit_t dtype}.
Arguments cube_name {unit_t dtype}.
Arguments cube_grid {unit_t dtype}.
Arguments cube_dtype {unit_t dtype}.
Arguments cube_lead_shape {unit_t dtype}.
Arguments cube_data {unit_t dtype}.
Arguments slices {unit_t dtype}.
Arguments process {unit_t} metres unit_convert {dtype}.

End OccurrenceWithinVicinity.

(** ** CollapseMaskedNeighbourhoodCoordinate *)

(** Float arithmetic on [npfloat]. *)
Definition is_nan (x : npfloat) : bool :=
  match x with f_nan => true | _ => false end.

Definition is_finite (x : npfloat) : bool :=
  match x with f_fin _ => true | _ => false end.

Definition np_add (x y : npfloat) : npfloat :=
  match x, y with
  | f_nan, _ | _, f_nan => f_nan
  | f_inf s, f_inf s' => if Bool.eqb s s' then f_inf s else f_nan
  | f_inf s, f_fin _ | f_fin _, f_inf s => f_inf s
  | f_fin a, f_fin b => f_fin (a + b)
  end.

Definition np_fdiv (x y : npfloat) : npfloat :=
  match x, y with
  | f_nan, _ | _, f_nan => f_nan
  | f_inf _, f_inf _ => f_nan
  | f_inf s, f_fin d => f_inf (xorb s (Qlt_bool d 0))
  | f_fin _, f_inf _ => f_fin 0
  | f_fin a, f_fin d => np_div a (f_fin d)
  end.

(** [x == 0] on a float. *)
Definition is_zero (x : npfloat) : bool :=
  match x with f_fin q => Qeq_bool q 0 | _ => false end.

Module CollapseMaskedNeighbourhoodCoordinate.

(** One element of a masked array: its value and its mask bit. *)
Record cell : Type := mkCell {
  value : npfloat;
  masked : bool
}.

(** A three-dimensional array over (masking coordinate, y, x) is stored
    location by location: the element [(k, i, j)] of the array is element
    [k] of the lane found at row [i], column [j].  The axis of the masking
    coordinate is thus the lane, wherever that axis sits among the
    dimensions of the Python array. *)
Abbreviation lane := (list cell).
Abbreviation block := (list (list (list cell))).

Record CellMethod : Type := mkCellMethod {
  cm_method : string;
  cm_coord_names : list string
}.

(** A cube: the names of its coordinates, its cell methods, and its data
    as one block per combination of the dimensions other than the masking
    coordinate, y and x, whose lengths are [cube_lead_shape]. *)
Record Cube : Type := mkCube {
  cube_name : string;
  cube_coords : list string;
  cube_cell_methods : list CellMethod;
  cube_lead_shape : list nat;
  cube_data : list block
}.

(** The [weights] argument of iris's [collapsed]. *)
Inductive weights_arg : Type :=
  | NoWeights
  | ScalarWeights (w : npfloat)
  | ArrayWeights (w : list block).

(** [self.weights]: a cube, or anything else. *)
Inductive weights_t : Type :=
  | NotACube (w : weights_arg)
  | ACube (l : loc).

Record t : Type := mkPlugin {
  coord_masked : string;
  weights : weights_t
}.

(** [cube.shape]. *)
Definition cube_shape (c : Cube) : list nat :=
  let b := List.hd [] (cube_data c) in
  cube_lead_shape c
    ++ [length (List.hd [] (List.hd [] b)); length b; length (List.hd [] b)].

Definition map_cells (f : cell -> cell) (a : list block) : list block :=
  map (map (map (map f))) a.

(** [ma.masked_invalid]: the values are kept, and every element that is
    not finite is masked, with those masked already. *)
Definition masked_invalid (a : list block) : list block :=
  map_cells (fun c => mkCell (value c) (masked c || negb (is_finite (value c)))) a.

(** [ma.is_masked]. *)
Definition array_is_masked (a : list block) : bool :=
  existsb (existsb (existsb (existsb masked))) a.

(** [weights[condition] = 0.0] for one element, [n] being the element of
    the neighbourhood result at the same index.  Assigning an element of a
    masked array unmasks it. *)
Definition zero_cell (weights_masked : bool) (c n : cell) : cell :=
  let condition := is_nan (value n) in
  let condition :=
    if weights_masked then condition && negb (masked c) else condition in
  if condition then mkCell (f_fin 0) false else c.

Definition zero_where_nan (weights_masked : bool) (w nb : list block)
    : list block :=
  zip_with (zip_with (zip_with (zip_with (zero_cell weights_masked)))) w nb.

(** The sum of the unmasked elements of a lane. *)
Definition lane_sum (l : lane) : npfloat :=
  fold_right (fun c acc => if masked c then acc else np_add (value c) acc)
    (f_fin 0) l.

(** Modelled from the spec: [WeightsUtilities.normalise_weights] of
    [improver.blending.weights] is not among the sources.  "Renormalize
    weights along the masking-coordinate axis so they again sum to 1 at
    every spatial location; locations where all weights were zeroed remain
    zero (division-by-zero must not occur - treat as a no-op
    renormalization, leaving zero weights zero)"; "if the source weights
    carry an element-wise mask, that mask set is preserved into the
    output". *)
Definition normalise_lane (l : lane) : lane :=
  let total := lane_sum l in
  if is_zero total then l
  else map (fun c => if masked c then c
                     else mkCell (np_fdiv (value c) total) false) l.

Definition normalise_weights (a : list block) : list block :=
  map (map (map normalise_lane)) a.





Definition with_data (c : Cube) (a : list block) : Cube :=
  mkCube (cube_name c) (cube_coords c) (cube_cell_methods c)
    (cube_lead_shape c) a.

Definition has_coord (c : Cube) (name : string) : bool :=
  existsb (String.eqb name) (cube_coords c).

Definition reweight_weights (self : t) (nbhood_cube : Cube) : M Cube unit :=
  match weights self with
  | NotACube _ => lift (Raise AttributeError)
  | ACube wl =>
      w ← load wl;
      let weights_masked := array_is_masked (cube_data w) in
      if negb (bool_decide (cube_shape nbhood_cube = cube_shape w))
      then lift (Raise BooleanIndexMismatch)
      else
        _ ← update wl
              (with_data w (zero_where_nan weights_masked (cube_data w)
                              (cube_data nbhood_cube)));
        if negb (has_coord nbhood_cube (coord_masked self))
        then lift (Raise (CoordinateNotFound (coord_masked self)))
        else
          w ← load wl;
          update wl (with_data w (normalise_weights (cube_data w)))
  end.

Section Process.

(** Collaborators: iris's [Cube.collapsed] with [iris.analysis.MEAN],
    [CubeList.merge_cube], and [check_cube_coordinates] of
    [improver.utilities.cube_checker]. *)
Variable collapsed : Cube -> string -> weights_arg -> result Cube.
Variable merge_cube : list Cube -> result Cube.
Variable check_cube_coordinates : Cube -> Cube -> result Cube.

(** [cube.slices([coord_masked, yname, xname])]. *)
Definition slices (c : Cube) : list Cube :=
  map (fun b => mkCube (cube_name c) (cube_coords c) (cube_cell_methods c)
                  [] [b])
      (cube_data c).

(** [next(it)] on the slices of a cube. *)
Definition next (it : list Cube) : result Cube :=
  match it with
  | [] => Raise StopIteration
  | c :: _ => Ok c
  end.

(** [cube.slices_over([coord_masked])]: one cube per point of the masking
    coordinate. *)
Definition slices_over (c : Cube) : list Cube :=
  map (fun k => with_data c
                  (map (map (map (fun l => firstn 1 (skipn k l))))
                       (cube_data c)))
      (seq 0 (length (List.hd [] (List.hd [] (List.hd [] (cube_data c)))))).

(** iris's [remove_coord(name)]: the name must denote exactly one
    coordinate of the cube. *)
Definition remove_coord (c : Cube) (name : string) : result Cube :=
  match filter (fun n => n = name) (cube_coords c) with
  | [_] =>
      Ok (mkCube (cube_name c) (filter (fun n => n <> name) (cube_coords c))
            (cube_cell_methods c) (cube_lead_shape c) (cube_data c))
  | _ => Raise (CoordinateNotFound name)
  end.

Definition process (self : t) (cube : loc) : M Cube loc :=
  c ← load cube;
  _ ← update cube (with_data c (masked_invalid (cube_data c)));
  weights ←
    match weights self with
    | ACube wl =>
        w ← load wl;
        c ← load cube;
        _ ← (if negb (bool_decide (cube_shape w = cube_shape c))
             then first_slice ← lift (next (slices c));
                  reweight_weights self first_slice
             else reweight_weights self c);
        w ← load wl;
        mret (ArrayWeights (cube_data w))
    | NotACube w => mret w
    end;
  c ← load cube;
  cubelist ← lift (result_map
                     (fun slice_3d =>
                        collapsed slice_3d (coord_masked self) weights)
                     (slices c));
  result ← lift (merge_cube cubelist);
  first_slice ← lift (next (slices_over c));
  result ← lift (check_cube_coordinates first_slice result);
  result ← lift (remove_coord result (coord_masked self));
  let new_cell_methods :=
    filter (fun cell_method =>
              cm_coord_names cell_method <> [coord_masked self])
           (cube_cell_methods result) in
  new (mkCube (cube_name result) (cube_coords result) new_cell_methods
         (cube_lead_shape result) (cube_data result)).

End Process.

End CollapseMaskedNeighbourhoodCoordinate.

(** ** ApplyNeighbourhoodProcessingWithAMask *)

Module ApplyNeighbourhoodProcessingWithAMask.

Record t : Type := mkPlugin {
  coord_for_masking : string;
  neighbourhood_method : string;
  radii : list Q;
  lead_times : option (list Q);
  ens_factor : Q;
  weighted_mode : bool;
  sum_or_fraction : string;
  re_mask : bool
}.

Definition init (coord_for_masking : string) (radii : list Q)
    (lead_times : option (list Q)) (ens_factor : Q) (weighted_mode : bool)
    (sum_or_fraction : string) (re_mask : bool) : t :=
  mkPlugin coord_for_masking "square" radii lead_times ens_factor
    weighted_mode sum_or_fraction re_mask.

Section Process.

(** The method only combines collaborators: iris's slicing, [new_axis],
    [concatenate_cube] and [merge_cube], [NeighbourhoodProcessing.process]
    of [improver.nbhood.nbhood], and [check_cube_coordinates] and
    [find_dimension_coordinate_mismatch] of
    [improver.utilities.cube_checker].  Each of them returns a new cube and
    leaves its arguments as they are: they are functions on the contents of
    cubes, which stay abstract. *)
Variable Cube : Type.
Variable Coord : Type.
Variable axis_name : Cube -> axis -> result string.
Variable slices : Cube -> list string -> list Cube.
Variable slices_over : Cube -> string -> list Cube.
Variable neighbourhood_processing : t -> Cube -> Cube -> result Cube.
Variable coord_copy : Cube -> string -> result Coord.
Variable add_aux_coord : Cube -> Coord -> result Cube.
Variable new_axis : Cube -> string -> result Cube.
Variable concatenate_cube : list Cube -> result Cube.
Variable merge_cube : list Cube -> result Cube.
Variable find_dimension_coordinate_mismatch :
  Cube -> Cube -> bool -> list string.
Variable check_cube_coordinates : Cube -> Cube -> list string -> result Cube.

(** The body of the inner loop, for one slice of the mask cube. *)
Definition masked_slice (self : t) (x_y_slice cube_slice : Cube)
    : result Cube :=
  output_cube ← neighbourhood_processing self x_y_slice cube_slice;
  coord_object ← coord_copy cube_slice (coord_for_masking self);
  output_cube ← add_aux_coord output_cube coord_object;
  new_axis output_cube (coord_for_masking self).

(** The body of the outer loop, for one x-y slice of the input cube. *)
Definition neighbourhood_slice (self : t) (mask_cube x_y_slice : Cube)
    : result Cube :=
  cube_slices ← result_map (masked_slice self x_y_slice)
                  (slices_over mask_cube (coord_for_masking self));
  concatenated_cube ← concatenate_cube cube_slices;
  let exception_coordinates :=
    find_dimension_coordinate_mismatch x_y_slice concatenated_cube false in
  check_cube_coordinates x_y_slice concatenated_cube exception_coordinates.

Definition process (self : t) (cube mask_cube : loc) : M Cube loc :=
  c ← load cube;
  mc ← load mask_cube;
  yname ← lift (axis_name c Y);
  xname ← lift (axis_name c X);
  result_slices ← lift (result_map (neighbourhood_slice self mc)
                          (slices c [yname; xname]));
  result ← lift (merge_cube result_slices);
  let exception_coordinates :=
    find_dimension_coordinate_mismatch c result false in
  result ← lift (check_cube_coordinates c result exception_coordinates);
  new result.

End Process.

End ApplyNeighbourhoodProcessingWithAMask.

(** ** The number of grid cells under the division of numpy *)

(** [int(distance / abs(grid_spacing_metres))] truncates a float that the
    division has rounded, and a quotient just below a whole number may have
    been rounded up to it.  Here the division is numpy's, not the exact one
    of [np_div]: [true_divide x y] is the float the source's [x / y] gives
    for the distance [x] and the absolute spacing [y], whatever the types
    it is computed in and whatever it rounds to. *)
Module Rounding.

Section Division.

Variable true_divide : Q -> npfloat -> npfloat.

Variable unit_t : Type.
Variable metres : unit_t.
Variable unit_convert : unit_t -> unit_t -> option (Q -> Q).

Definition distance_to_number_of_grid_cells
    (cube : GridCube unit_t) (distance : Q) (ax : axis) (return_int : bool)
    : result cells :=
  if Qle_bool distance 0 then Raise NonPositiveDistance
  else
    grid_spacing_metres ← calculate_grid_spacing unit_convert cube metres ax
                             default_rtol;
    let grid_cells := true_divide distance (np_abs grid_spacing_metres) in
    if return_int then
      n ← py_int grid_cells;
      if (n =? 0)%Z then Raise ZeroCellExtent else Ok (IntCells n)
    else Ok (FloatCells grid_cells).

End Division.

Arguments distance_to_number_of_grid_cells true_divide {unit_t}.

End Rounding.

(** ** The coordinate values of every grid point *)

(** [get_grid_y_x_values]: the y and the x points are broadcast over the
    grid by adding to each an array of zeros shaped like the other. *)
Definition get_grid_y_x_values {unit_t} (cube : GridCube unit_t)
    : grid Q * grid Q :=
  let x_points := coord_points (cube_coord cube X) in
  let y_points := coord_points (cube_coord cube Y) in
  let x_zeros := map (fun _ => 0) x_points in
  let y_zeros := map (fun _ => 0) y_points in
  let all_x_points := map (fun z => map (fun x => z + x) x_points) y_zeros in
  let all_y_points := map (fun y => map (fun z => y + z) x_zeros) y_points in
  (all_y_points, all_x_points).

(** ** Differences and gradients between adjacent grid squares *)

(** Indexing an empty sequence at [0] raises [IndexError], which [error]
    does not list; the exceptions of the two plugins below are that one and
    those of [error]. *)
Inductive raised : Type :=
  | IndexError
      (* "index 0 is out of bounds for axis 0 with size 0",
         "tuple index out of range" *)
  | Error (e : error).

Inductive outcome (A : Type) : Type :=
  | Returns (a : A)
  | Raises (r : raised).
Arguments Returns {A} a.
Arguments Raises {A} r.

#[global] Instance outcome_ret : MRet outcome := fun A a => Returns a.
#[global] Instance outcome_bind : MBind outcome := fun A B f m =>
  match m with
  | Returns a => f a
  | Raises r => Raises r
  end.

Definition of_result {A} (r : result A) : outcome A :=
  match r with
  | Ok a => Returns a
  | Raise e => Raises (Error e)
  end.

(** [np.diff(a, axis=k)] on a two-dimensional array: between consecutive
    rows for [k = 0], within each row for [k = 1]. *)
Definition np_diff_axis (a : grid Q) (k : nat) : grid Q :=
  match k with
  | O => zip_with (zip_with (fun p p' => p' - p)) a (List.tl a)
  | S _ => map np_diff a
  end.

Definition axis_eqb (a b : axis) : bool :=
  match a, b with
  | X, X | Y, Y => true
  | _, _ => false
  end.

(** Reading a two-dimensional array by axis: its element at index [ix]
    along x and [iy] along y, and its number of cells along an axis, the
    first dimension of the array running along [first]. *)
Definition at_xy {A} (d : A) (first : axis) (g : grid A) (ix iy : nat) : A :=
  match first with
  | Y => get d g iy ix
  | X => get d g ix iy
  end.

Definition extent {A} (first : axis) (g : grid A) (ax : axis) : nat :=
  if axis_eqb ax first then fst (shape g) else snd (shape g).

(** All rows have the length of the first. *)
Definition rectangular {A} (g : grid A) : Prop :=
  Forall (fun row => length row = snd (shape g)) g.

(** The indices of the next cell along an axis. *)
Definition neighbour (ax : axis) (ix iy : nat) : nat * nat :=
  match ax with
  | X => (S ix, iy)
  | Y => (ix, S iy)
  end.

(** The member of a pair (x, y) that belongs to an axis. *)
Definition along {A} (ax : axis) (p : A * A) : A :=
  match ax with
  | X => fst p
  | Y => snd p
  end.

(** The points of a coordinate increase, or decrease, strictly. *)
Definition increasing (ps : list Q) : Prop :=
  Forall (fun d => 0 < d) (np_diff ps).

Definition decreasing (ps : list Q) : Prop :=
  Forall (fun d => d < 0) (np_diff ps).

Module DifferenceBetweenAdjacentGridSquares.

Section Plugin.

Variable unit_t : Type.

Record CellMethod : Type := mkCellMethod {
  cm_method : string;
  cm_coords : list string;
  cm_intervals : list string
}.

(** A two-dimensional cube: its metadata, its x and y dimension
    coordinates, the axis its first data dimension runs along, its scalar
    auxiliary coordinates, and its data. *)
Record Cube : Type := mkCube {
  cube_name : string;
  cube_units : unit_t;
  cube_attributes : gmap string string;
  cube_cell_methods : list CellMethod;
  cube_grid : GridCube unit_t;
  cube_first_axis : axis;
  cube_aux_coords : list (Coord unit_t);
  cube_data : grid Q
}.

(** [cube.dim_coords], each with its data dimension. *)
Definition dim_coords (cube : Cube) : list (Coord unit_t * list nat) :=
  let other := match cube_first_axis cube with X => Y | Y => X end in
  [(cube_coord (cube_grid cube) (cube_first_axis cube), [0%nat]);
   (cube_coord (cube_grid cube) other, [1%nat])].

(** All coordinates of the cube with their data dimensions; a scalar
    coordinate has none. *)
Definition coords (cube : Cube) : list (Coord unit_t * list nat) :=
  dim_coords cube ++ map (fun c => (c, [])) (cube_aux_coords cube).

(** [cube.coord(name)] with [cube.coord_dims(name)]: the name must denote
    exactly one coordinate. *)
Definition coord (cube : Cube) (name : string)
    : result (Coord unit_t * list nat) :=
  match filter (fun c => coord_name (fst c) = name) (coords cube) with
  | [c] => Ok c
  | _ => Raise (CoordinateNotFound name)
  end.

Definition _update_metadata (diff_cube : Cube) (name cube_name_ : string)
    : Cube :=
  let cell_method := mkCellMethod "difference" [name] ["1 grid length"] in
  mkCube (String.append "difference_of_" cube_name_)
    (cube_units diff_cube)
    (<["form_of_difference" := "forward_difference"]>
       (cube_attributes diff_cube))
    (cube_cell_methods diff_cube ++ [cell_method])
    (cube_grid diff_cube) (cube_first_axis diff_cube)
    (cube_aux_coords diff_cube) (cube_data diff_cube).

(** [(points[1:] + points[:-1]) / 2]. *)
Definition mean_points (points : list Q) : list Q :=
  zip_with (fun a b => (a + b) / 2) (List.tl points) (removelast points).

(** The new cube takes the metadata of [cube] and copies of its
    coordinates, the points of the dimension coordinates called [name]
    being replaced.  (What iris itself checks of the coordinates it is
    handed is not part of the source.) *)
Definition create_difference_cube (cube : Cube) (name : string)
    (diff_along_axis : grid Q) : result Cube :=
  c ← coord cube name;
  let points := coord_points (fst c) in
  let copy (coord : Coord unit_t) :=
    if bool_decide (In (coord_name coord) [name])
    then mkCoord (coord_name coord) (coord_units coord) (mean_points points)
    else coord in
  Ok (mkCube (cube_name cube) (cube_units cube) (cube_attributes cube)
        (cube_cell_methods cube)
        (mkGridCube (copy (cube_x (cube_grid cube)))
                    (copy (cube_y (cube_grid cube))))
        (cube_first_axis cube) (cube_aux_coords cube) diff_along_axis).

Definition calculate_difference (cube : Cube) (name : string)
    : outcome (grid Q) :=
  c ← of_result (coord cube name);
  match snd c with
  | [] => Raises IndexError
  | diff_axis :: _ => Returns (np_diff_axis (cube_data cube) diff_axis)
  end.

(** The body of the loop [for axis in ["x", "y"]]. *)
Definition difference_along (cube : Cube) (ax : axis) : outcome Cube :=
  let name := coord_name (cube_coord (cube_grid cube) ax) in
  diff_along_axis ← calculate_difference cube name;
  diff_cube ← of_result (create_difference_cube cube name diff_along_axis);
  Returns (_update_metadata diff_cube name (cube_name cube)).

Definition process (cube : Cube) : outcome (Cube * Cube) :=
  x ← difference_along cube X;
  y ← difference_along cube Y;
  Returns (x, y).

(** The value of the cube at index [ix] along x and [iy] along y, and the
    points of its coordinate along an axis. *)
Definition value_at (cube : Cube) (ix iy : nat) : Q :=
  at_xy 0 (cube_first_axis cube) (cube_data cube) ix iy.

Definition points (cube : Cube) (ax : axis) : list Q :=
  coord_points (cube_coord (cube_grid cube) ax).

(** The data dimension that runs along an axis. *)
Definition axis_dim (cube : Cube) (ax : axis) : nat :=
  if axis_eqb ax (cube_first_axis cube) then 0%nat else 1%nat.

(** The name of no other coordinate of the cube is that of its coordinate
    along [ax]. *)
Definition unique_name (cube : Cube) (ax : axis) : Prop :=
  let name := coord_name (cube_coord (cube_grid cube) ax) in
  let other := match ax with X => Y | Y => X end in
  coord_name (cube_coord (cube_grid cube) other) <> name
  /\ Forall (fun c => coord_name c <> name) (cube_aux_coords cube).

End Plugin.

Arguments mkCube {unit_t}.
Arguments cube_name {unit_t}.
Arguments cube_units {unit_t}.
Arguments cube_attributes {unit_t}.
Arguments cube_cell_methods {unit_t}.
Arguments cube_grid {unit_t}.
Arguments cube_first_axis {unit_t}.
Arguments cube_aux_coords {unit_t}.
Arguments cube_data {unit_t}.
Arguments dim_coords {unit_t}.
Arguments coords {unit_t}.
Arguments coord {unit_t}.
Arguments _update_metadata {unit_t}.
Arguments create_difference_cube {unit_t}.
Arguments calculate_difference {unit_t}.
Arguments difference_along {unit_t}.
Arguments process {unit_t}.
Arguments value_at {unit_t}.
Arguments points {unit_t}.
Arguments axis_dim {unit_t}.
Arguments unique_name {unit_t}.

End DifferenceBetweenAdjacentGridSquares.

Module GradientBetweenAdjacentGridSquares.

Import DifferenceBetweenAdjacentGridSquares.

Record t : Type := mkPlugin {
  regrid : bool
}.

Section Plugin.

Variable unit_t : Type.

(** Collaborators: [create_new_diagnostic_cube] of
    [improver.metadata.utilities] with the constant
    [MANDATORY_ATTRIBUTE_DEFAULTS], the division of units, and iris's
    [Cube.regrid] with the linear scheme.  The cubes they build hold the
    gradients, which are floats. *)
Variable GradientCube : Type.
Variable unit_divide : unit_t -> unit_t -> unit_t.
Variable MANDATORY_ATTRIBUTE_DEFAULTS : gmap string string.
Variable create_new_diagnostic_cube :
  string -> unit_t -> Cube unit_t -> gmap string string -> grid npfloat ->
  result GradientCube.
Variable cube_regrid : GradientCube -> Cube unit_t -> result GradientCube.

Definition _create_output_cube (gradient : grid npfloat)
    (diff cube : Cube unit_t) (ax : axis) : result GradientCube :=
  create_new_diagnostic_cube
    (String.append "gradient_of_" (cube_name cube))
    (unit_divide (cube_units cube)
       (coord_units (cube_coord (cube_grid diff) ax)))
    diff MANDATORY_ATTRIBUTE_DEFAULTS gradient.

Definition _gradient_from_diff (diff : Cube unit_t) (ax : axis)
    : outcome (grid npfloat) :=
  match np_diff (coord_points (cube_coord (cube_grid diff) ax)) with
  | [] => Raises IndexError
  | grid_spacing :: _ =>
      Returns (map (map (fun v => np_div v (f_fin grid_spacing)))
                 (cube_data diff))
  end.

(** The body of the loop over the two axes and their difference cubes. *)
Definition gradient_along (self : t) (cube diff : Cube unit_t) (ax : axis)
    : outcome GradientCube :=
  gradient ← _gradient_from_diff diff ax;
  grad_cube ← of_result (_create_output_cube gradient diff cube ax);
  if regrid self then of_result (cube_regrid grad_cube cube)
  else Returns grad_cube.

(** Calling the difference plugin runs its [process]. *)
Definition process (self : t) (cube : Cube unit_t)
    : outcome (GradientCube * GradientCube) :=
  diffs ← DifferenceBetweenAdjacentGridSquares.process cube;
  x ← gradient_along self cube (fst diffs) X;
  y ← gradient_along self cube (snd diffs) Y;
  Returns (x, y).

End Plugin.

Arguments _gradient_from_diff {unit_t}.
Arguments _create_output_cube {unit_t GradientCube}.
Arguments gradient_along {unit_t GradientCube}.
Arguments process {unit_t GradientCube}.

End GradientBetweenAdjacentGridSquares.

(** ** Concrete inputs *)

Module Examples.

(** *** A 2 km grid, in metres *)

Definition convert_metres : unit -> unit -> option (Q -> Q) :=
  fun _ _ => Some (fun p => p).

Definition coord_2km (name : string) : Coord unit :=
  mkCoord name tt [0; 2000; 4000; 6000].

Definition grid_2km : GridCube unit :=
  mkGridCube (coord_2km "projection_x_coordinate")
             (coord_2km "projection_y_coordinate").

(** *** A 4 x 4 field, land on the left, one hot sea cell at the coast *)

Definition fill_float32 : unit -> Q :=
  fun _ => 9969209968386869046778552952102584320.

Definition zeros : nat -> nat -> Q := fun _ _ => 0.

Definition land_left : OccurrenceWithinVicinity.Cube2D unit unit :=
  OccurrenceWithinVicinity.mkCube2D "land_binary_mask" grid_2km tt
    (mkMarray [[1; 1; 0; 0]; [1; 1; 0; 0]; [1; 1; 0; 0]; [1; 1; 0; 0]] []).

Definition hot_sea_cell : OccurrenceWithinVicinity.Cube2D unit unit :=
  OccurrenceWithinVicinity.mkCube2D "probability_of_rain" grid_2km tt
    (mkMarray [[0; 0; 0; 0]; [0; 0; 1; 0]; [0; 0; 0; 0]; [0; 0; 0; 0]] []).

Definition with_land_mask : OccurrenceWithinVicinity.t unit unit :=
  OccurrenceWithinVicinity.mkPlugin None (Some 1%Z) (Some land_left).

Definition without_land_mask : OccurrenceWithinVicinity.t unit unit :=
  OccurrenceWithinVicinity.mkPlugin None (Some 1%Z) None.

Definition unconfigured : OccurrenceWithinVicinity.t unit unit :=
  OccurrenceWithinVicinity.mkPlugin None None None.

Definition vicinity :=
  OccurrenceWithinVicinity.maximum_within_vicinity tt convert_metres
    fill_float32 zeros.

Definition hot_field : OccurrenceWithinVicinity.Cube unit unit :=
  OccurrenceWithinVicinity.mkCube "probability_of_rain" grid_2km tt [2%nat]
    [OccurrenceWithinVicinity.c_data hot_sea_cell;
     OccurrenceWithinVicinity.c_data hot_sea_cell].

(** Stand-ins for the collaborators of [process]: the slices are put back
    in order, under the dimensions of the input. *)
Definition merge_slices (cubes : list (OccurrenceWithinVicinity.Cube2D unit unit))
    : result (OccurrenceWithinVicinity.Cube unit unit) :=
  match cubes with
  | [] => Raise ExternalFailure
  | c :: _ =>
      Ok (OccurrenceWithinVicinity.mkCube (OccurrenceWithinVicinity.c_name c)
            (OccurrenceWithinVicinity.c_grid c)
            (OccurrenceWithinVicinity.c_dtype c) [length cubes]
            (map OccurrenceWithinVicinity.c_data cubes))
  end.

Definition restore_dimensions
    (like merged : OccurrenceWithinVicinity.Cube unit unit)
    : result (OccurrenceWithinVicinity.Cube unit unit) :=
  Ok (OccurrenceWithinVicinity.mkCube
        (OccurrenceWithinVicinity.cube_name merged)
        (OccurrenceWithinVicinity.cube_grid merged)
        (OccurrenceWithinVicinity.cube_dtype merged)
        (OccurrenceWithinVicinity.cube_lead_shape like)
        (OccurrenceWithinVicinity.cube_data merged)).

Definition vicinity_process :=
  OccurrenceWithinVicinity.process tt convert_metres fill_float32 zeros
    (fun _ _ => true) merge_slices restore_dimensions.

(** *** Two bands of a masking coordinate over a 1 x 2 grid *)

Import CollapseMaskedNeighbourhoodCoordinate.

Definition number (q : Q) : cell := mkCell (f_fin q) false.
Definition not_a_number : cell := mkCell f_nan false.

Definition band_coords : list string :=
  ["topographic_zone"; "projection_y_coordinate"; "projection_x_coordinate"].

(** Uniform weights [0.5, 0.5] at both locations. *)
Definition uniform_weights : Cube :=
  mkCube "weights" band_coords [] []
    [ [[ [number (1 # 2); number (1 # 2)]; [number (1 # 2); number (1 # 2)] ]] ].

(** The first band is undefined at the first location, both bands are at
    the second. *)
Definition neighbourhood_result : Cube :=
  mkCube "probability_of_rain" band_coords
    [mkCellMethod "mean" ["topographic_zone"]; mkCellMethod "mean" ["time"]] []
    [ [[ [not_a_number; number (3 # 10)]; [not_a_number; not_a_number] ]] ].

Definition two_cubes : gmap loc Cube :=
  <[1%nat := uniform_weights]> (<[0%nat := neighbourhood_result]> ∅).

Definition weighted : t := mkPlugin "topographic_zone" (ACube 1%nat).
Definition unweighted : t := mkPlugin "topographic_zone" (NotACube NoWeights).

(** Stand-ins for the collaborators of [process], which record what the
    metadata of the cubes becomes and keep, for data, the first band. *)
Definition collapsed_stub (slice : Cube) (name : string) (w : weights_arg)
    : result Cube :=
  Ok (mkCube (cube_name slice) (cube_coords slice)
        (cube_cell_methods slice ++ [mkCellMethod "mean" [name]]) []
        (map (map (map (firstn 1))) (cube_data slice))).

Definition merge_stub (cubes : list Cube) : result Cube :=
  match cubes with
  | [] => Raise ExternalFailure
  | c :: _ =>
      Ok (mkCube (cube_name c) (cube_coords c) (cube_cell_methods c) []
            (flat_map cube_data cubes))
  end.

Definition check_stub (reference merged : Cube) : result Cube := Ok merged.

Definition collapse_process := process collapsed_stub merge_stub check_stub.

(** *** Stand-ins for the collaborators of the masked neighbourhood *)

Definition apply_process :=
  ApplyNeighbourhoodProcessingWithAMask.process (list Q) unit
    (fun _ ax => Ok (match ax with X => "x" | Y => "y" end))
    (fun c _ => [c]) (fun c _ => [c; c])
    (fun _ c _ => Ok c) (fun _ _ => Ok tt) (fun c _ => Ok c)
    (fun c _ => Ok c)
    (fun cs => Ok (concat cs)) (fun cs => Ok (concat cs))
    (fun _ _ _ => []) (fun _ c _ => Ok c).

Definition masked_neighbourhood : ApplyNeighbourhoodProcessingWithAMask.t :=
  ApplyNeighbourhoodProcessingWithAMask.init "topographic_zone" [2000] None 1
    true "fraction" false.

Definition two_fields : gmap loc (list Q) :=
  <[1%nat := [1; 0]]> (<[0%nat := [3 # 10; 7 # 10]]> ∅).

(** *** Degenerate and reversed axes *)

Definition single_point_grid : GridCube unit :=
  mkGridCube (mkCoord "projection_x_coordinate" tt [1000])
             (coord_2km "projection_y_coordinate").

Definition collapsed_axis_grid : GridCube unit :=
  mkGridCube (mkCoord "projection_x_coordinate" tt [500; 500; 500])
             (coord_2km "projection_y_coordinate").

Definition descending_grid : GridCube unit :=
  mkGridCube (mkCoord "projection_x_coordinate" tt [6000; 4000; 2000; 0])
             (coord_2km "projection_y_coordinate").

Definition grid_2km_by_4km : GridCube unit :=
  mkGridCube (coord_2km "projection_x_coordinate")
             (mkCoord "projection_y_coordinate" tt [0; 4000; 8000]).

(** *** A 3 x 3 field of altitudes, linear along x *)

Definition altitude : DifferenceBetweenAdjacentGridSquares.Cube unit :=
  DifferenceBetweenAdjacentGridSquares.mkCube "surface_altitude" tt
    (<["source" := "IMPROVER"]> ∅) []
    (mkGridCube (mkCoord "projection_x_coordinate" tt [0; 2000; 4000])
                (mkCoord "projection_y_coordinate" tt [0; 2000; 4000]))
    Y [mkCoord "time" tt [0]]
    [[10; 30; 50]; [20; 40; 60]; [15; 35; 55]].

(** The same with two points along x only. *)
Definition narrow_altitude : DifferenceBetweenAdjacentGridSquares.Cube unit :=
  DifferenceBetweenAdjacentGridSquares.mkCube "surface_altitude" tt ∅ []
    (mkGridCube (mkCoord "projection_x_coordinate" tt [0; 2000])
                (mkCoord "projection_y_coordinate" tt [0; 2000; 4000]))
    Y [] [[10; 30]; [20; 40]; [15; 35]].

(** Stand-ins for the collaborators of the gradient plugin: the new cube
    is its name with its data. *)
Definition gradient_process :=
  GradientBetweenAdjacentGridSquares.process
    (fun _ _ => tt) (∅ : gmap string string)
    (fun name _ _ _ data => Ok (name, data))
    (fun (c : string * grid npfloat) _ => Ok c).

(** *** More inputs of the vicinity plugin *)

(** The field of [hot_sea_cell] with its hot cell masked. *)
Definition hot_cell_masked : OccurrenceWithinVicinity.Cube2D unit unit :=
  OccurrenceWithinVicinity.mkCube2D "probability_of_rain" grid_2km tt
    (mkMarray [[0; 0; 0; 0]; [0; 0; 1; 0]; [0; 0; 0; 0]; [0; 0; 0; 0]]
       [[false; false; false; false]; [false; false; true; false];
        [false; false; false; false]; [false; false; false; false]]).

Definition calm_sea : OccurrenceWithinVicinity.Cube2D unit unit :=
  OccurrenceWithinVicinity.mkCube2D "probability_of_rain" grid_2km tt
    (mkMarray [[0; 0; 0; 0]; [0; 0; 0; 0]; [0; 0; 0; 0]; [0; 0; 0; 0]] []).

(** The field of [hot_sea_cell] with other values over the land. *)
Definition hot_sea_cell_wet_land : OccurrenceWithinVicinity.Cube2D unit unit :=
  OccurrenceWithinVicinity.mkCube2D "probability_of_rain" grid_2km tt
    (mkMarray [[7; 7; 0; 0]; [7; 9; 1; 0]; [7; 7; 0; 0]; [7; 7; 0; 0]] []).


(** *** Fields of 32-bit integers *)

Inductive element_type : Type := float32 | int32.

(** The entries "f4" and "i4" of [netCDF4.default_fillvals]. *)
Definition netcdf4_default_fillvals (d : element_type) : Q :=
  match d with
  | float32 => 9969209968386869046778552952102584320
  | int32 => - 2147483647
  end.

(** Land on the left, the second column half land. *)
Definition land_left_halves
    : OccurrenceWithinVicinity.Cube2D unit element_type :=
  OccurrenceWithinVicinity.mkCube2D "land_binary_mask" grid_2km float32
    (mkMarray [[1; 1 # 2; 0; 0]; [1; 1 # 2; 0; 0];
               [1; 1 # 2; 0; 0]; [1; 1 # 2; 0; 0]] []).

Definition hot_sea_cell_of (d : element_type)
    : OccurrenceWithinVicinity.Cube2D unit element_type :=
  OccurrenceWithinVicinity.mkCube2D "probability_of_rain" grid_2km d
    (mkMarray [[0; 0; 0; 0]; [0; 0; 1; 0]; [0; 0; 0; 0]; [0; 0; 0; 0]] []).

Definition with_land_halves : OccurrenceWithinVicinity.t unit element_type :=
  OccurrenceWithinVicinity.mkPlugin None (Some 1%Z) (Some land_left_halves).

Definition typed_vicinity :=
  OccurrenceWithinVicinity.maximum_within_vicinity tt convert_metres
    netcdf4_default_fillvals zeros.

(** *** A division that rounds *)

(** The nearest multiple of [2 ^ - 20], halves upward. *)
Definition nearest_2_20 (q : Q) : Q :=
  inject_Z (Qfloor (q * 1048576 + (1 # 2))) / 1048576.

(** A stand-in for the division of numpy: the exact quotient, rounded. *)
Definition rounding_divide (x : Q) (y : npfloat) : npfloat :=
  match np_div x y with
  | f_fin q => f_fin (nearest_2_20 q)
  | other => other
  end.

End Examples.

(** * Properties *)

(** ** Arithmetic of the numeric model *)

Lemma Qle_bool_false (x y : Q) : Qle_bool x y = false <-> y < x.
Proof.
  split; intros H.
  - apply Qnot_le_lt. intros Hle. apply Qle_bool_iff in Hle. congruence.
  - destruct (Qle_bool x y) eqn:E; [|reflexivity].
    apply Qle_bool_iff in E. exfalso. exact (Qlt_not_le _ _ H E).
Qed.

Lemma Qeq_bool_false (x y : Q) : Qeq_bool x y = false <-> ~ x == y.
Proof.
  split; intros H.
  - intros Heq. apply Qeq_bool_iff in Heq. congruence.
  - destruct (Qeq_bool x y) eqn:E; [|reflexivity].
    apply Qeq_bool_iff in E. contradiction.
Qed.

Lemma Qabs_eq_0 (s : Q) : Qabs s == 0 -> s == 0.
Proof.
  apply (Qabs_case s (fun a => a == 0 -> s == 0)); intros _ H; [exact H|].
  rewrite <- (Qopp_involutive s), H. reflexivity.
Qed.

Lemma Qtrunc_floor (q : Q) : 0 <= q -> Qtrunc q = Qfloor q.
Proof.
  destruct q as [n d]. unfold Qle, Qtrunc, Qfloor. simpl. intros H.
  apply Z.quot_div_nonneg; lia.
Qed.





Lemma Qsum_constant (s : Q) (xs : list Q) :
  Forall (fun d => d == s) xs ->
  Qsum xs == inject_Z (Z.of_nat (length xs)) * s.
Proof.
  induction 1 as [|d xs Hd _ IH].
  - simpl. ring.
  - change (Qsum (d :: xs)) with (d + Qsum xs).
    rewrite IH, Hd. cbn [length]. rewrite Nat2Z.inj_succ.
    unfold Z.succ. rewrite inject_Z_plus. ring.
Qed.

Lemma np_mean_constant (s : Q) (xs : list Q) :
  xs <> [] -> Forall (fun d => d == s) xs ->
  exists m, np_mean xs = f_fin m /\ m == s.
Proof.
  intros Hne Hall. destruct xs as [|x xs]; [congruence|].
  eexists. split; [reflexivity|].
  rewrite (Qsum_constant s _ Hall).
  field. change 0 with (inject_Z 0). rewrite inject_Z_injective.
  cbn [length]. lia.
Qed.

Lemma np_allclose_true (a : list Q) (m rtol atol : Q) :
  np_allclose a (f_fin m) rtol atol = true <->
  Forall (fun d => Qabs (d - m) <= atol + rtol * Qabs m) a.
Proof.
  unfold np_allclose. rewrite forallb_forall, List.Forall_forall.
  split; intros H x Hx; specialize (H x Hx); simpl in *;
    now apply Qle_bool_iff.
Qed.

(** ** Grid geometry *)

Section GeometryProperties.

Context {unit_t : Type}.
Variable metres : unit_t.
Variable unit_convert : unit_t -> unit_t -> option (Q -> Q).

Local Abbreviation spacing := (calculate_grid_spacing unit_convert).
Local Abbreviation to_cells :=
  (distance_to_number_of_grid_cells metres unit_convert).
Local Abbreviation to_distance :=
  (number_of_grid_cells_to_distance metres unit_convert).

Lemma calculate_grid_spacing_unfold cube units ax rtol coord :
  convert_units unit_convert (cube_coord cube ax) units = Ok coord ->
  spacing cube units ax rtol =
    let diffs := map Qabs (np_diff (coord_points coord)) in
    if np_allclose diffs (np_mean diffs) rtol 0
    then Ok (np_mean diffs)
    else Raise (NotEquallySpaced (coord_name coord)).
Proof.
  intros H. unfold calculate_grid_spacing. rewrite H. simpl.
  destruct (np_allclose _ _ _ _); reflexivity.
Qed.

(** C4.  Let [diffs] be the consecutive absolute differences of the axis's
    points after conversion to the requested units.  (a) When every
    difference equals the step [s] (at least two points, [rtol] not
    negative), [calculate_grid_spacing] returns the mean of [diffs], and
    that mean equals [s].  (b) When every difference is within relative
    tolerance [rtol] of the mean, the mean is returned.  (c) When some
    difference deviates from the mean by more than [rtol] relative to it,
    the not-equally-spaced error is raised instead. *)
Theorem C4_calculate_grid_spacing cube units ax rtol coord :
  convert_units unit_convert (cube_coord cube ax) units = Ok coord ->
  let diffs := map Qabs (np_diff (coord_points coord)) in
  (forall s, 0 <= rtol -> diffs <> [] -> Forall (fun d => d == s) diffs ->
     exists m, spacing cube units ax rtol = Ok (f_fin m) /\
               np_mean diffs = f_fin m /\ m == s)
  /\ (forall m, np_mean diffs = f_fin m ->
        Forall (fun d => Qabs (d - m) <= rtol * Qabs m) diffs ->
        spacing cube units ax rtol = Ok (f_fin m))
  /\ (forall m d, np_mean diffs = f_fin m -> In d diffs ->
        rtol * Qabs m < Qabs (d - m) ->
        spacing cube units ax rtol = Raise (NotEquallySpaced (coord_name coord))).
Proof.
  intros Hconv diffs.
  assert (Hclose : forall m, np_mean diffs = f_fin m ->
            Forall (fun d => Qabs (d - m) <= rtol * Qabs m) diffs ->
            spacing cube units ax rtol = Ok (f_fin m)).
  { intros m Hm Hall.
    rewrite (calculate_grid_spacing_unfold _ _ _ _ _ Hconv). cbv zeta.
    fold diffs. rewrite Hm.
    assert (np_allclose diffs (f_fin m) rtol 0 = true) as ->; [|reflexivity].
    apply np_allclose_true. eapply Forall_impl; [exact Hall|].
    simpl. intros d Hd. now rewrite Qplus_0_l. }
  split; [|split].
  - intros s Hrtol Hne Hall.
    destruct (np_mean_constant s diffs Hne Hall) as (m & Hm & Hms).
    exists m. split; [|split]; try assumption.
    apply Hclose; [exact Hm|].
    eapply Forall_impl; [exact Hall|]. intros d Hd. cbv beta in Hd |- *.
    assert (H0 : d - m == 0) by (rewrite Hd, Hms; ring).
    rewrite H0. change (Qabs 0) with 0. apply Qmult_le_0_compat; [exact Hrtol | apply Qabs_nonneg].
  - exact Hclose.
  - intros m d Hm Hin Hdev.
    rewrite (calculate_grid_spacing_unfold _ _ _ _ _ Hconv). cbv zeta.
    fold diffs. rewrite Hm.
    assert (np_allclose diffs (f_fin m) rtol 0 = false) as ->; [|reflexivity].
    destruct (np_allclose diffs (f_fin m) rtol 0) eqn:E; [|reflexivity].
    apply np_allclose_true in E. rewrite List.Forall_forall in E.
    specialize (E d Hin). simpl in E. rewrite Qplus_0_l in E.
    exfalso. exact (Qlt_not_le _ _ Hdev E).
Qed.


Lemma to_cells_positive cube distance ax return_int s :
  0 < distance ->
  spacing cube metres ax default_rtol = Ok (f_fin s) ->
  ~ s == 0 ->
  to_cells cube distance ax return_int =
    if return_int then
      if (Qtrunc (distance / Qabs s) =? 0)%Z then Raise ZeroCellExtent
      else Ok (IntCells (Qtrunc (distance / Qabs s)))
    else Ok (FloatCells (f_fin (distance / Qabs s))).
Proof.
  intros Hd Hs Hnz. unfold distance_to_number_of_grid_cells.
  apply Qle_bool_false in Hd. rewrite Hd, Hs. simpl.
  assert (Qeq_bool (Qabs s) 0 = false) as ->.
  { apply Qeq_bool_false. intros H0. apply Hnz. now apply Qabs_eq_0. }
  destruct return_int; reflexivity.
Qed.

Lemma spacing_never_zero_cell_extent cube units ax rtol :
  spacing cube units ax rtol <> Raise ZeroCellExtent.
Proof.
  unfold calculate_grid_spacing, convert_units.
  destruct (unit_convert _ _); simpl; [|discriminate].
  destruct (np_allclose _ _ _ _); simpl; discriminate.
Qed.


(** With the exact division the function is that of the other
    properties. *)
Lemma exact_division cube distance ax return_int :
  Rounding.distance_to_number_of_grid_cells np_div metres unit_convert cube
    distance ax return_int
  = to_cells cube distance ax return_int.
Proof. reflexivity. Qed.

(** C10.  With [return_int] false and a positive distance on an axis of
    non-zero spacing [s], the exact quotient [distance / |s|] is returned,
    whatever its size; and whenever the zero-cell-extent error is raised,
    [return_int] was true. *)
Theorem C10_float_cells_never_zero_extent cube distance ax :
  (forall s, 0 < distance ->
     spacing cube metres ax default_rtol = Ok (f_fin s) -> ~ s == 0 ->
     to_cells cube distance ax false
       = Ok (FloatCells (f_fin (distance / Qabs s))))
  /\ (forall return_int,
        to_cells cube distance ax return_int = Raise ZeroCellExtent ->
        return_int = true).
Proof.
  split.
  - intros s Hd Hs Hnz. now rewrite (to_cells_positive _ _ _ false s Hd Hs Hnz).
  - intros [|]; [reflexivity|]. unfold distance_to_number_of_grid_cells.
    destruct (Qle_bool distance 0); [discriminate|].
    pose proof (spacing_never_zero_cell_extent cube metres ax default_rtol) as Hne.
    destruct (spacing cube metres ax default_rtol) as [sp|e]; simpl.
    + discriminate.
    + intros H. exfalso. apply Hne. now inversion H.
Qed.


End GeometryProperties.

(** ** Arrays *)

Lemma get_tabulate {A} (d : A) (sh : nat * nat) (f : nat -> nat -> A) i j :
  (i < fst sh)%nat -> (j < snd sh)%nat -> get d (tabulate sh f) i j = f i j.
Proof.
  intros Hi Hj. unfold get, tabulate.
  rewrite (nth_indep _ [] (map (f 0%nat) (seq 0 (snd sh)))).
  2:{ now rewrite length_map, length_seq. }
  rewrite (map_nth (fun i => map (f i) (seq 0 (snd sh))) (seq 0 (fst sh)) 0%nat i).
  rewrite seq_nth by exact Hi. simpl.
  rewrite (nth_indep _ d (f i 0%nat)).
  2:{ now rewrite length_map, length_seq. }
  rewrite (map_nth (f i) (seq 0 (snd sh)) 0%nat j).
  now rewrite seq_nth.
Qed.

Lemma shape_tabulate {A} (sh : nat * nat) (f : nat -> nat -> A) :
  (0 < fst sh)%nat -> shape (tabulate sh f) = sh.
Proof.
  destruct sh as [ny nx]. simpl. intros H. unfold shape, tabulate. simpl.
  rewrite length_map, length_seq.
  destruct ny as [|ny]; [lia|]. simpl.
  now rewrite length_map, length_seq.
Qed.

Lemma existsb_id_false (row : list bool) j :
  existsb id row = false -> nth j row false = false.
Proof.
  revert j. induction row as [|b row IH]; intros [|j] H; simpl in *;
    try reflexivity.
  - now apply orb_false_elim in H.
  - apply orb_false_elim in H. now apply IH.
Qed.

Lemma not_masked_get {A} (a : marray A) i j :
  is_masked a = false -> get false (ma_mask a) i j = false.
Proof.
  unfold is_masked, get. generalize (ma_mask a) as m.
  intros m. revert i. induction m as [|row m IH]; intros [|i] H; simpl in *.
  - now destruct j.
  - now destruct j.
  - apply orb_false_elim in H. now apply existsb_id_false.
  - apply orb_false_elim in H. now apply IH.
Qed.

(** ** Windows *)

Lemma reflect_in_range (n i : nat) : (i < n)%nat -> reflect n (Z.of_nat i + 0) = i.
Proof.
  intros H. unfold reflect. rewrite Z.add_0_r.
  rewrite Z.mod_small by lia.
  destruct (Z.ltb_spec (Z.of_nat i) (Z.of_nat n)); lia.
Qed.

Lemma reflect_lt (n : nat) (k : Z) : (0 < n)%nat -> (reflect n k < n)%nat.
Proof.
  intros H. unfold reflect.
  pose proof (Z.mod_pos_bound k (2 * Z.of_nat n) ltac:(lia)) as Hm.
  destruct (Z.ltb_spec (k mod (2 * Z.of_nat n)) (Z.of_nat n)); lia.
Qed.

Lemma window_centre (r : Z) : (0 <= r)%Z -> In 0%Z (window (2 * r + 1)).
Proof.
  intros H. unfold window. apply in_map_iff.
  exists (Z.to_nat r). split.
  - replace ((2 * r + 1) / 2)%Z with r; [lia|].
    apply Z.div_unique with (r := 1%Z); lia.
  - apply in_seq. lia.
Qed.

Lemma Qmax_list_ge_init (x : Q) (xs : list Q) : x <= Qmax_list x xs.
Proof.
  unfold Qmax_list. revert x. induction xs as [|y xs IH]; intros x; simpl.
  - apply Qle_refl.
  - eapply Qle_trans; [|apply IH]. apply Q.le_max_l.
Qed.

Lemma Qmax_list_ge (x : Q) (xs : list Q) (v : Q) :
  In v (x :: xs) -> v <= Qmax_list x xs.
Proof.
  unfold Qmax_list. revert x. induction xs as [|y xs IH]; intros x [Hv|Hv].
  - subst. apply Qle_refl.
  - destruct Hv.
  - subst. apply (Qmax_list_ge_init v (y :: xs)).
  - simpl. destruct Hv as [Hv|Hv].
    + subst. eapply Qle_trans; [|apply (Qmax_list_ge_init _ xs)].
      apply Q.le_max_r.
    + apply IH. now right.
Qed.

Lemma Qmax_cases (x y : Q) : Qmax x y = x \/ Qmax x y = y.
Proof.
  unfold Qmax, GenericMinMax.gmax. destruct (x ?= y); auto.
Qed.

Lemma Qmax_list_in (x : Q) (xs : list Q) : In (Qmax_list x xs) (x :: xs).
Proof.
  unfold Qmax_list. revert x. induction xs as [|y xs IH]; intros x.
  - now left.
  - simpl. destruct (IH (Qmax x y)) as [H|H].
    + rewrite <- H. destruct (Qmax_cases x y) as [E|E]; rewrite E; auto.
    + auto.
Qed.

Lemma window_nonempty (size : Z) : (1 <= size)%Z -> In (- (size / 2))%Z (window size).
Proof.
  intros H. unfold window. apply in_map_iff. exists 0%nat. split; [lia|].
  apply in_seq. lia.
Qed.

Lemma in_window_values (input : grid Q) (size : Z) (i j : nat) (v : Q) :
  In v (window_values input size i j) <->
  exists i' j', in_window (shape input) size i j i' j' /\ v = get 0 input i' j'.
Proof.
  unfold window_values, in_window. destruct (shape input) as [ny nx]. simpl.
  rewrite in_flat_map. split.
  - intros (di & Hdi & Hv). apply in_map_iff in Hv. destruct Hv as (dj & Hv & Hdj).
    eexists _, _. split; [|symmetry; exact Hv]. now exists di, dj.
  - intros (i' & j' & (di & dj & Hdi & Hdj & -> & ->) & ->).
    exists di. split; [exact Hdi|]. apply in_map_iff. now exists dj.
Qed.

Lemma in_window_self (sh : nat * nat) (r : Z) (i j : nat) :
  (0 <= r)%Z -> (i < fst sh)%nat -> (j < snd sh)%nat ->
  in_window sh (2 * r + 1) i j i j.
Proof.
  intros Hr Hi Hj. exists 0%Z, 0%Z.
  repeat split; try now apply window_centre.
  - symmetry. now apply reflect_in_range.
  - symmetry. now apply reflect_in_range.
Qed.

Lemma in_window_in_shape (sh : nat * nat) (size : Z) (i j i' j' : nat) :
  (i < fst sh)%nat -> (j < snd sh)%nat ->
  in_window sh size i j i' j' -> (i' < fst sh)%nat /\ (j' < snd sh)%nat.
Proof.
  intros Hi Hj (di & dj & _ & _ & -> & ->).
  split; apply reflect_lt; lia.
Qed.

Lemma in_window_size_1 (sh : nat * nat) (i j i' j' : nat) :
  (i < fst sh)%nat -> (j < snd sh)%nat ->
  in_window sh 1 i j i' j' -> i' = i /\ j' = j.
Proof.
  intros Hi Hj (di & dj & Hdi & Hdj & -> & ->).
  change (window 1) with [0%Z] in Hdi, Hdj.
  destruct Hdi as [<-|[]]. destruct Hdj as [<-|[]].
  split; now apply reflect_in_range.
Qed.

Lemma window_empty (size : Z) : (size < 1)%Z -> window size = [].
Proof.
  intros H. unfold window. replace (Z.to_nat size) with 0%nat by lia.
  reflexivity.
Qed.

(** The windowed maximum, cell by cell. *)
Lemma maximum_filter_cell (input : grid Q) (size : Z) (i j : nat) :
  (i < fst (shape input))%nat -> (j < snd (shape input))%nat ->
  window_maximum (shape input) size i j (get 0 input)
    (get 0 (maximum_filter input size) i j).
Proof.
  intros Hi Hj. unfold maximum_filter.
  rewrite get_tabulate by assumption. split.
  - intros Hsize.
    destruct (window_values input size i j) as [|v vs] eqn:E.
    + exfalso.
      assert (H : In (get 0 input
                       (reflect (fst (shape input)) (Z.of_nat i + - (size / 2)))
                       (reflect (snd (shape input)) (Z.of_nat j + - (size / 2))))
                     (window_values input size i j)).
      { apply in_window_values. eexists _, _. split; [|reflexivity].
        exists (- (size / 2))%Z, (- (size / 2))%Z.
        repeat split; now apply window_nonempty. }
      rewrite E in H. destruct H.
    + split.
      * pose proof (Qmax_list_in v vs) as Hin. rewrite <- E in Hin.
        apply in_window_values in Hin. destruct Hin as (i' & j' & Hw & Hv).
        now exists i', j'.
      * intros i' j' Hw. apply Qmax_list_ge. rewrite <- E.
        apply in_window_values. now exists i', j'.
  - intros Hsize. unfold window_values.
    destruct (shape input) as [ny nx]. now rewrite (window_empty size Hsize).
Qed.

(** The window reads [f] at cells of the array only. *)
Lemma window_maximum_ext (sh : nat * nat) (size : Z) (i j : nat)
    (f g : nat -> nat -> Q) (v : Q) :
  (i < fst sh)%nat -> (j < snd sh)%nat ->
  (forall i' j', (i' < fst sh)%nat -> (j' < snd sh)%nat -> f i' j' = g i' j') ->
  window_maximum sh size i j f v -> window_maximum sh size i j g v.
Proof.
  intros Hi Hj Hfg [Hmax Hid]. split.
  - intros Hsize. destruct (Hmax Hsize) as [(i' & j' & Hw & Hv) Hall]. split.
    + exists i', j'. split; [exact Hw|].
      destruct (in_window_in_shape _ _ _ _ _ _ Hi Hj Hw) as [Hi' Hj'].
      now rewrite <- Hfg.
    + intros i2 j2 Hw2.
      destruct (in_window_in_shape _ _ _ _ _ _ Hi Hj Hw2) as [Hi2 Hj2].
      rewrite <- Hfg by assumption. now apply Hall.
  - intros Hsize. rewrite <- Hfg by assumption. now apply Hid.
Qed.

Lemma shape_eqb_eq (s t : nat * nat) : shape_eqb s t = true -> s = t.
Proof.
  destruct s, t. unfold shape_eqb. simpl. intros H.
  apply andb_prop in H. destruct H as [H1 H2].
  apply Nat.eqb_eq in H1, H2. congruence.
Qed.

Lemma get_assign_where (a : grid Q) (cond : grid bool) (v : Q) i j :
  (i < fst (shape a))%nat -> (j < snd (shape a))%nat ->
  get 0 (assign_where a cond v) i j
    = if get false cond i j then v else get 0 a i j.
Proof. intros Hi Hj. unfold assign_where. now rewrite get_tabulate. Qed.

Lemma shape_assign_where (a : grid Q) (cond : grid bool) (v : Q) :
  (0 < fst (shape a))%nat -> shape (assign_where a cond v) = shape a.
Proof. intros H. now apply shape_tabulate. Qed.

Lemma get_grid_neqb (m : grid bool) (b : bool) i j :
  (i < fst (shape m))%nat -> (j < snd (shape m))%nat ->
  get false (grid_neqb m b) i j = negb (Bool.eqb (get false m i j) b).
Proof. intros Hi Hj. unfold grid_neqb. now rewrite get_tabulate. Qed.

Lemma get_grid_eqb (m : grid bool) (b : bool) i j :
  (i < fst (shape m))%nat -> (j < snd (shape m))%nat ->
  get false (grid_eqb m b) i j = Bool.eqb (get false m i j) b.
Proof. intros Hi Hj. unfold grid_eqb. now rewrite get_tabulate. Qed.

(** ** OccurrenceWithinVicinity *)

Section VicinityProperties.

Import OccurrenceWithinVicinity.

Context {unit_t dtype : Type}.
Variable metres : unit_t.
Variable unit_convert : unit_t -> unit_t -> option (Q -> Q).
Variable default_fillvals : dtype -> Q.
Variable uninitialised : nat -> nat -> Q.

Local Abbreviation resolve :=
  (resolve_grid_point_radius metres unit_convert).
Local Abbreviation vicinity :=
  (maximum_within_vicinity metres unit_convert default_fillvals uninitialised).
Local Abbreviation seen := (seen_from default_fillvals).

(** One pass of the land/sea loop: cells of category [b] receive the
    windowed maximum of the data restricted to that category, the others
    keep what they had. *)
Lemma land_sea_step_cell (mask : grid bool) (ud : grid Q) (fill : Q)
    (size : Z) (md r : grid Q) (b : bool) i j :
  land_sea_step mask ud fill size md b = Ok r ->
  (i < fst (shape ud))%nat -> (j < snd (shape ud))%nat ->
  shape mask = shape ud /\
  if Bool.eqb (get false mask i j) b then
    window_maximum (shape ud) size i j
      (fun i' j' => if negb (Bool.eqb (get false mask i' j') b)
                    then - fill else get 0 ud i' j')
      (get 0 r i j)
  else get 0 r i j = get 0 md i j.
Proof.
  unfold land_sea_step. intros H Hi Hj.
  destruct (shape_eqb (shape mask) (shape ud)) eqn:Hsh; [|discriminate].
  apply shape_eqb_eq in Hsh. simpl in H.
  set (matched := assign_where ud (grid_neqb mask b) (- fill)) in H.
  injection H as <-.
  assert (Hms : shape matched = shape ud).
  { apply shape_assign_where. lia. }
  assert (Hm : forall i' j', (i' < fst (shape ud))%nat -> (j' < snd (shape ud))%nat ->
            get 0 matched i' j' =
              if negb (Bool.eqb (get false mask i' j') b)
              then - fill else get 0 ud i' j').
  { intros i' j' Hi' Hj'. unfold matched.
    rewrite get_assign_where by assumption.
    rewrite get_grid_neqb by (rewrite Hsh; assumption). reflexivity. }
  split; [exact Hsh|].
  assert (Hes : shape (grid_eqb mask b) = shape ud).
  { unfold grid_eqb. rewrite shape_tabulate; [exact Hsh | rewrite Hsh; lia]. }
  unfold np_where. rewrite get_tabulate by (rewrite Hes; assumption).
  rewrite get_grid_eqb by (rewrite Hsh; assumption).
  destruct (Bool.eqb (get false mask i j) b); [|reflexivity].
  apply (window_maximum_ext _ _ _ _ (get 0 matched)); try assumption.
  rewrite <- Hms. apply maximum_filter_cell; rewrite Hms; assumption.
Qed.

(** The array [unmasked_cube_data] of the source. *)
Lemma unmasked_cube_data_cell (cube : Cube2D unit_t dtype) (fill : Q) i j :
  (i < fst (cube_shape cube))%nat -> (j < snd (cube_shape cube))%nat ->
  let data := c_data cube in
  let ud := if is_masked data
            then assign_where (ma_data data) (ma_mask data) (- fill)
            else ma_data data in
  shape ud = cube_shape cube
  /\ get 0 ud i j = if masked_at cube i j then - fill else value_at cube i j.
Proof.
  intros Hi Hj data ud. unfold cube_shape, masked_at, value_at in *.
  fold data in Hi, Hj |- *. subst ud.
  destruct (is_masked data) eqn:Hm.
  - split.
    + apply shape_assign_where. lia.
    + now apply get_assign_where.
  - split; [reflexivity|]. now rewrite (not_masked_get data i j Hm).
Qed.

(** The array [max_data] of the source, cell by cell: the maximum over the
    window of what [seen_from] reads. *)
Lemma max_data_cell (self : t unit_t dtype) (cube : Cube2D unit_t dtype)
    (ud max_data : grid Q) (size : Z) i j :
  let fill := default_fillvals (c_dtype cube) in
  match land_mask self with
  | Some mask =>
      md ← land_sea_step mask ud fill size
             (np_empty_like uninitialised (ma_data (c_data cube))) true;
      land_sea_step mask ud fill size md false
  | None => Ok (maximum_filter ud size)
  end = Ok max_data ->
  (i < fst (cube_shape cube))%nat -> (j < snd (cube_shape cube))%nat ->
  shape ud = cube_shape cube ->
  (forall i' j', (i' < fst (cube_shape cube))%nat ->
                 (j' < snd (cube_shape cube))%nat ->
     get 0 ud i' j' = if masked_at cube i' j' then - fill else value_at cube i' j') ->
  window_maximum (cube_shape cube) size i j (seen self cube i j)
    (get 0 max_data i j).
Proof.
  intros fill Hrun Hi Hj Hsh Hud. unfold seen_from. fold fill.
  destruct (land_mask self) as [mask|].
  - destruct (land_sea_step mask ud fill size _ true) as [md1|] eqn:H1;
      [|discriminate].
    simpl in Hrun. rewrite <- Hsh in Hi, Hj.
    pose proof (land_sea_step_cell _ _ _ _ _ _ _ i j H1 Hi Hj) as (_ & C1).
    pose proof (land_sea_step_cell _ _ _ _ _ _ _ i j Hrun Hi Hj) as (_ & C2).
    rewrite Hsh in Hi, Hj, C1, C2.
    assert (Hcell : forall b, get false mask i j = b ->
              window_maximum (cube_shape cube) size i j
                (fun i' j' => if negb (Bool.eqb (get false mask i' j') b)
                              then - fill else get 0 ud i' j')
                (get 0 max_data i j)).
    { intros b Hb. rewrite Hb in C1, C2. destruct b; simpl in C1, C2.
      - (* land cell: set by the first pass, kept by the second *)
        rewrite C2. exact C1.
      - (* sea cell: set by the second pass *)
        exact C2. }
    refine (window_maximum_ext _ _ _ _ _ _ _ Hi Hj _ (Hcell _ eq_refl)).
    intros i' j' Hi' Hj'. cbv beta. now rewrite (Hud i' j' Hi' Hj').
  - injection Hrun as <-.
    apply (window_maximum_ext _ _ _ _ (get 0 ud)); try assumption.
    rewrite <- Hsh. apply maximum_filter_cell; rewrite Hsh; assumption.
Qed.

(** [maximum_within_vicinity], cell by cell.  At every unmasked cell the
    returned value is the maximum, over the window of edge [2 r + 1], of
    what [seen_from] reads. *)
Lemma vicinity_cell (self : t unit_t dtype) (cube out : Cube2D unit_t dtype) :
  vicinity self cube = Ok out ->
  exists r, resolve self cube = Ok r /\
  forall i j,
    (i < fst (cube_shape cube))%nat -> (j < snd (cube_shape cube))%nat ->
    masked_at cube i j = false ->
    window_maximum (cube_shape cube) (2 * r + 1) i j (seen self cube i j)
      (value_at out i j).
Proof.
  unfold maximum_within_vicinity. intros H.
  destruct (resolve self cube) as [r|] eqn:Hr; [|discriminate].
  simpl in H. exists r. split; [reflexivity|].
  match type of H with
  | context [mbind _ ?e] => destruct e as [max_data|] eqn:Hmd; [|discriminate]
  end.
  simpl in H.
  intros i j Hi Hj Hunmasked.
  destruct (unmasked_cube_data_cell cube (default_fillvals (c_dtype cube))
              i j Hi Hj) as [Hsh _].
  cbv zeta in Hsh.
  assert (Hud := fun i' j' Hi' Hj' =>
            proj2 (unmasked_cube_data_cell cube
                     (default_fillvals (c_dtype cube)) i' j' Hi' Hj')).
  cbv zeta in Hud.
  pose proof (max_data_cell self cube _ max_data _ i j Hmd Hi Hj Hsh Hud)
    as Hcell.
  assert (Hout : value_at out i j = get 0 max_data i j).
  { unfold value_at, masked_at, cube_shape in *.
    destruct (is_masked (c_data cube)); injection H as <-; simpl.
    - unfold assign_where_from. rewrite get_tabulate by assumption.
      unfold grid_not. rewrite get_tabulate by assumption.
      now rewrite Hunmasked.
    - reflexivity. }
  rewrite Hout. exact Hcell.
Qed.

(** Whenever the radius resolves, [maximum_within_vicinity] returns (the
    land mask, when there is one, having the shape of the data). *)
Lemma vicinity_returns (self : t unit_t dtype) (cube : Cube2D unit_t dtype) r :
  resolve self cube = Ok r ->
  (0 < fst (cube_shape cube))%nat ->
  (forall mask, land_mask self = Some mask -> shape mask = cube_shape cube) ->
  exists out, vicinity self cube = Ok out.
Proof.
  intros Hr Hny Hmask. unfold maximum_within_vicinity. rewrite Hr. simpl.
  set (fill := default_fillvals (c_dtype cube)).
  set (ud := if is_masked (c_data cube) then _ else _).
  assert (Hsh : shape ud = cube_shape cube).
  { subst ud. unfold cube_shape in *. destruct (is_masked (c_data cube)).
    - now apply shape_assign_where.
    - reflexivity. }
  assert (Hstep : forall mask md b, shape mask = cube_shape cube ->
            exists r', land_sea_step mask ud fill (2 * r + 1) md b = Ok r').
  { intros mask md b Hm. unfold land_sea_step. rewrite Hm, Hsh.
    assert (shape_eqb (cube_shape cube) (cube_shape cube) = true) as ->.
    { unfold shape_eqb. now rewrite !Nat.eqb_refl. }
    simpl. eauto. }
  assert (Hmd : exists max_data,
            match land_mask self with
            | Some mask =>
                md ← land_sea_step mask ud fill (2 * r + 1)
                       (np_empty_like uninitialised (ma_data (c_data cube))) true;
                land_sea_step mask ud fill (2 * r + 1) md false
            | None => Ok (maximum_filter ud (2 * r + 1))
            end = Ok max_data).
  { destruct (land_mask self) as [mask|].
    - destruct (Hstep mask (np_empty_like uninitialised (ma_data (c_data cube)))
                  true (Hmask mask eq_refl)) as [md1 ->].
      simpl. apply Hstep. now apply Hmask.
    - eauto. }
  destruct Hmd as [max_data ->]. simpl.
  destruct (is_masked (c_data cube)); eauto.
Qed.

Lemma seen_same (self : t unit_t dtype) (cube : Cube2D unit_t dtype) i j i' j' :
  same_category self i j i' j' -> masked_at cube i' j' = false ->
  seen self cube i j i' j' = value_at cube i' j'.
Proof.
  unfold same_category, seen_from. intros Hsame ->.
  destruct (land_mask self) as [land|]; [|reflexivity].
  rewrite Hsame, Bool.eqb_reflx. reflexivity.
Qed.

Lemma seen_cases (self : t unit_t dtype) (cube : Cube2D unit_t dtype) i j i' j' :
  (same_category self i j i' j' /\ masked_at cube i' j' = false
   /\ seen self cube i j i' j' = value_at cube i' j')
  \/ ((~ same_category self i j i' j' \/ masked_at cube i' j' = true)
      /\ seen self cube i j i' j' = - default_fillvals (c_dtype cube)).
Proof.
  unfold same_category, seen_from.
  destruct (land_mask self) as [land|].
  - destruct (Bool.eqb (get false land i' j') (get false land i j)) eqn:E; simpl.
    + apply Bool.eqb_prop in E.
      destruct (masked_at cube i' j'); [right | left]; auto.
    + right. split; [|reflexivity]. left. intros H. rewrite H in E.
      now rewrite Bool.eqb_reflx in E.
  - destruct (masked_at cube i' j'); [right | left]; auto.
Qed.

Lemma same_category_refl (self : t unit_t dtype) i j : same_category self i j i j.
Proof. unfold same_category. now destruct (land_mask self). Qed.

(** Whenever [maximum_within_vicinity] returns, the radius has
    resolved to a number [r] of grid cells, and at every unmasked cell
    [(i, j)], for [r] not negative: the value [v] returned bounds the
    value of every unmasked cell of the same land/sea category under the
    window of edge [2 r + 1]; and [v] is either the value of such a cell,
    or the sentinel [- cube_fill_value] that stands for a masked or
    other-category cell under the window.  So [v] is never the value of a
    cell read across the land/sea boundary.  Without a land mask all cells
    are of one category: the maximum is over every unmasked cell of the
    window.  (For a negative [r] nothing is filtered.)  The sentinel is
    below the data when the fill value is positive and large, as it is for
    floats; it is not for signed integers. *)
Lemma land_sea_separation_up_to_the_sentinel (self : t unit_t dtype)
    (cube out : Cube2D unit_t dtype) :
  vicinity self cube = Ok out ->
  exists r, resolve self cube = Ok r /\
  forall i j,
    (i < fst (cube_shape cube))%nat -> (j < snd (cube_shape cube))%nat ->
    masked_at cube i j = false ->
    ((0 <= r)%Z -> vicinity_maximum_at default_fillvals self cube out r i j)
    /\ ((r < 0)%Z -> value_at out i j = value_at cube i j).
Proof.
  intros H. destruct (vicinity_cell self cube out H) as (r & Hr & Hcell).
  exists r. split; [exact Hr|].
  intros i j Hi Hj Hm.
  destruct (Hcell i j Hi Hj Hm) as [Hmax Hid]. split.
  - intros Hpos.
    destruct Hmax as [(i' & j' & Hw & Hv) Hall]; [lia|].
    assert (Hbound : forall i2 j2,
              in_window (cube_shape cube) (2 * r + 1) i j i2 j2 ->
              same_category self i j i2 j2 -> masked_at cube i2 j2 = false ->
              value_at cube i2 j2 <= value_at out i j).
    { intros i2 j2 Hw2 Hsame Hm2.
      rewrite <- (seen_same self cube i j i2 j2 Hsame Hm2). now apply Hall. }
    assert (Hself : in_window (cube_shape cube) (2 * r + 1) i j i j)
      by now apply in_window_self.
    split; [exact Hbound|].
    destruct (seen_cases self cube i j i' j') as [(Hs & Hm' & E)|[Hother E]].
    + split.
      * left. exists i', j'. repeat split; try assumption. now rewrite Hv.
      * intros _. exists i', j'. repeat split; try assumption.
        rewrite Hv, E. reflexivity.
    + split.
      * right. split; [now rewrite Hv|]. now exists i', j'.
      * intros Hsent. exists i, j.
        split; [exact Hself|]. split; [apply same_category_refl|].
        split; [exact Hm|].
        apply Qle_antisym.
        -- rewrite Hv, E. exact Hsent.
        -- apply Hbound; [exact Hself | apply same_category_refl | exact Hm].
  - intros Hneg. rewrite Hid by lia.
    now apply seen_same; [apply same_category_refl|].
Qed.

(** C9.  Whenever [maximum_within_vicinity] returns, with or without a land
    mask and whatever the radius, the value at every unmasked cell is at
    least the input value of that cell; and it does return whenever the
    radius resolves (the land mask, when there is one, having the shape of
    the data). *)
Theorem C9_vicinity_maximum_extensive (self : t unit_t dtype)
    (cube : Cube2D unit_t dtype) :
  (forall out, vicinity self cube = Ok out ->
     forall i j,
       (i < fst (cube_shape cube))%nat -> (j < snd (cube_shape cube))%nat ->
       masked_at cube i j = false ->
       value_at cube i j <= value_at out i j)
  /\ (forall r, resolve self cube = Ok r ->
        (0 < fst (cube_shape cube))%nat ->
        (forall mask, land_mask self = Some mask ->
                      shape mask = cube_shape cube) ->
        exists out, vicinity self cube = Ok out).
Proof.
  split.
  - intros out H i j Hi Hj Hm.
    destruct (vicinity_cell self cube out H) as (r & Hr & Hcell).
    destruct (Hcell i j Hi Hj Hm) as [Hmax Hid].
    rewrite <- (seen_same self cube i j i j (same_category_refl self i j) Hm).
    destruct (Z.le_gt_cases 0 r) as [Hpos|Hneg].
    + destruct Hmax as [_ Hall]; [lia|].
      apply Hall. now apply in_window_self.
    + rewrite Hid by lia. apply Qle_refl.
  - intros r. apply vicinity_returns.
Qed.

(** C7.  When neither a radius nor a grid-point radius is configured the
    radius resolves to 0 grid cells; and whenever the radius resolves to 0,
    [maximum_within_vicinity] returns (the land mask, when there is one,
    having the shape of the data) a cube whose value at every unmasked cell
    is the input value of that cell. *)
Theorem C7_zero_radius_identity (self : t unit_t dtype)
    (cube : Cube2D unit_t dtype) :
  (radius self = None -> grid_point_radius self = None ->
   resolve self cube = Ok 0%Z)
  /\ (resolve self cube = Ok 0%Z ->
      (forall out, vicinity self cube = Ok out ->
         forall i j,
           (i < fst (cube_shape cube))%nat -> (j < snd (cube_shape cube))%nat ->
           masked_at cube i j = false ->
           value_at out i j = value_at cube i j)
      /\ ((0 < fst (cube_shape cube))%nat ->
          (forall mask, land_mask self = Some mask ->
                        shape mask = cube_shape cube) ->
          exists out, vicinity self cube = Ok out)).
Proof.
  split.
  - intros Hr Hg. unfold resolve_grid_point_radius. now rewrite Hr, Hg.
  - intros Hres. split.
    + intros out H i j Hi Hj Hm.
      destruct (vicinity_cell self cube out H) as (r & Hr & Hcell).
      rewrite Hres in Hr. injection Hr as <-.
      destruct (Hcell i j Hi Hj Hm) as [Hmax _].
      destruct Hmax as [(i' & j' & Hw & Hv) _]; [lia|].
      change (2 * 0 + 1)%Z with 1%Z in Hw.
      destruct (in_window_size_1 _ _ _ _ _ Hi Hj Hw) as [-> ->].
      rewrite Hv.
      now apply seen_same; [apply same_category_refl|].
    + intros Hny Hmask. now apply (vicinity_returns self cube 0%Z).
Qed.

End VicinityProperties.

(** ** CollapseMaskedNeighbourhoodCoordinate: the weights *)

Section ReweightProperties.

Import CollapseMaskedNeighbourhoodCoordinate.













End ReweightProperties.

(** ** The store *)

Section StoreLaws.

Context {O : Type}.



Lemma bind_inv {A B} (f : A -> M O B) (m : M O A) (σ σ'' : gmap loc O) b :
  (m ≫= f) σ = Ok (b, σ'') ->
  exists a σ', m σ = Ok (a, σ') /\ f a σ' = Ok (b, σ'').
Proof.
  unfold mbind, M_bind. destruct (m σ) as [[a σ']|]; [|discriminate].
  intros H. now exists a, σ'.
Qed.

Lemma load_inv (l : loc) (σ σ' : gmap loc O) o :
  load l σ = Ok (o, σ') -> σ !! l = Some o /\ σ' = σ.
Proof.
  unfold load. destruct (σ !! l); [|discriminate].
  intros [= <- <-]. auto.
Qed.

Lemma lift_inv {A} (r : result A) (σ σ' : gmap loc O) a :
  lift r σ = Ok (a, σ') -> r = Ok a /\ σ' = σ.
Proof.
  unfold lift. destruct r; [|discriminate]. intros [= <- <-]. auto.
Qed.

Lemma new_inv (o : O) (σ σ' : gmap loc O) l :
  new o σ = Ok (l, σ') -> σ !! l = None /\ σ' = <[l := o]> σ.
Proof.
  unfold new. intros [= <- <-]. split; [|reflexivity].
  apply not_elem_of_dom. apply is_fresh.
Qed.

End StoreLaws.

Section ReweightStore.

Import CollapseMaskedNeighbourhoodCoordinate.


End ReweightStore.

(** ** CollapseMaskedNeighbourhoodCoordinate: the method [process] *)

Ltac bind_step H a s Ha :=
  apply bind_inv in H; destruct H as (a & s & Ha & H); cbv beta in H.

Section CollapseProperties.

Import CollapseMaskedNeighbourhoodCoordinate.

Variable collapsed : Cube -> string -> weights_arg -> result Cube.
Variable merge_cube : list Cube -> result Cube.
Variable check_cube_coordinates : Cube -> Cube -> result Cube.

Local Abbreviation run :=
  (process collapsed merge_cube check_cube_coordinates).

(** [reweight_weights] writes the weights cube, and nothing else. *)
Lemma reweight_weights_frame (self : t) (nbhood_cube : Cube)
    (σ σ' : gmap loc Cube) u :
  reweight_weights self nbhood_cube σ = Ok (u, σ') ->
  exists wl w a',
    weights self = ACube wl /\ σ !! wl = Some w
    /\ σ' = <[wl := with_data w a']> σ.
Proof.
  unfold reweight_weights. destruct (weights self) as [?|wl]; [discriminate|].
  intros H. bind_step H w σ1 Hw. apply load_inv in Hw. destruct Hw as [Hw ->].
  destruct (negb (bool_decide _)); [discriminate|].
  bind_step H u1 σ2 Hu. injection Hu as _ <-.
  destruct (negb (has_coord _ _)); [discriminate|].
  bind_step H w1 σ3 Hw1. apply load_inv in Hw1. destruct Hw1 as [Hw1 ->].
  rewrite lookup_insert_eq in Hw1. injection Hw1 as <-.
  injection H as _ <-. rewrite insert_insert_eq.
  exists wl, w. eexists. split; [reflexivity|]. split; [exact Hw|].
  reflexivity.
Qed.

Lemma remove_coord_spec (c r : Cube) (name : string) :
  remove_coord c name = Ok r ->
  ~ In name (cube_coords r) /\ cube_cell_methods r = cube_cell_methods c.
Proof.
  unfold remove_coord.
  destruct (filter (fun n => n = name) (cube_coords c)) as [|? [|? ?]];
    try discriminate.
  intros [= <-]. simpl. split; [|reflexivity].
  intros Hin. apply list_elem_of_In, list_elem_of_filter in Hin.
  now destruct Hin.
Qed.

(** What a returning call of [process] has done, step by step. *)
Lemma process_inv (self : t) (cube out : loc) (σ σ' : gmap loc Cube) :
  run self cube σ = Ok (out, σ') ->
  exists c σ1 r,
    σ !! cube = Some c
    /\ σ1 !! out = None
    /\ σ' = <[out := r]> σ1
    /\ ~ In (coord_masked self) (cube_coords r)
    /\ (forall cm, In cm (cube_cell_methods r) ->
                   cm_coord_names cm <> [coord_masked self])
    /\ let σ0 := <[cube := with_data c (masked_invalid (cube_data c))]> σ in
       match weights self with
       | NotACube _ => σ1 = σ0
       | ACube wl =>
           exists w a', σ0 !! wl = Some w /\ σ1 = <[wl := with_data w a']> σ0
       end.
Proof.
  unfold process. intros H.
  remember (weights self) as wts eqn:Hself.
  bind_step H c σa Hc. apply load_inv in Hc. destruct Hc as [Hc ->].
  bind_step H u σb Hu. injection Hu as _ <-.
  bind_step H ws σ1 Hws.
  bind_step H c1 σc Hc1. apply load_inv in Hc1. destruct Hc1 as [Hc1 ->].
  bind_step H cubelist σd Hl. apply lift_inv in Hl. destruct Hl as [_ ->].
  bind_step H merged σe Hm. apply lift_inv in Hm. destruct Hm as [_ ->].
  bind_step H fslice σf Hf. apply lift_inv in Hf. destruct Hf as [_ ->].
  bind_step H checked σg Hk. apply lift_inv in Hk. destruct Hk as [_ ->].
  bind_step H removed σh Hr. apply lift_inv in Hr. destruct Hr as [Hr ->].
  apply new_inv in H. destruct H as [Hfresh ->].
  destruct (remove_coord_spec _ _ _ Hr) as [Hnotin _].
  exists c, σ1. eexists. split; [exact Hc|]. split; [exact Hfresh|].
  split; [reflexivity|]. split; [exact Hnotin|]. split.
  - simpl. intros cm Hin.
    apply list_elem_of_In, list_elem_of_filter in Hin. now destruct Hin.
  - cbv zeta. destruct wts as [wa|wl].
    + injection Hws as _ <-. reflexivity.
    + bind_step Hws w σi Hw. apply load_inv in Hw. destruct Hw as [Hw ->].
      bind_step Hws c2 σj Hc2. apply load_inv in Hc2. destruct Hc2 as [_ ->].
      bind_step Hws u2 σk Hrw.
      bind_step Hws w2 σl Hw2. apply load_inv in Hw2. destruct Hw2 as [_ ->].
      injection Hws as _ <-.
      assert (Hframe : exists wl' w' a',
                weights self = ACube wl' /\
                <[cube := with_data c (masked_invalid (cube_data c))]> σ !! wl'
                  = Some w' /\
                σk = <[wl' := with_data w' a']>
                       (<[cube := with_data c (masked_invalid (cube_data c))]> σ)).
      { destruct (negb (bool_decide _)).
        - bind_step Hrw fs σm Hfs. apply lift_inv in Hfs.
          destruct Hfs as [_ ->].
          exact (reweight_weights_frame _ _ _ _ _ Hrw).
        - exact (reweight_weights_frame _ _ _ _ _ Hrw). }
      destruct Hframe as (wl' & w' & a' & Hself' & Hw' & ->).
      rewrite <- Hself in Hself'. injection Hself' as <-.
      now exists w', a'.
Qed.

(** C8.  Whenever [process] returns, the cube it returns has no coordinate
    named [coord_masked], and none of its cell methods has the coordinate
    list made of that single name. *)
Theorem C8_collapse_removes_masking_coordinate (self : t) (cube out : loc)
    (σ σ' : gmap loc Cube) :
  run self cube σ = Ok (out, σ') ->
  exists r,
    σ' !! out = Some r
    /\ ~ In (coord_masked self) (cube_coords r)
    /\ forall cm, In cm (cube_cell_methods r) ->
                  cm_coord_names cm <> [coord_masked self].
Proof.
  intros H.
  destruct (process_inv self cube out σ σ' H)
    as (c & σ1 & r & _ & _ & -> & Hcoords & Hcm & _).
  exists r. split; [apply lookup_insert_eq|]. now split.
Qed.

Lemma insert_lookup_None (m : gmap loc Cube) (l l' : loc) (x : Cube) :
  <[l := x]> m !! l' = None -> l <> l' /\ m !! l' = None.
Proof.
  intros H. destruct (decide (l = l')) as [->|Hne].
  - rewrite lookup_insert_eq in H. discriminate.
  - split; [exact Hne|]. now rewrite lookup_insert_ne in H.
Qed.

(** The effect of [process] on the store: the result is a new object; the
    data of the input cube is replaced by its [masked_invalid]; the weights
    cube, if any, is written; every other object is as it was. *)
Lemma collapse_process_frame (self : t) (cube out : loc)
    (σ σ' : gmap loc Cube) :
  run self cube σ = Ok (out, σ') ->
  exists c,
    σ !! cube = Some c
    /\ σ !! out = None
    /\ is_Some (σ' !! out)
    /\ (weights self <> ACube cube ->
        σ' !! cube = Some (with_data c (masked_invalid (cube_data c))))
    /\ (forall l, l <> cube -> l <> out -> weights self <> ACube l ->
                  σ' !! l = σ !! l).
Proof.
  intros H.
  destruct (process_inv self cube out σ σ' H)
    as (c & σ1 & r & Hc & Hfresh & -> & _ & _ & Hσ1).
  cbv zeta in Hσ1. exists c. split; [exact Hc|].
  destruct (weights self) as [wa|wl].
  - subst σ1. apply insert_lookup_None in Hfresh. destruct Hfresh as [Hne Hnone].
    split; [exact Hnone|]. split; [rewrite lookup_insert_eq; eauto|]. split.
    + intros _. rewrite lookup_insert_ne by congruence.
      apply lookup_insert_eq.
    + intros l Hl Hlo _. rewrite !lookup_insert_ne by congruence. reflexivity.
  - destruct Hσ1 as (w & a' & Hw & ->).
    apply insert_lookup_None in Hfresh. destruct Hfresh as [Hne1 Hfresh].
    apply insert_lookup_None in Hfresh. destruct Hfresh as [Hne2 Hnone].
    split; [exact Hnone|]. split; [rewrite lookup_insert_eq; eauto|]. split.
    + intros Hw'. rewrite !lookup_insert_ne by congruence.
      apply lookup_insert_eq.
    + intros l Hl Hlo Hlw. rewrite !lookup_insert_ne by congruence.
      reflexivity.
Qed.

End CollapseProperties.

(** ** What the transforms do to the store *)

Lemma new_object_frame {O} (o : O) (σ σ' : gmap loc O) (out : loc) :
  new o σ = Ok (out, σ') ->
  σ !! out = None /\ σ' !! out = Some o
  /\ forall l, l <> out -> σ' !! l = σ !! l.
Proof.
  intros H. apply new_inv in H. destruct H as [Hfresh ->].
  split; [exact Hfresh|]. split; [apply lookup_insert_eq|].
  intros l Hl. now rewrite lookup_insert_ne.
Qed.

Section FrameProperties.

Context {unit_t dtype : Type}.
Variable metres : unit_t.
Variable unit_convert : unit_t -> unit_t -> option (Q -> Q).
Variable default_fillvals : dtype -> Q.
Variable uninitialised : nat -> nat -> Q.
Variable spatial_coords_match : GridCube unit_t -> GridCube unit_t -> bool.
Variable v_merge_cube :
  list (OccurrenceWithinVicinity.Cube2D unit_t dtype) ->
  result (OccurrenceWithinVicinity.Cube unit_t dtype).
Variable v_check_cube_coordinates :
  OccurrenceWithinVicinity.Cube unit_t dtype ->
  OccurrenceWithinVicinity.Cube unit_t dtype ->
  result (OccurrenceWithinVicinity.Cube unit_t dtype).

Variable collapsed :
  CollapseMaskedNeighbourhoodCoordinate.Cube -> string ->
  CollapseMaskedNeighbourhoodCoordinate.weights_arg ->
  result CollapseMaskedNeighbourhoodCoordinate.Cube.
Variable merge_cube :
  list CollapseMaskedNeighbourhoodCoordinate.Cube ->
  result CollapseMaskedNeighbourhoodCoordinate.Cube.
Variable check_cube_coordinates :
  CollapseMaskedNeighbourhoodCoordinate.Cube ->
  CollapseMaskedNeighbourhoodCoordinate.Cube ->
  result CollapseMaskedNeighbourhoodCoordinate.Cube.

Variable ACube : Type.
Variable ACoord : Type.
Variable axis_name : ACube -> axis -> result string.
Variable a_slices : ACube -> list string -> list ACube.
Variable a_slices_over : ACube -> string -> list ACube.
Variable neighbourhood_processing :
  ApplyNeighbourhoodProcessingWithAMask.t -> ACube -> ACube -> result ACube.
Variable coord_copy : ACube -> string -> result ACoord.
Variable add_aux_coord : ACube -> ACoord -> result ACube.
Variable new_axis : ACube -> string -> result ACube.
Variable concatenate_cube : list ACube -> result ACube.
Variable a_merge_cube : list ACube -> result ACube.
Variable find_dimension_coordinate_mismatch :
  ACube -> ACube -> bool -> list string.
Variable a_check_cube_coordinates :
  ACube -> ACube -> list string -> result ACube.

Local Abbreviation vicinity_process :=
  (OccurrenceWithinVicinity.process metres unit_convert default_fillvals
     uninitialised spatial_coords_match v_merge_cube
     v_check_cube_coordinates).
Local Abbreviation apply_process :=
  (ApplyNeighbourhoodProcessingWithAMask.process ACube ACoord axis_name
     a_slices a_slices_over neighbourhood_processing coord_copy add_aux_coord
     new_axis concatenate_cube a_merge_cube
     find_dimension_coordinate_mismatch a_check_cube_coordinates).
Local Abbreviation collapse_process :=
  (CollapseMaskedNeighbourhoodCoordinate.process collapsed merge_cube
     check_cube_coordinates).

Lemma vicinity_process_frame self cube out
    (σ σ' : gmap loc (OccurrenceWithinVicinity.Cube unit_t dtype)) :
  vicinity_process self cube σ = Ok (out, σ') ->
  σ !! out = None /\ is_Some (σ' !! out)
  /\ forall l, l <> out -> σ' !! l = σ !! l.
Proof.
  unfold OccurrenceWithinVicinity.process. intros H.
  bind_step H c σ1 Hc. apply load_inv in Hc. destruct Hc as [_ ->].
  bind_step H u σ2 Hu. apply lift_inv in Hu. destruct Hu as [_ ->].
  bind_step H mc σ3 Hm. apply lift_inv in Hm. destruct Hm as [_ ->].
  bind_step H r σ4 Hr. apply lift_inv in Hr. destruct Hr as [_ ->].
  bind_step H r' σ5 Hr'. apply lift_inv in Hr'. destruct Hr' as [_ ->].
  apply new_object_frame in H. destruct H as (Hf & Ho & Hrest).
  split; [exact Hf|]. split; [eauto | exact Hrest].
Qed.

Lemma apply_process_frame self cube mask_cube out (σ σ' : gmap loc ACube) :
  apply_process self cube mask_cube σ = Ok (out, σ') ->
  σ !! out = None /\ is_Some (σ' !! out)
  /\ forall l, l <> out -> σ' !! l = σ !! l.
Proof.
  unfold ApplyNeighbourhoodProcessingWithAMask.process. intros H.
  bind_step H c σ1 Hc. apply load_inv in Hc. destruct Hc as [_ ->].
  bind_step H mc σ2 Hmc. apply load_inv in Hmc. destruct Hmc as [_ ->].
  bind_step H yn σ3 Hy. apply lift_inv in Hy. destruct Hy as [_ ->].
  bind_step H xn σ4 Hx. apply lift_inv in Hx. destruct Hx as [_ ->].
  bind_step H rs σ5 Hrs. apply lift_inv in Hrs. destruct Hrs as [_ ->].
  bind_step H r σ6 Hr. apply lift_inv in Hr. destruct Hr as [_ ->].
  bind_step H r' σ7 Hr'. apply lift_inv in Hr'. destruct Hr' as [_ ->].
  apply new_object_frame in H. destruct H as (Hf & Ho & Hrest).
  split; [exact Hf|]. split; [eauto | exact Hrest].
Qed.

(** C1 (amended).  Whenever they return, [OccurrenceWithinVicinity.process]
    and [ApplyNeighbourhoodProcessingWithAMask.process] return a new cube
    and leave every cube of the store, the input among them, as it was.
    [CollapseMaskedNeighbourhoodCoordinate.process] returns a new cube too,
    but replaces the data of its input cube by the [masked_invalid] of that
    data (the values are kept, the elements that are not finite become
    masked); it leaves as they were all cubes but the input and the weights
    cube. *)
Theorem C1_transforms_and_their_input :
  (forall self cube out
          (σ σ' : gmap loc (OccurrenceWithinVicinity.Cube unit_t dtype)),
     vicinity_process self cube σ = Ok (out, σ') ->
     σ !! out = None /\ is_Some (σ' !! out)
     /\ forall l, l <> out -> σ' !! l = σ !! l)
  /\ (forall self cube mask_cube out (σ σ' : gmap loc ACube),
        apply_process self cube mask_cube σ = Ok (out, σ') ->
        σ !! out = None /\ is_Some (σ' !! out)
        /\ forall l, l <> out -> σ' !! l = σ !! l)
  /\ (forall self cube out
             (σ σ' : gmap loc CollapseMaskedNeighbourhoodCoordinate.Cube),
        collapse_process self cube σ = Ok (out, σ') ->
        exists c,
          σ !! cube = Some c
          /\ σ !! out = None /\ is_Some (σ' !! out)
          /\ (CollapseMaskedNeighbourhoodCoordinate.weights self
                <> CollapseMaskedNeighbourhoodCoordinate.ACube cube ->
              σ' !! cube =
                Some (CollapseMaskedNeighbourhoodCoordinate.with_data c
                        (CollapseMaskedNeighbourhoodCoordinate.masked_invalid
                           (CollapseMaskedNeighbourhoodCoordinate.cube_data c))))
          /\ (forall l, l <> cube -> l <> out ->
                CollapseMaskedNeighbourhoodCoordinate.weights self
                  <> CollapseMaskedNeighbourhoodCoordinate.ACube l ->
                σ' !! l = σ !! l)).
Proof.
  split; [|split].
  - intros self cube out σ σ'. apply vicinity_process_frame.
  - intros self cube mask_cube out σ σ'. apply apply_process_frame.
  - intros self cube out σ σ'. apply collapse_process_frame.
Qed.

End FrameProperties.

(** * The properties at concrete inputs *)

Section ExampleRuns.

Import Examples.

(** Land/sea separation (spec, testable property 4): with the land mask the
    hot sea cell does not reach the land cells, without it it does. *)
Example hot_cell_stays_at_sea :
  ma_data <$> (OccurrenceWithinVicinity.c_data
                 <$> match vicinity with_land_mask hot_sea_cell with
                     | Ok c => Some c | Raise _ => None end)
  = Some [[0; 0; 1; 1]; [0; 0; 1; 1]; [0; 0; 1; 1]; [0; 0; 0; 0]].
Proof. vm_compute. reflexivity. Qed.

Example hot_cell_spreads_without_mask :
  ma_data <$> (OccurrenceWithinVicinity.c_data
                 <$> match vicinity without_land_mask hot_sea_cell with
                     | Ok c => Some c | Raise _ => None end)
  = Some [[0; 1; 1; 1]; [0; 1; 1; 1]; [0; 1; 1; 1]; [0; 0; 0; 0]].
Proof. vm_compute. reflexivity. Qed.

(** The axis of [grid_2km] has spacing 2000 m. *)
Lemma grid_2km_spacing (ax : axis) :
  calculate_grid_spacing convert_metres grid_2km tt ax default_rtol
  = Ok (f_fin (6000 / 3)).
Proof. destruct ax; vm_compute; reflexivity. Qed.

Lemma C4_calculate_grid_spacing_witness :
  convert_units convert_metres (cube_coord grid_2km X) tt
    = Ok (coord_2km "projection_x_coordinate")
  /\ exists m,
       calculate_grid_spacing convert_metres grid_2km tt X default_rtol
         = Ok (f_fin m)
       /\ m == 2000.
Proof.
  split; [reflexivity|].
  destruct (C4_calculate_grid_spacing convert_metres grid_2km tt X
              default_rtol (coord_2km "projection_x_coordinate") eq_refl)
    as [H _].
  destruct (H 2000) as (m & Hm & _ & E).
  - vm_compute. discriminate.
  - discriminate.
  - repeat (constructor; [vm_compute; reflexivity|]). constructor.
  - exists m. split; assumption.
Defined.


(** A distance of 5999.9999 m over cells of 2000 m: the exact quotient,
    2.99999995, truncates to 2; rounded to 3 by the division, it truncates
    to 3. *)
Example rounded_quotient_reaches_the_next_cell :
  Rounding.distance_to_number_of_grid_cells rounding_divide tt convert_metres
    grid_2km (59999999 # 10000) X true = Ok (IntCells 3)
  /\ distance_to_number_of_grid_cells tt convert_metres grid_2km
       (59999999 # 10000) X true = Ok (IntCells 2).
Proof. split; vm_compute; reflexivity. Qed.

Lemma C10_float_cells_never_zero_extent_witness :
  distance_to_number_of_grid_cells tt convert_metres grid_2km 500 X false
    = Ok (FloatCells (f_fin (500 / Qabs (6000 / 3))))
  /\ (distance_to_number_of_grid_cells tt convert_metres grid_2km 500 X true
        = Raise ZeroCellExtent
      /\ true = true).
Proof.
  destruct (C10_float_cells_never_zero_extent tt convert_metres grid_2km
              500 X) as [Hfloat Honly].
  split.
  - apply Hfloat.
    + reflexivity.
    + apply grid_2km_spacing.
    + vm_compute. discriminate.
  - assert (Hraise : distance_to_number_of_grid_cells tt convert_metres
                       grid_2km 500 X true = Raise ZeroCellExtent)
      by (vm_compute; reflexivity).
    split; [exact Hraise | exact (Honly true Hraise)].
Defined.


Lemma land_sea_separation_at_the_coast :
  exists out,
    vicinity with_land_mask hot_sea_cell = Ok out
    /\ OccurrenceWithinVicinity.vicinity_maximum_at fill_float32
         with_land_mask hot_sea_cell out 1 1 1.
Proof.
  eexists. split; [vm_compute; reflexivity|].
  destruct (land_sea_separation_up_to_the_sentinel tt convert_metres
              fill_float32 zeros with_land_mask hot_sea_cell _ eq_refl)
    as (r & Hr & Hcell).
  injection Hr as <-.
  apply Hcell.
  - vm_compute. lia.
  - vm_compute. lia.
  - reflexivity.
  - lia.
Qed.

(** C3, on a field of 32-bit integers.  The cells of the other category
    are hidden under the sentinel [- cube_fill_value], which is meant to
    lose every maximum; but the fill value of a signed integer type is
    negative, so that for 32-bit integers the sentinel is 2147483647, and
    it wins every maximum it enters.  Land is the two left columns (the
    second of them at a land fraction of one half), the radius is one cell,
    and the field is 0 everywhere but at one sea cell on the coast.  Every
    land cell on the coast comes out as 2147483647 and not as 0, the
    maximum over the land; so does every sea cell on the coast.  The same
    field as 32-bit floats, whose fill value is positive, comes out
    separated: 0 over the land, and the hot sea cell spread over the sea
    only. *)
Theorem C3_int32_sentinel_wins_the_maximum :
  typed_vicinity with_land_halves (hot_sea_cell_of int32)
    = Ok (OccurrenceWithinVicinity.mkCube2D "probability_of_rain" grid_2km
            int32
            (mkMarray [[0; 2147483647; 2147483647; 1];
                       [0; 2147483647; 2147483647; 1];
                       [0; 2147483647; 2147483647; 1];
                       [0; 2147483647; 2147483647; 0]] []))
  /\ typed_vicinity with_land_halves (hot_sea_cell_of float32)
     = Ok (OccurrenceWithinVicinity.mkCube2D "probability_of_rain" grid_2km
             float32
             (mkMarray [[0; 0; 1; 1]; [0; 0; 1; 1];
                        [0; 0; 1; 1]; [0; 0; 0; 0]] [])).
Proof. split; vm_compute; reflexivity. Qed.

Lemma C9_vicinity_maximum_extensive_witness :
  exists out,
    vicinity with_land_mask hot_sea_cell = Ok out
    /\ OccurrenceWithinVicinity.value_at hot_sea_cell 1 2
       <= OccurrenceWithinVicinity.value_at out 1 2.
Proof.
  destruct (C9_vicinity_maximum_extensive tt convert_metres fill_float32 zeros
              with_land_mask hot_sea_cell) as [Hext Hret].
  destruct (Hret 1%Z) as [out Hout].
  - reflexivity.
  - vm_compute. lia.
  - intros mask [= <-]. reflexivity.
  - exists out. split; [exact Hout|].
    apply (Hext out Hout).
    + vm_compute. lia.
    + vm_compute. lia.
    + reflexivity.
Defined.

Lemma C7_zero_radius_identity_witness :
  OccurrenceWithinVicinity.resolve_grid_point_radius tt convert_metres
    unconfigured hot_sea_cell = Ok 0%Z
  /\ exists out,
       OccurrenceWithinVicinity.maximum_within_vicinity tt convert_metres
         fill_float32 zeros unconfigured hot_sea_cell = Ok out
       /\ OccurrenceWithinVicinity.value_at out 1 2
          = OccurrenceWithinVicinity.value_at hot_sea_cell 1 2.
Proof.
  destruct (C7_zero_radius_identity tt convert_metres fill_float32 zeros
              unconfigured hot_sea_cell) as [Hres Hzero].
  assert (H0 := Hres eq_refl eq_refl).
  split; [exact H0|].
  destruct (Hzero H0) as [Hid Hret].
  destruct Hret as [out Hout].
  - vm_compute. lia.
  - intros mask Hmask. discriminate Hmask.
  - exists out. split; [exact Hout|].
    apply (Hid out Hout).
    + vm_compute. lia.
    + vm_compute. lia.
    + reflexivity.
Defined.

(** Radius 0 is the identity on the example field. *)
Example zero_radius_keeps_the_field :
  vicinity unconfigured hot_sea_cell = Ok hot_sea_cell.
Proof. vm_compute. reflexivity. Qed.

Import CollapseMaskedNeighbourhoodCoordinate.

(** Weight renormalisation (spec, testable properties 5 and 6): with the
    first band undefined the weights become [0, 1]; with both bands
    undefined they become, and stay, [0, 0]. *)
Example reweighted_example :
  match reweight_weights weighted neighbourhood_result two_cubes with
  | Ok (_, σ') => cube_data <$> σ' !! 1%nat
  | Raise _ => None
  end
  = Some [ [[ [number 0; number (2 # 2)]; [number 0; number 0] ]] ].
Proof. vm_compute. reflexivity. Qed.


Lemma C8_collapse_removes_masking_coordinate_witness :
  exists out σ',
    collapse_process weighted 0%nat two_cubes = Ok (out, σ')
    /\ exists r,
         σ' !! out = Some r
         /\ ~ In (coord_masked weighted) (cube_coords r)
         /\ forall cm, In cm (cube_cell_methods r) ->
                       cm_coord_names cm <> [coord_masked weighted].
Proof.
  eexists _, _. split; [vm_compute; reflexivity|].
  apply (C8_collapse_removes_masking_coordinate collapsed_stub merge_stub
           check_stub weighted 0%nat _ two_cubes).
  vm_compute. reflexivity.
Defined.

(** The cube returned for the example keeps the cell method over time. *)
Example collapsed_example_metadata :
  match collapse_process weighted 0%nat two_cubes with
  | Ok (out, σ') =>
      (fun r => (cube_coords r, cube_cell_methods r)) <$> σ' !! out
  | Raise _ => None
  end
  = Some (["projection_y_coordinate"; "projection_x_coordinate"],
          [mkCellMethod "mean" ["time"]]).
Proof. vm_compute. reflexivity. Qed.

(** C1, as stated, fails: [CollapseMaskedNeighbourhoodCoordinate.process]
    returns with the data of its input cube changed (its not-a-number
    elements are now masked). *)
Lemma C1_collapse_changes_its_input :
  exists out σ',
    collapse_process unweighted 0%nat two_cubes = Ok (out, σ')
    /\ (cube_data <$> σ' !! 0%nat) <> (cube_data <$> two_cubes !! 0%nat).
Proof.
  eexists _, _. split; [vm_compute; reflexivity|].
  vm_compute. intros H. discriminate H.
Qed.

Lemma C1_transforms_and_their_input_witness :
  (exists out σ',
     vicinity_process with_land_mask 0%nat (<[0%nat := hot_field]> ∅)
       = Ok (out, σ')
     /\ σ' !! 0%nat = Some hot_field)
  /\ (exists out σ',
        apply_process masked_neighbourhood 0%nat 1%nat two_fields
          = Ok (out, σ')
        /\ σ' !! 0%nat = two_fields !! 0%nat
        /\ σ' !! 1%nat = two_fields !! 1%nat)
  /\ (exists out σ',
        collapse_process weighted 0%nat two_cubes = Ok (out, σ')
        /\ σ' !! 0%nat =
             Some (with_data neighbourhood_result
                     (masked_invalid (cube_data neighbourhood_result)))).
Proof.
  epose proof (C1_transforms_and_their_input tt convert_metres fill_float32
                 zeros (fun _ _ => true) merge_slices restore_dimensions
                 collapsed_stub merge_stub check_stub
                 (list Q) unit _ _ _ _ _ _ _ _ _ _ _) as (Hv & Ha & Hc).
  split; [|split].
  - assert (Hrun : exists out σ',
              vicinity_process with_land_mask 0%nat (<[0%nat := hot_field]> ∅)
                = Ok (out, σ'))
      by (eexists _, _; vm_compute; reflexivity).
    destruct Hrun as (out & σ' & Hrun). exists out, σ'.
    split; [exact Hrun|].
    destruct (Hv _ _ _ _ _ Hrun) as (Hfresh & _ & Hrest).
    rewrite Hrest; [reflexivity|].
    intros <-. vm_compute in Hfresh. discriminate Hfresh.
  - assert (Hrun : exists out σ',
              apply_process masked_neighbourhood 0%nat 1%nat two_fields
                = Ok (out, σ'))
      by (eexists _, _; vm_compute; reflexivity).
    destruct Hrun as (out & σ' & Hrun). exists out, σ'.
    split; [exact Hrun|].
    destruct (Ha _ _ _ _ _ _ Hrun) as (Hfresh & _ & Hrest).
    split; (rewrite Hrest; [reflexivity|]);
      intros <-; vm_compute in Hfresh; discriminate Hfresh.
  - assert (Hrun : exists out σ',
              collapse_process weighted 0%nat two_cubes = Ok (out, σ'))
      by (eexists _, _; vm_compute; reflexivity).
    destruct Hrun as (out & σ' & Hrun). exists out, σ'.
    split; [exact Hrun|].
    destruct (Hc _ _ _ _ _ Hrun) as (c & Hin & _ & _ & Hcube & _).
    assert (c = neighbourhood_result) as ->.
    { vm_compute in Hin. now injection Hin as <-. }
    apply Hcube. discriminate.
Defined.

End ExampleRuns.

(** * Further properties of the code *)

(** ** Grid geometry: degenerate axes, unequal spacings, order *)

Section GeometryEdgeCases.

Context {unit_t : Type}.
Variable metres : unit_t.
Variable unit_convert : unit_t -> unit_t -> option (Q -> Q).

Local Abbreviation spacing := (calculate_grid_spacing unit_convert).
Local Abbreviation to_cells :=
  (distance_to_number_of_grid_cells metres unit_convert).
Local Abbreviation to_distance :=
  (number_of_grid_cells_to_distance metres unit_convert).
Local Abbreviation equal_area :=
  (check_if_grid_is_equal_area metres unit_convert).

Lemma np_diff_short (ps : list Q) : (length ps <= 1)%nat -> np_diff ps = [].
Proof.
  destruct ps as [|p [|p' ps]]; simpl; intros H; try reflexivity. lia.
Qed.

Lemma np_diff_length (ps : list Q) : length (np_diff ps) = (length ps - 1)%nat.
Proof.
  induction ps as [|p [|p' ps] IH]; try reflexivity.
  change (np_diff (p :: p' :: ps)) with ((p' - p) :: np_diff (p' :: ps)).
  cbn [length] in *. rewrite IH. lia.
Qed.

(** An axis all of whose consecutive absolute differences equal [s]. *)
Lemma spacing_of_equal_diffs cube units ax rtol coord (s : Q) :
  convert_units unit_convert (cube_coord cube ax) units = Ok coord ->
  0 <= rtol ->
  map Qabs (np_diff (coord_points coord)) <> [] ->
  Forall (fun d => d == s) (map Qabs (np_diff (coord_points coord))) ->
  exists m, spacing cube units ax rtol = Ok (f_fin m) /\ m == s.
Proof.
  intros Hconv Hrtol Hne Hall.
  destruct (np_mean_constant s _ Hne Hall) as (m & Hm & Hms).
  exists m. split; [|exact Hms].
  rewrite (calculate_grid_spacing_unfold _ _ _ _ _ _ Hconv). cbv zeta.
  rewrite Hm.
  assert (np_allclose (map Qabs (np_diff (coord_points coord))) (f_fin m)
            rtol 0 = true) as ->; [|reflexivity].
  apply np_allclose_true. eapply Forall_impl; [exact Hall|].
  intros d Hd. cbv beta in Hd |- *.
  assert (H0 : d - m == 0) by (rewrite Hd, Hms; ring).
  rewrite H0, Qplus_0_l. change (Qabs 0) with 0.
  apply Qmult_le_0_compat; [exact Hrtol | apply Qabs_nonneg].
Qed.

Lemma to_cells_int_inv cube d ax n :
  to_cells cube d ax true = Ok (IntCells n) ->
  0 < d /\ exists s,
    spacing cube metres ax default_rtol = Ok (f_fin s) /\ ~ s == 0
    /\ n = Qtrunc (d / Qabs s) /\ n <> 0%Z.
Proof.
  unfold distance_to_number_of_grid_cells.
  destruct (Qle_bool d 0) eqn:Hd; [discriminate|].
  apply Qle_bool_false in Hd.
  destruct (spacing cube metres ax default_rtol) as [[| neg |s]|e]; simpl;
    try discriminate.
  destruct (Qeq_bool (Qabs s) 0) eqn:Hs.
  - destruct (Qeq_bool d 0); discriminate.
  - simpl. destruct (Z.eqb_spec (Qtrunc (d / Qabs s)) 0); [discriminate|].
    intros [= <-]. split; [exact Hd|]. exists s.
    split; [reflexivity|]. split; [|split; [reflexivity | assumption]].
    intros H0. apply Qeq_bool_false in Hs. apply Hs. rewrite H0. reflexivity.
Qed.

Lemma Qabs_pos_lt (s : Q) : ~ s == 0 -> 0 < Qabs s.
Proof.
  intros Hnz. destruct (Qlt_le_dec 0 (Qabs s)) as [Hp|Hn]; [exact Hp|].
  exfalso. apply Hnz, Qabs_eq_0. apply Qle_antisym; [exact Hn|].
  apply Qabs_nonneg.
Qed.

(** X1.  An axis with a single point (or none) has no difference between
    points: [calculate_grid_spacing] then returns not-a-number, and raises
    nothing, whatever the tolerance.  On such an axis
    [distance_to_number_of_grid_cells] returns not-a-number for a positive
    distance when a float is asked for, and fails converting it when an
    integer is asked for; and [check_if_grid_is_equal_area] rejects the
    grid when it must compare the two spacings, and accepts it when it
    need not. *)
Theorem X1_single_point_axis cube ax coord :
  convert_units unit_convert (cube_coord cube ax) metres = Ok coord ->
  (length (coord_points coord) <= 1)%nat ->
  (forall rtol, spacing cube metres ax rtol = Ok f_nan)
  /\ (forall d, 0 < d ->
        to_cells cube d ax true = Raise NanToInteger
        /\ to_cells cube d ax false = Ok (FloatCells f_nan))
  /\ (forall a b,
        spacing cube metres X default_rtol = Ok a ->
        spacing cube metres Y default_rtol = Ok b ->
        equal_area cube true = Raise UnequalXYSpacing
        /\ equal_area cube false = Ok tt).
Proof.
  intros Hconv Hlen.
  assert (Hnan : forall rtol, spacing cube metres ax rtol = Ok f_nan).
  { intros rtol.
    rewrite (calculate_grid_spacing_unfold _ _ _ _ _ _ Hconv). cbv zeta.
    now rewrite (np_diff_short _ Hlen). }
  split; [exact Hnan|]. split.
  - intros d Hd. unfold distance_to_number_of_grid_cells.
    apply Qle_bool_false in Hd. rewrite Hd, Hnan. split; reflexivity.
  - intros a b Ha Hb. unfold check_if_grid_is_equal_area.
    rewrite Ha, Hb. simpl. split; [|reflexivity].
    assert (Hclose : np_isclose a b (1 # 100000) (1 # 100000000) = false).
    { destruct ax.
      - rewrite Hnan in Ha. injection Ha as <-. reflexivity.
      - rewrite Hnan in Hb. injection Hb as <-. now destruct a. }
    now rewrite Hclose.
Qed.

(** X2.  [number_of_grid_cells_to_distance] checks that the grid has the
    same spacing along x and y; [distance_to_number_of_grid_cells] does
    not.  On a grid whose two spacings differ by more than the tolerance of
    the comparison, the first raises for every number of cells, though the
    equal-area check passes when the comparison is not required, and the
    second still converts any distance of at least one cell along x. *)
Theorem X2_unequal_spacing_is_checked_one_way cube (sx sy : Q) :
  spacing cube metres X default_rtol = Ok (f_fin sx) ->
  spacing cube metres Y default_rtol = Ok (f_fin sy) ->
  ~ sx == 0 ->
  (1 # 100000000) + (1 # 100000) * Qabs sy < Qabs (sx - sy) ->
  equal_area cube true = Raise UnequalXYSpacing
  /\ equal_area cube false = Ok tt
  /\ (forall n, to_distance cube n = Raise UnequalXYSpacing)
  /\ (forall d, Qabs sx <= d ->
        exists n, (1 <= n)%Z /\ to_cells cube d X true = Ok (IntCells n)).
Proof.
  intros Hx Hy Hnz Hfar.
  assert (Hcheck : equal_area cube true = Raise UnequalXYSpacing).
  { unfold check_if_grid_is_equal_area. rewrite Hx, Hy.
    cbn [mbind result_bind np_isclose andb].
    apply Qle_bool_false in Hfar. now rewrite Hfar. }
  split; [exact Hcheck|]. split; [|split].
  - unfold check_if_grid_is_equal_area. now rewrite Hx, Hy.
  - intros n. unfold number_of_grid_cells_to_distance. now rewrite Hcheck.
  - intros d Hd.
    pose proof (Qabs_pos_lt sx Hnz) as Hpos.
    assert (Hdpos : 0 < d) by (eapply Qlt_le_trans; eassumption).
    rewrite (to_cells_positive metres unit_convert _ _ _ true sx Hdpos Hx Hnz).
    assert (Hq : 1 <= d / Qabs sx).
    { apply Qle_shift_div_l; [exact Hpos|]. now rewrite Qmult_1_l. }
    assert (Hn : (1 <= Qtrunc (d / Qabs sx))%Z).
    { rewrite Qtrunc_floor.
      - change 1%Z with (Qfloor 1). now apply Qfloor_resp_le.
      - eapply Qle_trans; [|exact Hq]. discriminate. }
    exists (Qtrunc (d / Qabs sx)). split; [exact Hn|].
    destruct (Z.eqb_spec (Qtrunc (d / Qabs sx)) 0); [lia | reflexivity].
Qed.

Lemma np_diff_constant (p : Q) (ps : list Q) :
  Forall (fun q => q == p) ps ->
  Forall (fun d => d == 0) (map Qabs (np_diff ps)).
Proof.
  induction 1 as [|q ps Hq Hall IH]; [constructor|].
  destruct ps as [|q' ps]; [constructor|].
  change (np_diff (q :: q' :: ps)) with ((q' - q) :: np_diff (q' :: ps)).
  cbn [map]. constructor; [|exact IH].
  inversion Hall as [|? ? Hq' _]; subst.
  assert (H0 : q' - q == 0) by (rewrite Hq, Hq'; ring).
  rewrite H0. reflexivity.
Qed.

(** X3.  An axis of at least two points that all coincide has spacing zero,
    which [calculate_grid_spacing] returns without complaint.  Dividing a
    positive distance by it gives infinity:
    [distance_to_number_of_grid_cells] returns that infinity as a float,
    and fails with the overflow of [int] when an integer is asked for. *)
Theorem X3_coincident_points_give_infinite_cells cube ax coord (p d : Q) :
  convert_units unit_convert (cube_coord cube ax) metres = Ok coord ->
  (2 <= length (coord_points coord))%nat ->
  Forall (fun q => q == p) (coord_points coord) ->
  0 < d ->
  (exists m, spacing cube metres ax default_rtol = Ok (f_fin m) /\ m == 0)
  /\ to_cells cube d ax true = Raise InfinityToInteger
  /\ to_cells cube d ax false = Ok (FloatCells (f_inf false)).
Proof.
  intros Hconv Hlen Hall Hd.
  destruct (spacing_of_equal_diffs cube metres ax default_rtol coord 0 Hconv)
    as (m & Hm & Hm0).
  - discriminate.
  - intros Hnil. apply (f_equal (@length Q)) in Hnil.
    rewrite length_map, np_diff_length in Hnil. simpl in Hnil. lia.
  - exact (np_diff_constant p _ Hall).
  - split; [now exists m|].
    unfold distance_to_number_of_grid_cells.
    pose proof Hd as Hdb. apply Qle_bool_false in Hdb. rewrite Hdb, Hm.
    cbn [mbind result_bind np_abs np_div].
    assert (Qeq_bool (Qabs m) 0 = true) as ->.
    { apply Qeq_bool_iff. rewrite Hm0. reflexivity. }
    assert (Qeq_bool d 0 = false) as ->.
    { apply Qeq_bool_false. intros H0. rewrite H0 in Hd.
      exact (Qlt_irrefl _ Hd). }
    unfold Qlt_bool.
    assert (Qle_bool 0 d = true) as ->.
    { apply Qle_bool_iff. now apply Qlt_le_weak. }
    split; reflexivity.
Qed.


(** X6.  The number of cells grows with the distance: when a distance
    converts to an integer number of cells, every longer distance converts
    too, to at least as many cells. *)
Theorem X6_cells_grow_with_distance cube ax (d1 d2 : Q) (n1 : Z) :
  distance_to_number_of_grid_cells metres unit_convert cube d1 ax true
    = Ok (IntCells n1) ->
  d1 <= d2 ->
  exists n2,
    distance_to_number_of_grid_cells metres unit_convert cube d2 ax true
      = Ok (IntCells n2)
    /\ (n1 <= n2)%Z.
Proof.
  intros H1 Hle.
  destruct (to_cells_int_inv cube d1 ax n1 H1) as (Hd1 & s & Hs & Hnz & -> & Hn0).
  assert (Hd2 : 0 < d2) by (eapply Qlt_le_trans; eassumption).
  pose proof (Qabs_pos_lt s Hnz) as Hpos.
  assert (Hq1 : 0 <= d1 / Qabs s).
  { apply Qle_shift_div_l; [exact Hpos|].
    rewrite Qmult_0_l. now apply Qlt_le_weak. }
  assert (Hq : d1 / Qabs s <= d2 / Qabs s).
  { apply Qmult_le_compat_r; [exact Hle|].
    apply Qinv_le_0_compat. now apply Qlt_le_weak. }
  assert (Hq2 : 0 <= d2 / Qabs s) by (eapply Qle_trans; eassumption).
  assert (Hmono : (Qtrunc (d1 / Qabs s) <= Qtrunc (d2 / Qabs s))%Z).
  { rewrite !Qtrunc_floor by assumption. now apply Qfloor_resp_le. }
  assert (H0 : (0 <= Qtrunc (d1 / Qabs s))%Z).
  { rewrite (Qtrunc_floor _ Hq1). change 0%Z with (Qfloor 0).
    now apply Qfloor_resp_le. }
  exists (Qtrunc (d2 / Qabs s)). split; [|exact Hmono].
  rewrite (to_cells_positive metres unit_convert _ _ _ true s Hd2 Hs Hnz).
  destruct (Z.eqb_spec (Qtrunc (d2 / Qabs s)) 0); [lia | reflexivity].
Qed.

Lemma np_diff_snoc (ps : list Q) (a b : Q) :
  np_diff (ps ++ [a; b]) = np_diff (ps ++ [a]) ++ [b - a].
Proof.
  induction ps as [|p [|p' ps] IH]; try reflexivity.
  change (np_diff ((p :: p' :: ps) ++ [a; b]))
    with ((p' - p) :: np_diff ((p' :: ps) ++ [a; b])).
  rewrite IH. reflexivity.
Qed.

(** The absolute differences of the reversed points are those of the
    points, reversed. *)
Lemma abs_diffs_rev (ps : list Q) :
  map Qabs (np_diff (rev ps)) = rev (map Qabs (np_diff ps)).
Proof.
  induction ps as [|p [|p' ps] IH]; try reflexivity.
  change (np_diff (p :: p' :: ps)) with ((p' - p) :: np_diff (p' :: ps)).
  cbn [map rev] in *. rewrite <- IH.
  rewrite <- app_assoc. cbn [app]. rewrite np_diff_snoc, map_app.
  cbn [map]. now rewrite Qabs_Qminus.
Qed.

Lemma Qsum_app (xs ys : list Q) : Qsum (xs ++ ys) == Qsum xs + Qsum ys.
Proof.
  induction xs as [|x xs IH]; simpl.
  - ring.
  - change (Qsum (xs ++ ys)) with (fold_right Qplus 0 (xs ++ ys)) in IH.
    rewrite IH. unfold Qsum. ring.
Qed.

Lemma Qsum_rev (xs : list Q) : Qsum (rev xs) == Qsum xs.
Proof.
  induction xs as [|x xs IH]; [reflexivity|].
  cbn [rev]. rewrite Qsum_app, IH. unfold Qsum. simpl. ring.
Qed.

Lemma np_mean_rev (xs : list Q) :
  match np_mean xs, np_mean (rev xs) with
  | f_fin a, f_fin b => a == b
  | f_nan, f_nan => True
  | _, _ => False
  end.
Proof.
  destruct xs as [|x xs]; [exact I|].
  destruct (rev (x :: xs)) as [|y ys] eqn:E.
  - apply (f_equal (@length Q)) in E. rewrite length_rev in E. discriminate.
  - unfold np_mean. rewrite <- E, length_rev, Qsum_rev. reflexivity.
Qed.

Lemma np_allclose_rev (xs : list Q) (a b rtol atol : Q) :
  a == b ->
  np_allclose (rev xs) (f_fin b) rtol atol = np_allclose xs (f_fin a) rtol atol.
Proof.
  intros Hab. apply eq_true_iff_eq. rewrite !np_allclose_true.
  rewrite !List.Forall_forall. split; intros H x Hx.
  - rewrite Hab. apply H. now apply in_rev in Hx.
  - rewrite <- Hab. apply H. now apply in_rev.
Qed.

(** X7.  The spacing does not depend on the direction in which the axis
    runs: on two cubes whose coordinates along an axis have the same name
    and units and the same points in opposite orders,
    [calculate_grid_spacing] returns the same spacing, or not-a-number on
    both, or raises the same error on both. *)
Theorem X7_spacing_of_a_reversed_axis cube cube' units ax rtol :
  coord_name (cube_coord cube' ax) = coord_name (cube_coord cube ax) ->
  coord_units (cube_coord cube' ax) = coord_units (cube_coord cube ax) ->
  coord_points (cube_coord cube' ax) = rev (coord_points (cube_coord cube ax)) ->
  match spacing cube units ax rtol, spacing cube' units ax rtol with
  | Ok (f_fin a), Ok (f_fin b) => a == b
  | Ok f_nan, Ok f_nan => True
  | Raise e, Raise e' => e = e'
  | _, _ => False
  end.
Proof.
  intros Hname Hunits Hpoints.
  unfold calculate_grid_spacing, convert_units.
  rewrite Hname, Hunits, Hpoints.
  destruct (unit_convert (coord_units (cube_coord cube ax)) units) as [f|];
    [|reflexivity].
  cbn [mbind result_bind coord_points coord_name].
  rewrite map_rev, abs_diffs_rev.
  set (diffs := map Qabs (np_diff (map f (coord_points (cube_coord cube ax))))).
  pose proof (np_mean_rev diffs) as Hmean.
  destruct (np_mean diffs) as [| |a] eqn:Ea;
    destruct (np_mean (rev diffs)) as [| |b] eqn:Eb; try contradiction.
  - assert (Hnil : diffs = []).
    { destruct diffs; [reflexivity | discriminate]. }
    rewrite Hnil. exact I.
  - rewrite (np_allclose_rev diffs a b rtol 0 Hmean).
    destruct (np_allclose diffs (f_fin a) rtol 0); simpl;
      [exact Hmean | reflexivity].
Qed.

End GeometryEdgeCases.

(** ** OccurrenceWithinVicinity: what is kept, order, radius in metres *)

Lemma shape_tabulate_shape {A B} (g : grid B) (f : nat -> nat -> A) :
  shape (tabulate (shape g) f) = shape g.
Proof.
  destruct g as [|row g]; [reflexivity|].
  apply shape_tabulate. simpl. lia.
Qed.

Lemma get_nil {A} (d : A) i j : get d [] i j = d.
Proof. unfold get. destruct i; destruct j; reflexivity. Qed.

Lemma window_spec (r d : Z) :
  (0 <= r)%Z -> In d (window (2 * r + 1)) <-> (- r <= d <= r)%Z.
Proof.
  intros Hr. unfold window.
  replace ((2 * r + 1) / 2)%Z with r
    by (apply Z.div_unique with (r := 1%Z); lia).
  rewrite in_map_iff. split.
  - intros (k & <- & Hk). apply in_seq in Hk. lia.
  - intros Hd. exists (Z.to_nat (d + r)). split; [lia|].
    apply in_seq. lia.
Qed.

Lemma in_window_mono (sh : nat * nat) (r r' : Z) (i j i' j' : nat) :
  (0 <= r <= r')%Z ->
  in_window sh (2 * r + 1) i j i' j' -> in_window sh (2 * r' + 1) i j i' j'.
Proof.
  intros Hr (di & dj & Hdi & Hdj & Hi & Hj).
  apply window_spec in Hdi, Hdj; try lia.
  exists di, dj. repeat split; try assumption; apply window_spec; lia.
Qed.

Section VicinityFurther.

Import OccurrenceWithinVicinity.

Context {unit_t dtype : Type}.
Variable metres : unit_t.
Variable unit_convert : unit_t -> unit_t -> option (Q -> Q).
Variable default_fillvals : dtype -> Q.
Variable uninitialised : nat -> nat -> Q.

Local Abbreviation resolve :=
  (resolve_grid_point_radius metres unit_convert).
Local Abbreviation vicinity :=
  (maximum_within_vicinity metres unit_convert default_fillvals uninitialised).
Local Abbreviation seen := (seen_from default_fillvals).

Lemma land_sea_step_shape (mask : grid bool) (ud : grid Q) (fill : Q)
    (size : Z) (md r : grid Q) (b : bool) :
  land_sea_step mask ud fill size md b = Ok r -> shape r = shape ud.
Proof.
  unfold land_sea_step.
  destruct (shape_eqb (shape mask) (shape ud)) eqn:Hsh; [|discriminate].
  apply shape_eqb_eq in Hsh. simpl. intros [= <-].
  unfold np_where, grid_eqb. now rewrite !shape_tabulate_shape.
Qed.

(** X8.  The cube [maximum_within_vicinity] returns has the name, the
    coordinates, the element type and the shape of its input, and the same
    cells masked; a masked cell keeps the value that lies under its
    mask. *)
Theorem X8_vicinity_keeps_shape_mask_and_metadata (self : t unit_t dtype)
    (cube out : Cube2D unit_t dtype) :
  vicinity self cube = Ok out ->
  c_name out = c_name cube /\ c_grid out = c_grid cube
  /\ c_dtype out = c_dtype cube
  /\ cube_shape out = cube_shape cube
  /\ forall i j,
       (i < fst (cube_shape cube))%nat -> (j < snd (cube_shape cube))%nat ->
       masked_at out i j = masked_at cube i j
       /\ (masked_at cube i j = true -> value_at out i j = value_at cube i j).
Proof.
  unfold maximum_within_vicinity. intros H.
  destruct (resolve self cube) as [r|]; [|discriminate].
  cbn [mbind result_bind] in H.
  set (fill := default_fillvals (c_dtype cube)) in H.
  set (ud := if is_masked (c_data cube) then _ else _) in H.
  assert (Hsh : shape ud = cube_shape cube).
  { subst ud. unfold cube_shape. destruct (is_masked (c_data cube)).
    - unfold assign_where. apply shape_tabulate_shape.
    - reflexivity. }
  match type of H with
  | context [mbind _ ?e] => destruct e as [max_data|] eqn:Hmd; [|discriminate]
  end.
  cbn [mbind result_bind] in H.
  assert (Hms : shape max_data = cube_shape cube).
  { rewrite <- Hsh. destruct (land_mask self) as [mask|].
    - destruct (land_sea_step mask ud fill (2 * r + 1) _ true) as [md1|];
        [|discriminate].
      exact (land_sea_step_shape _ _ _ _ _ _ _ Hmd).
    - injection Hmd as <-. unfold maximum_filter. apply shape_tabulate_shape. }
  unfold cube_shape, masked_at, value_at in *.
  destruct (is_masked (c_data cube)) eqn:Hm; injection H as <-;
    cbn [c_name c_grid c_dtype c_data ma_data ma_mask].
  - repeat split; try reflexivity.
    + unfold assign_where_from. apply shape_tabulate_shape.
    + intros Hmasked. unfold assign_where_from, grid_not.
      rewrite !get_tabulate by assumption. now rewrite Hmasked.
  - repeat split; try reflexivity; try assumption.
    + rewrite get_nil. symmetry. now apply not_masked_get.
    + intros Hmasked. rewrite (not_masked_get _ i j Hm) in Hmasked.
      discriminate.
Qed.

Lemma seen_land_mask (self self' : t unit_t dtype) (cube : Cube2D unit_t dtype)
    i j i' j' :
  land_mask_cube self' = land_mask_cube self ->
  seen self' cube i j i' j' = seen self cube i j i' j'.
Proof. unfold seen_from, land_mask. now intros ->. Qed.

(** X10.  The vicinity maximum grows with the radius: for two plugins with
    the same land mask whose radii resolve to [r <= r'] grid cells, the
    value returned at every unmasked cell for [r] is at most the value
    returned for [r']. *)
Theorem X10_vicinity_grows_with_the_radius (self self' : t unit_t dtype)
    (cube out out' : Cube2D unit_t dtype) (r r' : Z) :
  land_mask_cube self' = land_mask_cube self ->
  resolve self cube = Ok r -> resolve self' cube = Ok r' -> (r <= r')%Z ->
  vicinity self cube = Ok out -> vicinity self' cube = Ok out' ->
  forall i j,
    (i < fst (cube_shape cube))%nat -> (j < snd (cube_shape cube))%nat ->
    masked_at cube i j = false ->
    value_at out i j <= value_at out' i j.
Proof.
  intros Hland Hr Hr' Hle Hout Hout' i j Hi Hj Hm.
  destruct (vicinity_cell metres unit_convert default_fillvals uninitialised
              self cube out Hout) as (r0 & Hr0 & Hcell).
  destruct (vicinity_cell metres unit_convert default_fillvals uninitialised
              self' cube out' Hout') as (r0' & Hr0' & Hcell').
  rewrite Hr in Hr0. injection Hr0 as <-.
  rewrite Hr' in Hr0'. injection Hr0' as <-.
  destruct (Hcell i j Hi Hj Hm) as [Hmax Hid].
  destruct (Hcell' i j Hi Hj Hm) as [Hmax' Hid'].
  destruct (Z.le_gt_cases 0 r) as [Hpos|Hneg].
  - destruct Hmax as [(i1 & j1 & Hw & ->) _]; [lia|].
    destruct Hmax' as [_ Hall']; [lia|].
    rewrite <- (seen_land_mask self self' cube i j i1 j1 Hland).
    apply Hall'. apply (in_window_mono _ r r'); [lia | exact Hw].
  - rewrite Hid by lia.
    rewrite <- (seen_land_mask self self' cube i j i j Hland).
    destruct (Z.le_gt_cases 0 r') as [Hpos'|Hneg'].
    + destruct Hmax' as [_ Hall']; [lia|].
      apply Hall'. now apply in_window_self.
    + rewrite Hid' by lia. apply Qle_refl.
Qed.

(** X9.  The vicinity maximum is monotone in the data: for two cubes on the
    same grid, with the same element type, shape and mask, the first nowhere
    above the second on the unmasked cells, what [maximum_within_vicinity]
    returns for the first is nowhere above what it returns for the second
    on the unmasked cells. *)
Theorem X9_vicinity_is_monotone_in_the_data (self : t unit_t dtype)
    (cube1 cube2 out1 out2 : Cube2D unit_t dtype) :
  c_grid cube2 = c_grid cube1 -> c_dtype cube2 = c_dtype cube1 ->
  cube_shape cube2 = cube_shape cube1 ->
  (forall i j, masked_at cube2 i j = masked_at cube1 i j) ->
  (forall i j,
     (i < fst (cube_shape cube1))%nat -> (j < snd (cube_shape cube1))%nat ->
     masked_at cube1 i j = false ->
     value_at cube1 i j <= value_at cube2 i j) ->
  vicinity self cube1 = Ok out1 -> vicinity self cube2 = Ok out2 ->
  forall i j,
    (i < fst (cube_shape cube1))%nat -> (j < snd (cube_shape cube1))%nat ->
    masked_at cube1 i j = false ->
    value_at out1 i j <= value_at out2 i j.
Proof.
  intros Hgrid Hdtype Hshape Hmask Hle Hout1 Hout2 i j Hi Hj Hm.
  destruct (vicinity_cell metres unit_convert default_fillvals uninitialised
              self cube1 out1 Hout1) as (r & Hr & Hcell1).
  destruct (vicinity_cell metres unit_convert default_fillvals uninitialised
              self cube2 out2 Hout2) as (r2 & Hr2 & Hcell2).
  assert (r2 = r) as ->.
  { unfold resolve_grid_point_radius in Hr, Hr2. rewrite Hgrid in Hr2.
    rewrite Hr in Hr2. now injection Hr2. }
  assert (Hseen : forall i' j',
            (i' < fst (cube_shape cube1))%nat ->
            (j' < snd (cube_shape cube1))%nat ->
            seen self cube1 i j i' j' <= seen self cube2 i j i' j').
  { intros i' j' Hi' Hj'. unfold seen_from. rewrite Hdtype, Hmask.
    destruct (masked_at cube1 i' j') eqn:Hm'.
    - destruct (land_mask self); [destruct (negb _)|]; apply Qle_refl.
    - destruct (land_mask self); [destruct (negb _)|];
        try apply Qle_refl; now apply Hle. }
  destruct (Hcell1 i j Hi Hj Hm) as [Hmax1 Hid1].
  rewrite Hshape in Hcell2.
  destruct (Hcell2 i j Hi Hj) as [Hmax2 Hid2]; [now rewrite Hmask|].
  destruct (Z.le_gt_cases 0 r) as [Hpos|Hneg].
  - destruct Hmax1 as [(i1 & j1 & Hw & ->) _]; [lia|].
    destruct Hmax2 as [_ Hall2]; [lia|].
    destruct (in_window_in_shape _ _ _ _ _ _ Hi Hj Hw) as [Hi1 Hj1].
    eapply Qle_trans; [apply Hseen; assumption|]. now apply Hall2.
  - rewrite Hid1, Hid2 by lia. now apply Hseen.
Qed.




(** X12.  What the constructor lets through.  It raises when both a radius
    and a grid-point radius are given, and when the land mask is not called
    land_binary_mask.  A plugin it returns holds its arguments, at most one
    of the two radii, and a land mask that is true exactly at the cells
    whose land fraction is at least one half; and with a radius of zero
    metres it resolves to a radius of 0 grid cells on every cube. *)
Theorem X12_constructor_invariants (r : option Q) (g : option Z)
    (lm : option (Cube2D unit_t dtype)) :
  (is_Some r -> is_Some g -> init r g lm = Raise OnlyOneRadius)
  /\ (forall c, lm = Some c -> c_name c <> "land_binary_mask" ->
        r = None \/ g = None ->
        init r g lm = Raise (LandMaskName (c_name c)))
  /\ (forall self, init r g lm = Ok self ->
        radius self = r /\ grid_point_radius self = g
        /\ land_mask_cube self = lm
        /\ (r = None \/ g = None)
        /\ (forall c, lm = Some c ->
              c_name c = "land_binary_mask"
              /\ exists mask,
                   land_mask self = Some mask
                   /\ forall i j,
                        (i < fst (cube_shape c))%nat ->
                        (j < snd (cube_shape c))%nat ->
                        (get false mask i j = true <-> 1 # 2 <= value_at c i j))
        /\ (forall d cube, r = Some d -> d == 0 ->
              resolve self cube = Ok 0%Z)).
Proof.
  unfold init. split; [|split].
  - intros [d ->] [n ->]. reflexivity.
  - intros c -> Hname Hone.
    assert (bool_decide (is_Some r) && bool_decide (is_Some g) = false) as ->.
    { destruct Hone as [-> | ->]; [reflexivity|].
      now rewrite andb_false_r. }
    apply String.eqb_neq in Hname. now rewrite Hname.
  - intros self H.
    destruct (bool_decide (is_Some r) && bool_decide (is_Some g)) eqn:Hboth;
      [discriminate|].
    assert (Hone : r = None \/ g = None).
    { destruct r; [|now left]. destruct g; [|now right]. discriminate. }
    assert (Hself : self = mkPlugin r g lm
            /\ forall c, lm = Some c -> c_name c = "land_binary_mask").
    { destruct lm as [c|].
      - destruct (String.eqb (c_name c) "land_binary_mask") eqn:E;
          [|discriminate].
        injection H as <-. split; [reflexivity|].
        intros c' [= <-]. now apply String.eqb_eq.
      - injection H as <-. split; [reflexivity | discriminate]. }
    destruct Hself as [-> Hname]. cbn [radius grid_point_radius land_mask_cube].
    repeat split; try assumption; try reflexivity.
    + now apply Hname.
    + subst lm. exists (land_mask_of c). split; [reflexivity|].
      intros i j Hi Hj. unfold land_mask_of, value_at.
      rewrite get_tabulate by assumption. apply Qle_bool_iff.
    + intros d cube -> Hd. unfold resolve_grid_point_radius.
      cbn [radius grid_point_radius].
      apply Qeq_bool_iff in Hd. rewrite Hd. cbn [negb].
      destruct Hone as [?| ->]; [discriminate | reflexivity].
Qed.

(** X23.  The value returned at a cell depends on the cells of its own
    land/sea category only: for two cubes on the same grid, with the same
    element type, shape and mask, that agree on every cell of the category
    of the unmasked cell [(i, j)] - and differ at will on the cells of the
    other category - [maximum_within_vicinity] returns the same value at
    [(i, j)]. *)
Theorem X23_vicinity_reads_one_category (self : t unit_t dtype)
    (cube1 cube2 out1 out2 : Cube2D unit_t dtype) (i j : nat) :
  c_grid cube2 = c_grid cube1 -> c_dtype cube2 = c_dtype cube1 ->
  cube_shape cube2 = cube_shape cube1 ->
  (forall i' j', masked_at cube2 i' j' = masked_at cube1 i' j') ->
  (i < fst (cube_shape cube1))%nat -> (j < snd (cube_shape cube1))%nat ->
  masked_at cube1 i j = false ->
  (forall i' j',
     (i' < fst (cube_shape cube1))%nat -> (j' < snd (cube_shape cube1))%nat ->
     same_category self i j i' j' ->
     value_at cube2 i' j' = value_at cube1 i' j') ->
  vicinity self cube1 = Ok out1 -> vicinity self cube2 = Ok out2 ->
  value_at out2 i j == value_at out1 i j.
Proof.
  intros Hgrid Hdtype Hshape Hmask Hi Hj Hm Hsame Hout1 Hout2.
  destruct (vicinity_cell metres unit_convert default_fillvals uninitialised
              self cube1 out1 Hout1) as (r & Hr & Hcell1).
  destruct (vicinity_cell metres unit_convert default_fillvals uninitialised
              self cube2 out2 Hout2) as (r2 & Hr2 & Hcell2).
  assert (r2 = r) as ->.
  { unfold resolve_grid_point_radius in Hr, Hr2. rewrite Hgrid in Hr2.
    rewrite Hr in Hr2. now injection Hr2. }
  assert (Hseen : forall i' j',
            (i' < fst (cube_shape cube1))%nat ->
            (j' < snd (cube_shape cube1))%nat ->
            seen self cube2 i j i' j' = seen self cube1 i j i' j').
  { intros i' j' Hi' Hj'. specialize (Hsame i' j' Hi' Hj').
    unfold seen_from, same_category in *. rewrite Hdtype, Hmask.
    destruct (land_mask self) as [land|].
    - destruct (Bool.eqb (get false land i' j') (get false land i j)) eqn:E;
        [|reflexivity].
      apply Bool.eqb_prop in E. cbn [negb]. now rewrite (Hsame E).
    - now rewrite (Hsame I). }
  destruct (Hcell1 i j Hi Hj Hm) as [Hmax1 Hid1].
  rewrite Hshape in Hcell2.
  destruct (Hcell2 i j Hi Hj) as [Hmax2 Hid2]; [now rewrite Hmask|].
  destruct (Z.le_gt_cases 0 r) as [Hpos|Hneg].
  - destruct Hmax1 as [(i1 & j1 & Hw1 & E1) Hall1]; [lia|].
    destruct Hmax2 as [(i2 & j2 & Hw2 & E2) Hall2]; [lia|].
    destruct (in_window_in_shape _ _ _ _ _ _ Hi Hj Hw1) as [Hi1 Hj1].
    destruct (in_window_in_shape _ _ _ _ _ _ Hi Hj Hw2) as [Hi2 Hj2].
    apply Qle_antisym.
    + rewrite E2, (Hseen i2 j2 Hi2 Hj2). now apply Hall1.
    + rewrite E1, <- (Hseen i1 j1 Hi1 Hj1). now apply Hall2.
  - rewrite Hid1, Hid2 by lia. now rewrite Hseen.
Qed.

End VicinityFurther.

(** ** CollapseMaskedNeighbourhoodCoordinate: calling [process] again *)

Section CollapseFurther.

Import CollapseMaskedNeighbourhoodCoordinate.

Variable collapsed : Cube -> string -> weights_arg -> result Cube.
Variable merge_cube : list Cube -> result Cube.
Variable check_cube_coordinates : Cube -> Cube -> result Cube.

Local Abbreviation run :=
  (process collapsed merge_cube check_cube_coordinates).

Lemma masked_invalid_idempotent (a : list block) :
  masked_invalid (masked_invalid a) = masked_invalid a.
Proof.
  unfold masked_invalid, map_cells.
  rewrite List.map_map. apply List.map_ext. intros b.
  rewrite List.map_map. apply List.map_ext. intros row.
  rewrite List.map_map. apply List.map_ext. intros l.
  rewrite List.map_map. apply List.map_ext. intros c. cbn [value masked].
  now destruct (masked c), (is_finite (value c)).
Qed.

(** X13.  [process] changes the data of its input cube once.  When it is
    called a second time on the same cube (which is not the weights cube),
    the input cube is after the second call what it was after the first:
    its not-a-number elements are masked already. *)
Theorem X13_collapse_changes_its_input_once (self : t) (cube out out' : loc)
    (σ σ' σ'' : gmap loc Cube) :
  weights self <> ACube cube ->
  run self cube σ = Ok (out, σ') ->
  run self cube σ' = Ok (out', σ'') ->
  σ'' !! cube = σ' !! cube.
Proof.
  intros Hw H1 H2.
  destruct (collapse_process_frame _ _ _ self cube out σ σ' H1)
    as (c & _ & _ & _ & Hc1 & _).
  destruct (collapse_process_frame _ _ _ self cube out' σ' σ'' H2)
    as (c' & Hc' & _ & _ & Hc2 & _).
  rewrite (Hc1 Hw) in Hc'. injection Hc' as <-.
  rewrite (Hc2 Hw), (Hc1 Hw). unfold with_data. cbn [cube_name cube_coords
    cube_cell_methods cube_lead_shape cube_data].
  now rewrite masked_invalid_idempotent.
Qed.

End CollapseFurther.

(** ** Differences between adjacent grid squares *)

Lemma nth_np_diff (l : list Q) (j : nat) :
  (S j < length l)%nat -> nth j (np_diff l) 0 = nth (S j) l 0 - nth j l 0.
Proof.
  revert j. induction l as [|p [|p' l] IH]; intros j H; simpl in H; try lia.
  change (np_diff (p :: p' :: l)) with ((p' - p) :: np_diff (p' :: l)).
  destruct j as [|j]; [reflexivity|].
  cbn [nth]. rewrite IH by (simpl; lia). reflexivity.
Qed.

Lemma nth_zip_with {A B C} (f : A -> B -> C) (l : list A) (k : list B)
    (i : nat) (a : A) (b : B) (c : C) :
  (i < length l)%nat -> (i < length k)%nat ->
  nth i (zip_with f l k) c = f (nth i l a) (nth i k b).
Proof.
  revert k i. induction l as [|x l IH]; intros [|y k] [|i] Hl Hk;
    simpl in *; try lia; [reflexivity|].
  apply IH; lia.
Qed.

Lemma nth_tl {A} (l : list A) (i : nat) (d : A) :
  nth i (List.tl l) d = nth (S i) l d.
Proof. destruct l; [now destruct i | reflexivity]. Qed.

Lemma length_tl {A} (l : list A) : length (List.tl l) = (length l - 1)%nat.
Proof. destruct l; simpl; lia. Qed.

Lemma rectangular_row {A} (g : grid A) (i : nat) :
  rectangular g -> (i < length g)%nat -> length (nth i g []) = snd (shape g).
Proof.
  unfold rectangular. rewrite List.Forall_forall. intros H Hi.
  apply H. now apply nth_In.
Qed.

(** [np.diff] along either dimension, element by element. *)
Lemma get_np_diff_axis_1 (a : grid Q) (i j : nat) :
  (i < fst (shape a))%nat -> (S j < length (nth i a []))%nat ->
  get 0 (np_diff_axis a 1) i j = get 0 a i (S j) - get 0 a i j.
Proof.
  intros Hi Hj. unfold get, np_diff_axis.
  rewrite (nth_indep _ [] (np_diff [])) by now rewrite length_map.
  rewrite (map_nth np_diff a [] i). now apply nth_np_diff.
Qed.

Lemma get_np_diff_axis_0 (a : grid Q) (i j : nat) :
  (S i < fst (shape a))%nat ->
  (j < length (nth i a []))%nat -> (j < length (nth (S i) a []))%nat ->
  get 0 (np_diff_axis a 0) i j = get 0 a (S i) j - get 0 a i j.
Proof.
  intros Hi Hj Hj'. unfold get, np_diff_axis. simpl in Hi.
  rewrite (nth_zip_with _ a (List.tl a) i [] [] [])
    by (rewrite ?length_tl; lia).
  rewrite nth_tl.
  now rewrite (nth_zip_with _ _ _ j 0 0 0).
Qed.

Lemma shape_np_diff_axis_1 (a : grid Q) :
  rectangular a ->
  shape (np_diff_axis a 1) = (fst (shape a), (snd (shape a) - 1)%nat)
  /\ rectangular (np_diff_axis a 1).
Proof.
  intros Hrect.
  assert (Hsh : shape (np_diff_axis a 1)
                = (fst (shape a), (snd (shape a) - 1)%nat)).
  { unfold shape, np_diff_axis. rewrite length_map.
    destruct a as [|row a]; [reflexivity|]. simpl.
    now rewrite np_diff_length. }
  split; [exact Hsh|]. unfold rectangular in *. rewrite Hsh. cbn [snd].
  unfold np_diff_axis. apply List.Forall_forall. intros row Hrow.
  apply in_map_iff in Hrow. destruct Hrow as (r & <- & Hr).
  rewrite List.Forall_forall in Hrect. rewrite np_diff_length.
  now rewrite (Hrect r Hr).
Qed.

Lemma shape_np_diff_axis_0 (a : grid Q) :
  rectangular a -> (2 <= fst (shape a))%nat ->
  shape (np_diff_axis a 0) = ((fst (shape a) - 1)%nat, snd (shape a))
  /\ rectangular (np_diff_axis a 0).
Proof.
  intros Hrect Hlen.
  assert (Hrow : forall i, (S i < length a)%nat ->
            length (nth i (np_diff_axis a 0) []) = snd (shape a)).
  { intros i Hi. unfold np_diff_axis.
    rewrite (nth_zip_with _ a (List.tl a) i [] [] [])
      by (rewrite ?length_tl; lia).
    rewrite nth_tl, length_zip_with.
    rewrite !(rectangular_row a) by (assumption || lia). lia. }
  assert (Hn : length (np_diff_axis a 0) = (length a - 1)%nat).
  { unfold np_diff_axis. rewrite length_zip_with, length_tl. lia. }
  assert (Hsh : shape (np_diff_axis a 0)
                = ((fst (shape a) - 1)%nat, snd (shape a))).
  { unfold shape at 1. rewrite Hn. f_equal.
    simpl in Hlen. specialize (Hrow 0%nat ltac:(lia)).
    destruct (np_diff_axis a 0) as [|r0 rest] eqn:E; [|exact Hrow].
    simpl in Hn. lia. }
  split; [exact Hsh|]. unfold rectangular. rewrite Hsh. cbn [snd].
  apply List.Forall_nth. intros i d Hi.
  rewrite (nth_indep _ d []) by exact Hi.
  apply Hrow. rewrite Hn in Hi. lia.
Qed.

Lemma Qsum_telescope (g : nat -> Q) (n : nat) :
  Qsum (map (fun k => g (S k) - g k) (seq 0 n)) == g n - g 0%nat.
Proof.
  induction n as [|n IH].
  - simpl. ring.
  - rewrite seq_S, map_app, Qsum_app, IH. unfold Qsum. simpl. ring.
Qed.

Section DifferenceProperties.

Import DifferenceBetweenAdjacentGridSquares.

Context {unit_t : Type}.

Local Abbreviation Cube := (Cube unit_t).
Local Abbreviation name_of cube ax :=
  (coord_name (cube_coord (cube_grid cube) ax)).
Local Abbreviation other ax := (match ax with X => Y | Y => X end).

Lemma axis_coord_in_coords (cube : Cube) (ax : axis) :
  (cube_coord (cube_grid cube) ax, [axis_dim cube ax]) ∈ coords cube.
Proof.
  unfold coords, dim_coords, axis_dim. apply elem_of_app. left.
  destruct ax, (cube_first_axis cube); cbn [axis_eqb cube_coord];
    rewrite !elem_of_cons; auto.
Qed.

Lemma coord_inv (cube : Cube) (ax : axis) c :
  coord cube (name_of cube ax) = Ok c ->
  c = (cube_coord (cube_grid cube) ax, [axis_dim cube ax])
  /\ unique_name cube ax.
Proof.
  unfold coord.
  destruct (filter _ (coords cube)) as [|c0 [|c1 l]] eqn:E; try discriminate.
  intros [= <-].
  assert (Hin : forall c, c ∈ coords cube ->
            coord_name (fst c) = name_of cube ax -> c = c0).
  { intros c Hc Hname. apply list_elem_of_singleton. rewrite <- E.
    apply list_elem_of_filter. now split. }
  assert (Hax := Hin _ (axis_coord_in_coords cube ax) eq_refl).
  split; [now symmetry|]. split.
  - intros Hname.
    pose proof (Hin _ (axis_coord_in_coords cube (other ax))) as Ho.
    rewrite <- Hax in Ho. specialize (Ho Hname).
    injection Ho as _ Hdim. unfold axis_dim in Hdim.
    destruct ax, (cube_first_axis cube); discriminate.
  - apply List.Forall_forall. intros a Ha Hname.
    assert (Hc : (a, @nil nat) ∈ coords cube).
    { unfold coords. apply elem_of_app. right. apply list_elem_of_In.
      apply in_map_iff. now exists a. }
    specialize (Hin _ Hc Hname). rewrite <- Hax in Hin. discriminate.
Qed.

Lemma coord_returns (cube : Cube) (ax : axis) :
  unique_name cube ax ->
  coord cube (name_of cube ax)
    = Ok (cube_coord (cube_grid cube) ax, [axis_dim cube ax]).
Proof.
  intros [Hother Haux]. unfold coord, coords. rewrite filter_app.
  assert (filter (fun c : Coord unit_t * list nat =>
                    coord_name (fst c) = name_of cube ax)
            (map (fun c => (c, [])) (cube_aux_coords cube)) = []) as ->.
  { induction Haux as [|a l Ha _ IH]; [reflexivity|].
    cbn [map]. now rewrite filter_cons_False. }
  rewrite app_nil_r. unfold dim_coords, axis_dim.
  destruct ax, (cube_first_axis cube); cbn [axis_eqb cube_coord] in *;
    repeat first
      [ rewrite filter_cons_True by reflexivity
      | rewrite filter_cons_False by assumption ];
    reflexivity.
Qed.

(** What a returning pass of the loop over the axes has built. *)
Lemma difference_along_inv (cube d : Cube) (ax : axis) :
  difference_along cube ax = Returns d ->
  unique_name cube ax
  /\ cube_data d = np_diff_axis (cube_data cube) (axis_dim cube ax)
  /\ cube_first_axis d = cube_first_axis cube
  /\ cube_coord (cube_grid d) ax
     = mkCoord (name_of cube ax)
         (coord_units (cube_coord (cube_grid cube) ax))
         (mean_points (points cube ax))
  /\ cube_coord (cube_grid d) (other ax)
     = cube_coord (cube_grid cube) (other ax)
  /\ cube_name d = String.append "difference_of_" (cube_name cube)
  /\ cube_units d = cube_units cube
  /\ cube_attributes d
     = <["form_of_difference" := "forward_difference"]> (cube_attributes cube)
  /\ cube_cell_methods d
     = cube_cell_methods cube
       ++ [mkCellMethod "difference" [name_of cube ax] ["1 grid length"]]
  /\ cube_aux_coords d = cube_aux_coords cube.
Proof.
  unfold difference_along, calculate_difference, create_difference_cube.
  intros H.
  destruct (coord cube (name_of cube ax)) as [c|e] eqn:Hc; [|discriminate].
  destruct (coord_inv _ _ _ Hc) as [-> Huniq].
  cbn [of_result mbind outcome_bind result_bind fst snd] in H.
  injection H as <-.
  split; [exact Huniq|]. destruct Huniq as [Hother _].
  unfold _update_metadata, points.
  cbn [cube_name cube_units cube_attributes cube_cell_methods cube_grid
       cube_first_axis cube_aux_coords cube_data].
  repeat split; destruct ax; cbn [cube_coord cube_x cube_y] in *;
    try reflexivity;
    (case_bool_decide as Hd;
     [ first [ reflexivity
             | exfalso; destruct Hd as [Hd|[]]; now apply Hother ]
     | first [ reflexivity | exfalso; apply Hd; now left ] ]).
Qed.

Lemma difference_along_returns (cube : Cube) (ax : axis) :
  unique_name cube ax -> exists d, difference_along cube ax = Returns d.
Proof.
  intros Huniq.
  unfold difference_along, calculate_difference, create_difference_cube.
  rewrite (coord_returns cube ax Huniq).
  cbn [of_result mbind outcome_bind result_bind fst snd]. eauto.
Qed.

Lemma difference_process_inv (cube : Cube) (diffs : Cube * Cube) (ax : axis) :
  process cube = Returns diffs ->
  difference_along cube ax = Returns (along ax diffs).
Proof.
  unfold process.
  destruct (difference_along cube X) as [x|] eqn:Ex; [|discriminate].
  destruct (difference_along cube Y) as [y|] eqn:Ey; [|discriminate].
  cbn [mbind outcome_bind]. intros [= <-]. now destruct ax.
Qed.

Lemma difference_process_returns (cube : Cube) :
  unique_name cube X -> unique_name cube Y ->
  exists diffs, process cube = Returns diffs.
Proof.
  intros Hx Hy. unfold process.
  destruct (difference_along_returns cube X Hx) as [x ->].
  destruct (difference_along_returns cube Y Hy) as [y ->].
  cbn. eauto.
Qed.

Lemma difference_value (cube d : Cube) (ax : axis) (ix iy : nat) :
  difference_along cube ax = Returns d ->
  rectangular (cube_data cube) ->
  (fst (neighbour ax ix iy)
     < extent (cube_first_axis cube) (cube_data cube) X)%nat ->
  (snd (neighbour ax ix iy)
     < extent (cube_first_axis cube) (cube_data cube) Y)%nat ->
  value_at d ix iy
  = value_at cube (fst (neighbour ax ix iy)) (snd (neighbour ax ix iy))
    - value_at cube ix iy.
Proof.
  intros H Hrect Hx Hy.
  destruct (difference_along_inv cube d ax H) as (_ & Hdata & Hfirst & _).
  unfold value_at. rewrite Hdata, Hfirst.
  unfold axis_dim, extent in *.
  destruct ax, (cube_first_axis cube);
    cbn [axis_eqb at_xy neighbour fst snd] in *.
  - apply get_np_diff_axis_0; try assumption;
      rewrite rectangular_row; simpl in *; (assumption || lia).
  - apply get_np_diff_axis_1; [assumption|].
    rewrite rectangular_row; simpl in *; (assumption || lia).
  - apply get_np_diff_axis_1; [assumption|].
    rewrite rectangular_row; simpl in *; (assumption || lia).
  - apply get_np_diff_axis_0; try assumption;
      rewrite rectangular_row; simpl in *; (assumption || lia).
Qed.

Lemma difference_extent (cube d : Cube) (ax : axis) :
  difference_along cube ax = Returns d ->
  rectangular (cube_data cube) ->
  (2 <= extent (cube_first_axis cube) (cube_data cube) ax)%nat ->
  rectangular (cube_data d)
  /\ extent (cube_first_axis d) (cube_data d) ax
     = (extent (cube_first_axis cube) (cube_data cube) ax - 1)%nat
  /\ extent (cube_first_axis d) (cube_data d) (other ax)
     = extent (cube_first_axis cube) (cube_data cube) (other ax).
Proof.
  intros H Hrect Hlen.
  destruct (difference_along_inv cube d ax H) as (_ & Hdata & Hfirst & _).
  rewrite Hdata, Hfirst. unfold axis_dim, extent in *.
  destruct ax, (cube_first_axis cube); cbn [axis_eqb] in *.
  - destruct (shape_np_diff_axis_0 _ Hrect Hlen) as [-> Hr]. now split.
  - destruct (shape_np_diff_axis_1 _ Hrect) as [-> Hr]. now split.
  - destruct (shape_np_diff_axis_1 _ Hrect) as [-> Hr]. now split.
  - destruct (shape_np_diff_axis_0 _ Hrect Hlen) as [-> Hr]. now split.
Qed.

(** X14.  When [process] returns, it returns the forward differences of the
    data along x and along y: the value of each difference cube at a cell
    is the value of the input at the next cell along the axis minus its
    value at the cell.  Along its axis a difference cube has one cell less
    than the input, along the other axis as many; and it returns whenever
    the cube has at least two points along each axis and no other
    coordinate of the cube has the name of its x or of its y coordinate. *)
Theorem X14_forward_differences (cube : Cube) :
  rectangular (cube_data cube) ->
  let n := extent (cube_first_axis cube) (cube_data cube) in
  (forall diffs ax, process cube = Returns diffs ->
     let d := along ax diffs in
     (forall ix iy,
        (fst (neighbour ax ix iy) < n X)%nat ->
        (snd (neighbour ax ix iy) < n Y)%nat ->
        value_at d ix iy
        = value_at cube (fst (neighbour ax ix iy)) (snd (neighbour ax ix iy))
          - value_at cube ix iy)
     /\ ((2 <= n ax)%nat ->
         rectangular (cube_data d)
         /\ extent (cube_first_axis d) (cube_data d) ax = (n ax - 1)%nat
         /\ extent (cube_first_axis d) (cube_data d) (other ax)
            = n (other ax)))
  /\ (unique_name cube X -> unique_name cube Y ->
      (2 <= length (points cube X))%nat ->
      (2 <= length (points cube Y))%nat ->
      exists diffs, process cube = Returns diffs).
Proof.
  intros Hrect n. split.
  - intros diffs ax H d.
    pose proof (difference_process_inv cube diffs ax H) as Hax. split.
    + intros ix iy Hx Hy. now apply difference_value.
    + intros Hlen. now apply difference_extent.
  - intros Hx Hy _ _. now apply difference_process_returns.
Qed.

Lemma mean_points_cons (p p' : Q) (ps : list Q) :
  mean_points (p :: p' :: ps) = (p' + p) / 2 :: mean_points (p' :: ps).
Proof. reflexivity. Qed.

Lemma length_mean_points (ps : list Q) :
  length (mean_points ps) = (length ps - 1)%nat.
Proof.
  induction ps as [|p [|p' ps] IH]; try reflexivity.
  rewrite mean_points_cons. cbn [length] in *. rewrite IH. lia.
Qed.

Lemma nth_mean_points (ps : list Q) (k : nat) :
  (S k < length ps)%nat ->
  nth k (mean_points ps) 0 = (nth (S k) ps 0 + nth k ps 0) / 2.
Proof.
  revert k. induction ps as [|p [|p' ps] IH]; intros k H; simpl in H;
    try lia.
  rewrite mean_points_cons. destruct k as [|k]; [reflexivity|].
  cbn [nth]. apply IH. simpl. lia.
Qed.

(** A property of the differences between points that passes to the mean
    of two differences passes to the differences between midpoints. *)
Lemma diffs_of_mean_points (P : Q -> Prop) (ps : list Q) :
  (forall a b e, P a -> P b -> e == (a + b) / 2 -> P e) ->
  Forall P (np_diff ps) -> Forall P (np_diff (mean_points ps)).
Proof.
  intros Hmean. induction ps as [|p ps IH]; [constructor|].
  destruct ps as [|p' [|p'' ps]]; try constructor.
  - pose proof H as H'. inversion H' as [|? ? Hd Hrest]; subst.
    change (np_diff (p' :: p'' :: ps))
      with ((p'' - p') :: np_diff (p'' :: ps)) in Hrest.
    inversion Hrest as [|? ? Hd' _]; subst.
    apply (Hmean _ _ _ Hd Hd'). field.
  - apply IH.
    change (np_diff (p :: p' :: p'' :: ps))
      with ((p' - p) :: np_diff (p' :: p'' :: ps)) in H.
    now inversion H.
Qed.

(** X15.  The coordinates of the difference cubes.  The difference cube
    along an axis keeps the coordinate of the other axis as it is; its
    coordinate along the axis keeps its name and units, and its points are
    the midpoints of the consecutive points of the input: one point less,
    the point [k] being the mean of the points [k] and [k + 1].  Points
    that increase strictly, or decrease strictly, give midpoints that do
    so. *)
Theorem X15_difference_coordinates (cube : Cube) (diffs : Cube * Cube)
    (ax : axis) :
  process cube = Returns diffs ->
  let d := along ax diffs in
  let ps := points cube ax in
  cube_coord (cube_grid d) (other ax) = cube_coord (cube_grid cube) (other ax)
  /\ coord_name (cube_coord (cube_grid d) ax) = name_of cube ax
  /\ coord_units (cube_coord (cube_grid d) ax)
     = coord_units (cube_coord (cube_grid cube) ax)
  /\ length (points d ax) = (length ps - 1)%nat
  /\ (forall k, (S k < length ps)%nat ->
        nth k (points d ax) 0 = (nth (S k) ps 0 + nth k ps 0) / 2)
  /\ (increasing ps -> increasing (points d ax))
  /\ (decreasing ps -> decreasing (points d ax)).
Proof.
  intros H d ps.
  pose proof (difference_process_inv cube diffs ax H) as Hax.
  destruct (difference_along_inv cube d ax Hax)
    as (_ & _ & _ & Hcoord & Hother & _).
  unfold points in *. fold d. rewrite Hcoord. cbn [coord_name coord_units
    coord_points].
  split; [exact Hother|]. split; [reflexivity|]. split; [reflexivity|].
  split; [apply length_mean_points|]. split; [apply nth_mean_points|].
  split; apply diffs_of_mean_points; intros a b e Ha Hb ->.
  - apply Qlt_shift_div_l; [reflexivity|]. rewrite Qmult_0_l.
    rewrite <- (Qplus_0_l 0). apply Qplus_lt_le_compat;
      [exact Ha | now apply Qlt_le_weak].
  - apply Qlt_shift_div_r; [reflexivity|]. rewrite Qmult_0_l.
    rewrite <- (Qplus_0_l 0). apply Qplus_lt_le_compat;
      [exact Ha | now apply Qlt_le_weak].
Qed.

Lemma coord_raises (cube : Cube) (name : string) e :
  coord cube name = Raise e -> e = CoordinateNotFound name.
Proof.
  unfold coord. destruct (filter _ _) as [|c [|c' l]]; now intros [= <-].
Qed.

(** X16.  The metadata of the difference cubes.  The difference cube along
    an axis is called difference_of_ followed by the name of the input; it
    has the units, the auxiliary coordinates and the attributes of the
    input, but for the attribute form_of_difference, which is
    forward_difference; and its cell methods are those of the input
    followed by one method "difference" over the coordinate of the axis.
    When the x and the y coordinate have the same name the coordinate
    cannot be found by name, and [process] raises. *)
Theorem X16_difference_metadata (cube : Cube) :
  (forall diffs ax, process cube = Returns diffs ->
     let d := along ax diffs in
     cube_name d = String.append "difference_of_" (cube_name cube)
     /\ cube_units d = cube_units cube
     /\ cube_aux_coords d = cube_aux_coords cube
     /\ cube_attributes d !! "form_of_difference" = Some "forward_difference"
     /\ (forall key, key <> "form_of_difference" ->
           cube_attributes d !! key = cube_attributes cube !! key)
     /\ cube_cell_methods d
        = cube_cell_methods cube
          ++ [mkCellMethod "difference" [name_of cube ax] ["1 grid length"]])
  /\ (name_of cube Y = name_of cube X ->
      process cube = Raises (Error (CoordinateNotFound (name_of cube X)))).
Proof.
  split.
  - intros diffs ax H d.
    pose proof (difference_process_inv cube diffs ax H) as Hax.
    destruct (difference_along_inv cube d ax Hax)
      as (_ & _ & _ & _ & _ & Hname & Hunits & Hattrs & Hcm & Haux).
    rewrite Hattrs. repeat split; try assumption.
    + apply lookup_insert_eq.
    + intros key Hkey. now apply lookup_insert_ne.
  - intros Hsame. unfold process, difference_along, calculate_difference.
    destruct (coord cube (name_of cube X)) as [c|e] eqn:Hc.
    + destruct (coord_inv cube X c Hc) as [_ [Hother _]].
      now destruct Hother.
    + now rewrite (coord_raises _ _ _ Hc).
Qed.

Lemma diffs_of_converted_midpoints (f : Q -> Q) (s : Q) (ps : list Q) :
  (forall a b, f ((a + b) / 2) == (f a + f b) / 2) ->
  Forall (fun d => d == s) (np_diff (map f ps)) ->
  Forall (fun d => d == s) (np_diff (map f (mean_points ps))).
Proof.
  intros Hmid. induction ps as [|p ps IH]; [constructor|].
  destruct ps as [|p' [|p'' ps]]; [constructor | constructor |].
  intros Hall. rewrite mean_points_cons.
  change (np_diff (map f (p :: p' :: p'' :: ps)))
    with ((f p' - f p) :: np_diff (map f (p' :: p'' :: ps))) in Hall.
  inversion Hall as [|? ? Hd Hrest]; subst.
  specialize (IH Hrest). rewrite mean_points_cons in IH |- *.
  change (np_diff (map f (p' :: p'' :: ps)))
    with ((f p'' - f p') :: np_diff (map f (p'' :: ps))) in Hrest.
  inversion Hrest as [|? ? Hd' _]; subst.
  change (np_diff (map f ((p' + p) / 2 :: (p'' + p') / 2
                           :: mean_points (p'' :: ps))))
    with ((f ((p'' + p') / 2) - f ((p' + p) / 2))
          :: np_diff (map f ((p'' + p') / 2 :: mean_points (p'' :: ps)))).
  constructor; [|exact IH].
  rewrite !Hmid.
  assert (E : (f p'' + f p') / 2 - (f p' + f p) / 2
              == ((f p'' - f p') + (f p' - f p)) / 2) by field.
  rewrite E, Hd, Hd'. field.
Qed.

Lemma abs_of_equal_diffs (s : Q) (ds : list Q) :
  Forall (fun d => d == s) ds -> Forall (fun d => d == Qabs s) (map Qabs ds).
Proof.
  induction 1 as [|d ds Hd _ IH]; constructor; [|exact IH].
  now rewrite Hd.
Qed.

(** X17.  Differencing keeps the grid spacing.  Along an axis of at least
    three points that are equally spaced by the step [s] in the requested
    units (the conversion of units carrying midpoints to midpoints),
    [calculate_grid_spacing] returns [|s|] for the input, and returns
    [|s|] again for the difference cube along that axis. *)
Theorem X17_difference_keeps_the_spacing
    (unit_convert : unit_t -> unit_t -> option (Q -> Q))
    (cube : Cube) (diffs : Cube * Cube) (ax : axis) (units : unit_t)
    (f : Q -> Q) (s rtol : Q) :
  process cube = Returns diffs ->
  unit_convert (coord_units (cube_coord (cube_grid cube) ax)) units = Some f ->
  (forall a b, f ((a + b) / 2) == (f a + f b) / 2) ->
  (3 <= length (points cube ax))%nat ->
  Forall (fun d => d == s) (np_diff (map f (points cube ax))) ->
  0 <= rtol ->
  exists m m',
    calculate_grid_spacing unit_convert (cube_grid cube) units ax rtol
      = Ok (f_fin m)
    /\ calculate_grid_spacing unit_convert (cube_grid (along ax diffs)) units
         ax rtol
       = Ok (f_fin m')
    /\ m == Qabs s /\ m' == Qabs s.
Proof.
  intros H Hconv Hmid Hlen Hall Hrtol.
  pose proof (difference_process_inv cube diffs ax H) as Hax.
  destruct (difference_along_inv cube _ ax Hax)
    as (_ & _ & _ & Hcoord & _).
  unfold points in *.
  destruct (spacing_of_equal_diffs unit_convert (cube_grid cube) units ax rtol
              (mkCoord (name_of cube ax) units
                 (map f (coord_points (cube_coord (cube_grid cube) ax))))
              (Qabs s)) as (m & Hm & Em).
  - unfold convert_units. now rewrite Hconv.
  - exact Hrtol.
  - cbn [coord_points]. intros Hnil. apply (f_equal (@length Q)) in Hnil.
    rewrite !length_map, np_diff_length, length_map in Hnil.
    simpl in Hnil. lia.
  - cbn [coord_points]. now apply abs_of_equal_diffs.
  - destruct (spacing_of_equal_diffs unit_convert
                (cube_grid (along ax diffs)) units ax rtol
                (mkCoord (name_of cube ax) units
                   (map f (mean_points
                             (coord_points (cube_coord (cube_grid cube) ax)))))
                (Qabs s)) as (m' & Hm' & Em').
    + unfold convert_units. rewrite Hcoord. cbn [coord_units coord_name
        coord_points]. now rewrite Hconv.
    + exact Hrtol.
    + cbn [coord_points]. intros Hnil. apply (f_equal (@length Q)) in Hnil.
      rewrite !length_map, np_diff_length, length_map, length_mean_points
        in Hnil.
      simpl in Hnil. lia.
    + cbn [coord_points]. apply abs_of_equal_diffs.
      now apply diffs_of_converted_midpoints.
    + now exists m, m'.
Qed.

(** X18.  The differences along an axis telescope: for every line of cells
    along x, the differences along x add up to the value of the input at
    the last cell of the line minus its value at the first; and likewise
    along y. *)
Theorem X18_differences_telescope (cube : Cube) (diffs : Cube * Cube) :
  process cube = Returns diffs ->
  rectangular (cube_data cube) ->
  let nx := extent (cube_first_axis cube) (cube_data cube) X in
  let ny := extent (cube_first_axis cube) (cube_data cube) Y in
  (forall iy, (1 <= nx)%nat -> (iy < ny)%nat ->
     Qsum (map (fun ix => value_at (along X diffs) ix iy)
             (seq 0 (nx - 1)))
     == value_at cube (nx - 1) iy - value_at cube 0 iy)
  /\ (forall ix, (ix < nx)%nat -> (1 <= ny)%nat ->
        Qsum (map (fun iy => value_at (along Y diffs) ix iy)
                (seq 0 (ny - 1)))
        == value_at cube ix (ny - 1) - value_at cube ix 0).
Proof.
  intros H Hrect nx ny. split.
  - intros iy Hnx Hiy.
    rewrite (map_ext_in _ (fun ix => value_at cube (S ix) iy
                                     - value_at cube ix iy)).
    + apply (Qsum_telescope (fun ix => value_at cube ix iy)).
    + intros ix Hix. apply in_seq in Hix.
      apply (difference_value cube _ X ix iy
               (difference_process_inv cube diffs X H) Hrect);
        cbn [neighbour fst snd]; fold nx ny; lia.
  - intros ix Hix Hny.
    rewrite (map_ext_in _ (fun iy => value_at cube ix (S iy)
                                     - value_at cube ix iy)).
    + apply (Qsum_telescope (fun iy => value_at cube ix iy)).
    + intros iy Hiy. apply in_seq in Hiy.
      apply (difference_value cube _ Y ix iy
               (difference_process_inv cube diffs Y H) Hrect);
        cbn [neighbour fst snd]; fold nx ny; lia.
Qed.

End DifferenceProperties.

(** ** Gradients between adjacent grid squares *)

Lemma at_xy_map {A B} (h : A -> B) (dA : A) (dB : B) (first : axis)
    (a : grid A) (ix iy : nat) :
  rectangular a ->
  (ix < extent first a X)%nat -> (iy < extent first a Y)%nat ->
  at_xy dB first (map (map h) a) ix iy = h (at_xy dA first a ix iy).
Proof.
  intros Hrect Hx Hy.
  assert (Hget : forall i j, (i < fst (shape a))%nat ->
            (j < snd (shape a))%nat ->
            get dB (map (map h) a) i j = h (get dA a i j)).
  { intros i j Hi Hj. unfold get. simpl in Hi.
    rewrite (nth_indep _ [] (map h [])) by now rewrite length_map.
    rewrite (map_nth (map h) a [] i).
    rewrite (nth_indep _ dB (h dA)).
    - apply map_nth.
    - rewrite length_map, (rectangular_row a i Hrect Hi). exact Hj. }
  unfold at_xy, extent in *. destruct first; cbn [axis_eqb] in *;
    now apply Hget.
Qed.

Section GradientProperties.

Import DifferenceBetweenAdjacentGridSquares.
Import GradientBetweenAdjacentGridSquares.

Context {unit_t GradientCube : Type}.
Variable unit_divide : unit_t -> unit_t -> unit_t.
Variable MANDATORY_ATTRIBUTE_DEFAULTS : gmap string string.
Variable create_new_diagnostic_cube :
  string -> unit_t -> Cube unit_t -> gmap string string -> grid npfloat ->
  result GradientCube.
Variable cube_regrid : GradientCube -> Cube unit_t -> result GradientCube.

Local Abbreviation Cube := (Cube unit_t).
Local Abbreviation other ax := (match ax with X => Y | Y => X end).
Local Abbreviation difference := DifferenceBetweenAdjacentGridSquares.process.
Local Abbreviation gradient :=
  (GradientBetweenAdjacentGridSquares.process unit_divide
     MANDATORY_ATTRIBUTE_DEFAULTS create_new_diagnostic_cube cube_regrid).

(** The gradients along an axis whose first two midpoints are [sp]
    apart. *)
Lemma gradient_value (cube : Cube) (diffs : Cube * Cube) (ax : axis)
    (sp : Q) (ds : list Q) :
  difference cube = Returns diffs ->
  rectangular (cube_data cube) ->
  np_diff (mean_points (points cube ax)) = sp :: ds ->
  ~ sp == 0 ->
  exists g,
    _gradient_from_diff (along ax diffs) ax = Returns g
    /\ forall ix iy,
         (fst (neighbour ax ix iy)
            < extent (cube_first_axis cube) (cube_data cube) X)%nat ->
         (snd (neighbour ax ix iy)
            < extent (cube_first_axis cube) (cube_data cube) Y)%nat ->
         at_xy f_nan (cube_first_axis cube) g ix iy
         = f_fin ((value_at cube (fst (neighbour ax ix iy))
                             (snd (neighbour ax ix iy))
                   - value_at cube ix iy) / sp).
Proof.
  intros H Hrect Hsp Hnz.
  pose proof (difference_process_inv cube diffs ax H) as Hax.
  destruct (difference_along_inv cube _ ax Hax)
    as (_ & _ & Hfirst & Hcoord & _).
  unfold _gradient_from_diff. rewrite Hcoord. cbn [coord_points].
  rewrite Hsp. eexists. split; [reflexivity|].
  intros ix iy Hx Hy.
  assert (Hlen : (2 <= extent (cube_first_axis cube) (cube_data cube) ax)%nat).
  { destruct ax; cbn [neighbour fst snd] in Hx, Hy; lia. }
  destruct (difference_extent cube _ ax Hax Hrect Hlen) as (Hr & Ea & Eo).
  rewrite <- Hfirst.
  rewrite (at_xy_map _ 0 f_nan _ _ ix iy Hr).
  - fold (value_at (along ax diffs) ix iy).
    rewrite (difference_value cube _ ax ix iy Hax Hrect Hx Hy).
    unfold np_div. apply Qeq_bool_false in Hnz. now rewrite Hnz.
  - destruct ax; cbn [neighbour fst snd] in *; rewrite ?Ea, ?Eo; lia.
  - destruct ax; cbn [neighbour fst snd] in *; rewrite ?Ea, ?Eo; lia.
Qed.

(** X19.  The gradient along an axis is the forward difference of the data
    divided by one number for the whole axis: the distance between the
    first two midpoints of the axis, half the distance from its first to
    its third point, whatever the spacing of the points further on. *)
Theorem X19_gradient_uses_the_first_spacing (cube : Cube)
    (diffs : Cube * Cube) (ax : axis) (p0 p1 p2 : Q) (ps : list Q) :
  difference cube = Returns diffs ->
  rectangular (cube_data cube) ->
  points cube ax = p0 :: p1 :: p2 :: ps ->
  ~ p2 == p0 ->
  exists g,
    _gradient_from_diff (along ax diffs) ax = Returns g
    /\ forall ix iy,
         (fst (neighbour ax ix iy)
            < extent (cube_first_axis cube) (cube_data cube) X)%nat ->
         (snd (neighbour ax ix iy)
            < extent (cube_first_axis cube) (cube_data cube) Y)%nat ->
         exists q,
           at_xy f_nan (cube_first_axis cube) g ix iy = f_fin q
           /\ q == (value_at cube (fst (neighbour ax ix iy))
                               (snd (neighbour ax ix iy))
                    - value_at cube ix iy) / ((p2 - p0) / 2).
Proof.
  intros H Hrect Hps Hnz.
  assert (E : (p2 + p1) / 2 - (p1 + p0) / 2 == (p2 - p0) / 2) by field.
  destruct (gradient_value cube diffs ax ((p2 + p1) / 2 - (p1 + p0) / 2)
              (np_diff (mean_points (p1 :: p2 :: ps))) H Hrect)
    as (g & Hg & Hval).
  - now rewrite Hps.
  - rewrite E. intros H0. apply Hnz.
    assert (E2 : p2 == (p2 - p0) / 2 * 2 + p0) by field.
    rewrite E2, H0. ring.
  - exists g. split; [exact Hg|]. intros ix iy Hx Hy.
    eexists. split; [now apply Hval|]. now rewrite E.
Qed.

(** X20.  On a field that is linear along an axis, with slope [a], over
    points equally spaced by the step [s] (of either sign), every gradient
    along that axis is [a]. *)
Theorem X20_gradient_of_a_linear_field (cube : Cube) (diffs : Cube * Cube)
    (ax : axis) (a s : Q) (b : nat -> Q) :
  difference cube = Returns diffs ->
  rectangular (cube_data cube) ->
  let n := extent (cube_first_axis cube) (cube_data cube) in
  length (points cube ax) = n ax ->
  (3 <= n ax)%nat ->
  Forall (fun d => d == s) (np_diff (points cube ax)) ->
  ~ s == 0 ->
  (forall ix iy, (ix < n X)%nat -> (iy < n Y)%nat ->
     value_at cube ix iy
     == a * nth (along ax (ix, iy)) (points cube ax) 0
        + b (along (other ax) (ix, iy))) ->
  exists g,
    _gradient_from_diff (along ax diffs) ax = Returns g
    /\ forall ix iy,
         (fst (neighbour ax ix iy) < n X)%nat ->
         (snd (neighbour ax ix iy) < n Y)%nat ->
         exists q,
           at_xy f_nan (cube_first_axis cube) g ix iy = f_fin q /\ q == a.
Proof.
  intros H Hrect n Hpoints Hlen Hall Hnz Hlin.
  assert (Hstep : forall k, (S k < n ax)%nat ->
            nth (S k) (points cube ax) 0 - nth k (points cube ax) 0 == s).
  { intros k Hk. rewrite <- nth_np_diff by (rewrite Hpoints; exact Hk).
    rewrite List.Forall_forall in Hall. apply Hall, nth_In.
    rewrite np_diff_length, Hpoints. lia. }
  destruct (points cube ax) as [|p0 [|p1 [|p2 ps]]] eqn:Hps;
    try (simpl in Hpoints; lia).
  assert (E : (p2 + p1) / 2 - (p1 + p0) / 2 == s).
  { pose proof (Hstep 0%nat ltac:(lia)) as H0.
    pose proof (Hstep 1%nat ltac:(lia)) as H1. cbn [nth] in H0, H1.
    assert (E' : (p2 + p1) / 2 - (p1 + p0) / 2
                 == ((p2 - p1) + (p1 - p0)) / 2) by field.
    rewrite E', H0, H1. field. }
  destruct (gradient_value cube diffs ax ((p2 + p1) / 2 - (p1 + p0) / 2)
              (np_diff (mean_points (p1 :: p2 :: ps))) H Hrect)
    as (g & Hg & Hval).
  - now rewrite Hps.
  - now rewrite E.
  - exists g. split; [exact Hg|]. intros ix iy Hx Hy.
    eexists. split; [now apply Hval|].
    rewrite E.
    assert (Hin : (ix < n X)%nat /\ (iy < n Y)%nat).
    { destruct ax; cbn [neighbour fst snd] in Hx, Hy; lia. }
    destruct Hin as [Hix Hiy].
    rewrite (Hlin _ _ Hx Hy), (Hlin _ _ Hix Hiy).
    destruct ax; cbn [neighbour fst snd along] in *.
    + assert (E2 : a * nth (S ix) (p0 :: p1 :: p2 :: ps) 0 + b iy
                   - (a * nth ix (p0 :: p1 :: p2 :: ps) 0 + b iy)
                   == a * (nth (S ix) (p0 :: p1 :: p2 :: ps) 0
                           - nth ix (p0 :: p1 :: p2 :: ps) 0)) by ring.
      rewrite E2, (Hstep ix Hx). now field.
    + assert (E2 : a * nth (S iy) (p0 :: p1 :: p2 :: ps) 0 + b ix
                   - (a * nth iy (p0 :: p1 :: p2 :: ps) 0 + b ix)
                   == a * (nth (S iy) (p0 :: p1 :: p2 :: ps) 0
                           - nth iy (p0 :: p1 :: p2 :: ps) 0)) by ring.
      rewrite E2, (Hstep iy Hy). now field.
Qed.

(** X21.  A cube with exactly two points along an axis has no gradient.
    Its difference cubes are built (no other coordinate having the name of
    the x or of the y coordinate), but the difference cube along that axis
    has a single point, so the spacing of its points cannot be read: with
    two points along x (and at least two along y) [process] raises
    [IndexError], whatever the collaborators do, and with two points along
    y it never returns. *)
Theorem X21_no_gradient_along_two_points (self : t) (cube : Cube) :
  unique_name cube X -> unique_name cube Y ->
  (length (points cube X) = 2%nat -> (2 <= length (points cube Y))%nat ->
   gradient self cube = Raises IndexError)
  /\ (length (points cube Y) = 2%nat ->
      forall grads, gradient self cube <> Returns grads).
Proof.
  intros Hx Hy.
  destruct (difference_process_returns cube Hx Hy) as [diffs Hd].
  assert (Hone : forall ax, length (points cube ax) = 2%nat ->
            _gradient_from_diff (along ax diffs) ax = Raises IndexError).
  { intros ax Hlen.
    destruct (difference_along_inv cube _ ax
                (difference_process_inv cube diffs ax Hd))
      as (_ & _ & _ & Hcoord & _).
    unfold _gradient_from_diff. rewrite Hcoord. cbn [coord_points].
    destruct (points cube ax) as [|p0 [|p1 [|p2 ps]]]; try discriminate.
    reflexivity. }
  unfold GradientBetweenAdjacentGridSquares.process. rewrite Hd.
  cbn [mbind outcome_bind]. split.
  - intros Hlen _. unfold gradient_along.
    change (fst diffs) with (along X diffs). now rewrite (Hone X Hlen).
  - intros Hlen grads.
    destruct (gradient_along _ _ _ _ self cube (fst diffs) X) as [gx|];
      [|discriminate].
    cbn [mbind outcome_bind]. unfold gradient_along.
    change (snd diffs) with (along Y diffs). now rewrite (Hone Y Hlen).
Qed.

End GradientProperties.

(** ** The coordinate values of every grid point *)

Lemma nth_map_in {A B} (f : A -> B) (l : list A) (i : nat) (dA : A) (dB : B) :
  (i < length l)%nat -> nth i (map f l) dB = f (nth i l dA).
Proof.
  intros Hi. rewrite (nth_indep _ dB (f dA)) by now rewrite length_map.
  apply map_nth.
Qed.

(** X22.  [get_grid_y_x_values] returns two arrays of [ny] rows of [nx]
    cells, [ny] and [nx] being the numbers of points of the y and of the x
    coordinate; the cell [(i, j)] of the first holds the point [i] of the y
    coordinate and the cell [(i, j)] of the second the point [j] of the x
    coordinate. *)
Theorem X22_grid_y_x_values {unit_t : Type} (cube : GridCube unit_t) :
  let xs := coord_points (cube_coord cube X) in
  let ys := coord_points (cube_coord cube Y) in
  let all_y := fst (get_grid_y_x_values cube) in
  let all_x := snd (get_grid_y_x_values cube) in
  length all_y = length ys /\ length all_x = length ys
  /\ forall i, (i < length ys)%nat ->
       length (nth i all_y []) = length xs
       /\ length (nth i all_x []) = length xs
       /\ forall j, (j < length xs)%nat ->
            get 0 all_y i j == nth i ys 0 /\ get 0 all_x i j == nth j xs 0.
Proof.
  intros xs ys all_y all_x. subst all_y all_x.
  unfold get_grid_y_x_values. fold xs ys. cbn [fst snd].
  rewrite !length_map. split; [reflexivity|]. split; [reflexivity|].
  intros i Hi. unfold get.
  rewrite (nth_map_in _ ys i 0 []) by exact Hi.
  rewrite (nth_map_in _ (map (fun _ => 0) ys) i 0 [])
    by (now rewrite length_map).
  rewrite !length_map. split; [reflexivity|]. split; [reflexivity|].
  intros j Hj. split.
  - rewrite (nth_map_in _ (map (fun _ => 0) xs) j 0 0)
      by (now rewrite length_map).
    rewrite (nth_map_in _ xs j 0 0) by exact Hj. apply Qplus_0_r.
  - rewrite (nth_map_in _ xs j 0 0) by exact Hj.
    rewrite (nth_map_in _ ys i 0 0) by exact Hi. apply Qplus_0_l.
Qed.

(** * The further properties at concrete inputs *)

Section FurtherExampleRuns.

Import Examples.

Lemma X1_single_point_axis_witness :
  calculate_grid_spacing convert_metres single_point_grid tt X default_rtol
    = Ok f_nan
  /\ distance_to_number_of_grid_cells tt convert_metres single_point_grid
       5000 X true = Raise NanToInteger
  /\ check_if_grid_is_equal_area tt convert_metres single_point_grid true
     = Raise UnequalXYSpacing.
Proof.
  destruct (X1_single_point_axis tt convert_metres single_point_grid X
              (mkCoord "projection_x_coordinate" tt [1000]) eq_refl)
    as (Hnan & Hcells & Harea).
  - simpl. lia.
  - split; [apply Hnan|]. split.
    + apply Hcells. reflexivity.
    + apply (Harea f_nan (f_fin (6000 / 3))).
      * apply Hnan.
      * vm_compute. reflexivity.
Defined.

Lemma X2_unequal_spacing_is_checked_one_way_witness :
  number_of_grid_cells_to_distance tt convert_metres grid_2km_by_4km 3
    = Raise UnequalXYSpacing
  /\ exists n,
       (1 <= n)%Z
       /\ distance_to_number_of_grid_cells tt convert_metres grid_2km_by_4km
            5000 X true = Ok (IntCells n).
Proof.
  destruct (X2_unequal_spacing_is_checked_one_way tt convert_metres
              grid_2km_by_4km (6000 / 3) (8000 / 2))
    as (_ & _ & Hdistance & Hcells).
  - vm_compute. reflexivity.
  - vm_compute. reflexivity.
  - vm_compute. discriminate.
  - vm_compute. reflexivity.
  - split; [apply Hdistance|]. apply Hcells. vm_compute. discriminate.
Defined.

Lemma X3_coincident_points_give_infinite_cells_witness :
  distance_to_number_of_grid_cells tt convert_metres collapsed_axis_grid
    1000 X true = Raise InfinityToInteger
  /\ distance_to_number_of_grid_cells tt convert_metres collapsed_axis_grid
       1000 X false = Ok (FloatCells (f_inf false)).
Proof.
  destruct (X3_coincident_points_give_infinite_cells tt convert_metres
              collapsed_axis_grid X
              (mkCoord "projection_x_coordinate" tt [500; 500; 500])
              500 1000 eq_refl)
    as (_ & Hint & Hfloat).
  - simpl. lia.
  - repeat constructor.
  - reflexivity.
  - split; assumption.
Defined.

Lemma X6_cells_grow_with_distance_witness :
  exists n2,
    distance_to_number_of_grid_cells tt convert_metres grid_2km 7000 X true
      = Ok (IntCells n2)
    /\ (2 <= n2)%Z.
Proof.
  apply (X6_cells_grow_with_distance tt convert_metres grid_2km X 5000 7000 2).
  - vm_compute. reflexivity.
  - vm_compute. discriminate.
Defined.

Lemma X7_spacing_of_a_reversed_axis_witness :
  exists a b,
    calculate_grid_spacing convert_metres grid_2km tt X default_rtol
      = Ok (f_fin a)
    /\ calculate_grid_spacing convert_metres descending_grid tt X default_rtol
       = Ok (f_fin b)
    /\ a == b.
Proof.
  pose proof (X7_spacing_of_a_reversed_axis convert_metres grid_2km
                descending_grid tt X default_rtol eq_refl eq_refl eq_refl)
    as H.
  destruct (calculate_grid_spacing convert_metres grid_2km tt X default_rtol)
    as [[| |a]|] eqn:Ea; try discriminate (grid_2km_spacing X);
    try (rewrite grid_2km_spacing in Ea; discriminate Ea).
  destruct (calculate_grid_spacing convert_metres descending_grid tt X
              default_rtol) as [[| |b]|]; try contradiction.
  now exists a, b.
Defined.

(** The masked hot cell does not spread, and stays as it is. *)
Example masked_hot_cell_does_not_spread :
  vicinity without_land_mask hot_cell_masked = Ok hot_cell_masked.
Proof. vm_compute. reflexivity. Qed.

Lemma X8_vicinity_keeps_shape_mask_and_metadata_witness :
  exists out,
    vicinity without_land_mask hot_cell_masked = Ok out
    /\ OccurrenceWithinVicinity.cube_shape out
       = OccurrenceWithinVicinity.cube_shape hot_cell_masked
    /\ OccurrenceWithinVicinity.masked_at out 1 2 = true
    /\ OccurrenceWithinVicinity.value_at out 1 2
       = OccurrenceWithinVicinity.value_at hot_cell_masked 1 2.
Proof.
  assert (Hrun : exists out,
            vicinity without_land_mask hot_cell_masked = Ok out)
    by (eexists; vm_compute; reflexivity).
  destruct Hrun as [out Hrun]. exists out. split; [exact Hrun|].
  destruct (X8_vicinity_keeps_shape_mask_and_metadata tt convert_metres
              fill_float32 zeros without_land_mask hot_cell_masked out Hrun)
    as (_ & _ & _ & Hshape & Hcells).
  split; [exact Hshape|].
  destruct (Hcells 1%nat 2%nat) as [Hmask Hvalue].
  - vm_compute. lia.
  - vm_compute. lia.
  - split; [rewrite Hmask; reflexivity | now apply Hvalue].
Defined.

Lemma X9_vicinity_is_monotone_in_the_data_witness :
  exists out1 out2,
    vicinity with_land_mask calm_sea = Ok out1
    /\ vicinity with_land_mask hot_sea_cell = Ok out2
    /\ OccurrenceWithinVicinity.value_at out1 0 2
       <= OccurrenceWithinVicinity.value_at out2 0 2.
Proof.
  assert (H1 : exists out, vicinity with_land_mask calm_sea = Ok out)
    by (eexists; vm_compute; reflexivity).
  assert (H2 : exists out, vicinity with_land_mask hot_sea_cell = Ok out)
    by (eexists; vm_compute; reflexivity).
  destruct H1 as [out1 H1]. destruct H2 as [out2 H2].
  exists out1, out2. split; [exact H1|]. split; [exact H2|].
  apply (X9_vicinity_is_monotone_in_the_data tt convert_metres fill_float32
           zeros with_land_mask calm_sea hot_sea_cell out1 out2);
    try reflexivity; try assumption.
  - intros i j Hi Hj _.
    destruct i as [|[|[|[|i]]]]; try (vm_compute in Hi; lia);
      destruct j as [|[|[|[|j]]]]; try (vm_compute in Hj; lia);
      vm_compute; discriminate.
  - vm_compute. lia.
  - vm_compute. lia.
Defined.

Lemma X10_vicinity_grows_with_the_radius_witness :
  exists out out',
    vicinity unconfigured hot_sea_cell = Ok out
    /\ vicinity without_land_mask hot_sea_cell = Ok out'
    /\ OccurrenceWithinVicinity.value_at out 0 1
       <= OccurrenceWithinVicinity.value_at out' 0 1.
Proof.
  assert (H1 : exists out, vicinity unconfigured hot_sea_cell = Ok out)
    by (eexists; vm_compute; reflexivity).
  assert (H2 : exists out, vicinity without_land_mask hot_sea_cell = Ok out)
    by (eexists; vm_compute; reflexivity).
  destruct H1 as [out H1]. destruct H2 as [out' H2].
  exists out, out'. split; [exact H1|]. split; [exact H2|].
  apply (X10_vicinity_grows_with_the_radius tt convert_metres fill_float32
           zeros unconfigured without_land_mask hot_sea_cell out out' 0 1);
    try reflexivity; try assumption.
  - lia.
  - vm_compute. lia.
  - vm_compute. lia.
Defined.

Lemma X23_vicinity_reads_one_category_witness :
  exists out1 out2,
    vicinity with_land_mask hot_sea_cell = Ok out1
    /\ vicinity with_land_mask hot_sea_cell_wet_land = Ok out2
    /\ OccurrenceWithinVicinity.value_at out2 0 2
       == OccurrenceWithinVicinity.value_at out1 0 2.
Proof.
  assert (H1 : exists out, vicinity with_land_mask hot_sea_cell = Ok out)
    by (eexists; vm_compute; reflexivity).
  assert (H2 : exists out,
            vicinity with_land_mask hot_sea_cell_wet_land = Ok out)
    by (eexists; vm_compute; reflexivity).
  destruct H1 as [out1 H1]. destruct H2 as [out2 H2].
  exists out1, out2. split; [exact H1|]. split; [exact H2|].
  apply (X23_vicinity_reads_one_category tt convert_metres fill_float32
           zeros with_land_mask hot_sea_cell hot_sea_cell_wet_land out1 out2);
    try reflexivity; try assumption.
  - vm_compute. lia.
  - vm_compute. lia.
  - intros i' j' Hi Hj Hsame.
    destruct i' as [|[|[|[|i']]]]; try (vm_compute in Hi; lia);
      destruct j' as [|[|[|[|j']]]]; try (vm_compute in Hj; lia);
      first [reflexivity | vm_compute in Hsame; discriminate Hsame].
Defined.


Lemma X12_constructor_invariants_witness :
  OccurrenceWithinVicinity.init (Some 5000) (Some 1%Z)
    (@None (OccurrenceWithinVicinity.Cube2D unit unit))
    = Raise OnlyOneRadius
  /\ OccurrenceWithinVicinity.init None (Some 1%Z) (Some hot_sea_cell)
     = Raise (LandMaskName "probability_of_rain")
  /\ OccurrenceWithinVicinity.init None (Some 1%Z) (Some land_left)
     = Ok with_land_mask
  /\ exists mask,
       OccurrenceWithinVicinity.land_mask with_land_mask = Some mask
       /\ (get false mask 0 0 = true
           <-> 1 # 2 <= OccurrenceWithinVicinity.value_at land_left 0 0).
Proof.
  split; [|split; [|split; [reflexivity|]]].
  - destruct (X12_constructor_invariants tt convert_metres (Some 5000)
                (Some 1%Z) (@None (OccurrenceWithinVicinity.Cube2D unit unit)))
      as [H _].
    apply H; eauto.
  - destruct (X12_constructor_invariants tt convert_metres None (Some 1%Z)
                (Some hot_sea_cell)) as (_ & H & _).
    apply (H hot_sea_cell).
    + reflexivity.
    + discriminate.
    + now left.
  - destruct (X12_constructor_invariants tt convert_metres None (Some 1%Z)
                (Some land_left)) as (_ & _ & H).
    destruct (H with_land_mask eq_refl) as (_ & _ & _ & _ & Hmask & _).
    destruct (Hmask land_left eq_refl) as (_ & mask & Hm & Hcells).
    exists mask. split; [exact Hm|]. apply Hcells; vm_compute; lia.
Defined.

Import CollapseMaskedNeighbourhoodCoordinate.

Lemma X13_collapse_changes_its_input_once_witness :
  exists out σ' out' σ'',
    collapse_process weighted 0%nat two_cubes = Ok (out, σ')
    /\ collapse_process weighted 0%nat σ' = Ok (out', σ'')
    /\ σ'' !! 0%nat = σ' !! 0%nat.
Proof.
  assert (H1 : exists out σ',
            collapse_process weighted 0%nat two_cubes = Ok (out, σ'))
    by (eexists _, _; vm_compute; reflexivity).
  destruct H1 as (out & σ' & H1).
  assert (H2 : exists out' σ'',
            collapse_process weighted 0%nat σ' = Ok (out', σ'')).
  { vm_compute in H1. injection H1 as <- <-.
    eexists _, _. vm_compute. reflexivity. }
  destruct H2 as (out' & σ'' & H2).
  exists out, σ', out', σ''. split; [exact H1|]. split; [exact H2|].
  apply (X13_collapse_changes_its_input_once collapsed_stub merge_stub
           check_stub weighted 0%nat out out' two_cubes σ' σ'').
  - discriminate.
  - exact H1.
  - exact H2.
Defined.

Import DifferenceBetweenAdjacentGridSquares.

Lemma altitude_rectangular : rectangular (cube_data altitude).
Proof. repeat constructor. Defined.

Lemma altitude_unique_names (ax : axis) : unique_name altitude ax.
Proof.
  destruct ax; (split; [discriminate|]); repeat constructor; discriminate.
Defined.

Lemma altitude_differences :
  exists diffs, DifferenceBetweenAdjacentGridSquares.process altitude
                = Returns diffs.
Proof. eexists. vm_compute. reflexivity. Defined.

(** The differences of the altitudes along x and along y. *)
Example altitude_difference_data :
  match DifferenceBetweenAdjacentGridSquares.process altitude with
  | Returns (xd, yd) => Some (cube_data xd, cube_data yd)
  | Raises _ => None
  end
  = Some ([[30 - 10; 50 - 30]; [40 - 20; 60 - 40]; [35 - 15; 55 - 35]],
          [[20 - 10; 40 - 30; 60 - 50]; [15 - 20; 35 - 40; 55 - 60]]).
Proof. vm_compute. reflexivity. Qed.

Lemma X14_forward_differences_witness :
  exists diffs,
    DifferenceBetweenAdjacentGridSquares.process altitude = Returns diffs
    /\ value_at (along X diffs) 1 2 = value_at altitude 2 2 - value_at altitude 1 2
    /\ extent (cube_first_axis (along X diffs)) (cube_data (along X diffs)) X
       = 2%nat.
Proof.
  destruct (X14_forward_differences altitude altitude_rectangular)
    as [Hdiff Hreturns].
  destruct (Hreturns (altitude_unique_names X) (altitude_unique_names Y))
    as [diffs H]; [vm_compute; lia | vm_compute; lia |].
  exists diffs. split; [exact H|].
  destruct (Hdiff diffs X H) as [Hvalue Hextent]. split.
  - apply (Hvalue 1%nat 2%nat); vm_compute; lia.
  - destruct Hextent as (_ & E & _); [vm_compute; lia | exact E].
Defined.

Lemma X15_difference_coordinates_witness :
  exists diffs,
    DifferenceBetweenAdjacentGridSquares.process altitude = Returns diffs
    /\ length (points (along X diffs) X) = 2%nat
    /\ nth 1 (points (along X diffs) X) 0 = (4000 + 2000) / 2
    /\ increasing (points (along X diffs) X).
Proof.
  destruct altitude_differences as [diffs H]. exists diffs.
  split; [exact H|].
  destruct (X15_difference_coordinates altitude diffs X H)
    as (_ & _ & _ & Hlength & Hpoint & Hup & _).
  split; [exact Hlength|]. split.
  - apply (Hpoint 1%nat). vm_compute. lia.
  - apply Hup. repeat constructor.
Defined.

Lemma X16_difference_metadata_witness :
  exists diffs,
    DifferenceBetweenAdjacentGridSquares.process altitude = Returns diffs
    /\ cube_name (along Y diffs) = "difference_of_surface_altitude"
    /\ cube_attributes (along Y diffs) !! "source" = Some "IMPROVER"
    /\ cube_cell_methods (along Y diffs)
       = [mkCellMethod "difference" ["projection_y_coordinate"]
            ["1 grid length"]].
Proof.
  destruct altitude_differences as [diffs H]. exists diffs.
  split; [exact H|].
  destruct (X16_difference_metadata altitude) as [Hmeta _].
  destruct (Hmeta diffs Y H) as (Hname & _ & _ & _ & Hattrs & Hmethods).
  split; [exact Hname|]. split; [|exact Hmethods].
  rewrite Hattrs by discriminate. vm_compute. reflexivity.
Defined.

Lemma X17_difference_keeps_the_spacing_witness :
  exists diffs m m',
    DifferenceBetweenAdjacentGridSquares.process altitude = Returns diffs
    /\ calculate_grid_spacing convert_metres (cube_grid altitude) tt X
         default_rtol = Ok (f_fin m)
    /\ calculate_grid_spacing convert_metres (cube_grid (along X diffs)) tt X
         default_rtol = Ok (f_fin m')
    /\ m == Qabs 2000 /\ m' == Qabs 2000.
Proof.
  destruct altitude_differences as [diffs H]. exists diffs.
  destruct (X17_difference_keeps_the_spacing convert_metres altitude diffs X
              tt (fun p => p) 2000 default_rtol H eq_refl)
    as (m & m' & Hm & Hm' & E & E').
  - intros a b. reflexivity.
  - vm_compute. lia.
  - repeat constructor.
  - discriminate.
  - exists m, m'. repeat split; assumption.
Defined.

Lemma X18_differences_telescope_witness :
  exists diffs,
    DifferenceBetweenAdjacentGridSquares.process altitude = Returns diffs
    /\ Qsum (map (fun ix => value_at (along X diffs) ix 1) (seq 0 2))
       == value_at altitude 2 1 - value_at altitude 0 1.
Proof.
  destruct altitude_differences as [diffs H]. exists diffs.
  split; [exact H|].
  destruct (X18_differences_telescope altitude diffs H altitude_rectangular)
    as [Hx _].
  apply (Hx 1%nat); vm_compute; lia.
Defined.

Import GradientBetweenAdjacentGridSquares.

Lemma X19_gradient_uses_the_first_spacing_witness :
  exists diffs g q,
    DifferenceBetweenAdjacentGridSquares.process altitude = Returns diffs
    /\ _gradient_from_diff (along X diffs) X = Returns g
    /\ at_xy f_nan Y g 0 1 = f_fin q
    /\ q == (value_at altitude 1 1 - value_at altitude 0 1) / ((4000 - 0) / 2).
Proof.
  destruct altitude_differences as [diffs H]. exists diffs.
  destruct (X19_gradient_uses_the_first_spacing altitude diffs X 0 2000 4000
              [] H altitude_rectangular eq_refl) as (g & Hg & Hvalue).
  - discriminate.
  - destruct (Hvalue 0%nat 1%nat) as (q & Hq & E).
    + vm_compute. lia.
    + vm_compute. lia.
    + exists g, q. repeat split; assumption.
Defined.

Lemma X20_gradient_of_a_linear_field_witness :
  exists diffs g q,
    DifferenceBetweenAdjacentGridSquares.process altitude = Returns diffs
    /\ _gradient_from_diff (along X diffs) X = Returns g
    /\ at_xy f_nan Y g 1 2 = f_fin q
    /\ q == 1 # 100.
Proof.
  destruct altitude_differences as [diffs H]. exists diffs.
  destruct (X20_gradient_of_a_linear_field altitude diffs X (1 # 100) 2000
              (fun iy => nth iy [10; 20; 15] 0) H altitude_rectangular)
    as (g & Hg & Hvalue).
  - reflexivity.
  - vm_compute. lia.
  - repeat constructor.
  - discriminate.
  - intros ix iy Hx Hy.
    destruct ix as [|[|[|ix]]]; try (vm_compute in Hx; lia);
      destruct iy as [|[|[|iy]]]; try (vm_compute in Hy; lia);
      vm_compute; reflexivity.
  - destruct (Hvalue 1%nat 2%nat) as (q & Hq & E).
    + vm_compute. lia.
    + vm_compute. lia.
    + exists g, q. repeat split; assumption.
Defined.

Lemma X21_no_gradient_along_two_points_witness :
  gradient_process (mkPlugin false) narrow_altitude = Raises IndexError.
Proof.
  destruct (X21_no_gradient_along_two_points (fun _ _ => tt)
              (∅ : gmap string string)
              (fun name _ _ _ data => Ok (name, data))
              (fun (c : string * grid npfloat) _ => Ok c)
              (mkPlugin false) narrow_altitude) as [H _].
  - split; [discriminate | constructor].
  - split; [discriminate | constructor].
  - apply H; [reflexivity | vm_compute; lia].
Defined.

(** With three points along each axis the gradient cubes are built. *)
Example altitude_gradients :
  match gradient_process (mkPlugin false) altitude with
  | Returns ((name, _), _) => Some name
  | Raises _ => None
  end
  = Some "gradient_of_surface_altitude".
Proof. vm_compute. reflexivity. Qed.

End FurtherExampleRuns.
